(** * jquery.lace.js: a column layout for grid items

    A shallow embedding of [src/jquery.lace.js] and the properties of
    its layout algorithm: column count derivation, round-robin
    assignment, relayout, the height query and the [evenBottom]
    balancer.

    Pixel quantities (widths, paddings, heights) are integers.  The
    only place where the code can leave the integers is the division in
    [_getColumnCount], whose divisor can be zero; its result is
    therefore a [jsnum]. *)

From Stdlib Require Import ZArith List Bool Lia String Permutation Sorted.
Import ListNotations.
Local Open Scope Z_scope.

(** ** JavaScript numbers *)

Inductive jsnum : Type :=
| Num (z : Z)
| PInf
| NInf
| NaN.

(** [Math.floor(a / b)] for integers [a] and [b]. *)
Definition js_floor_div (a b : Z) : jsnum :=
  if b =? 0 then
    if 0 <? a then PInf else if a <? 0 then NInf else NaN
  else Num (a / b).

(** [x < m] for a number [x] and an integer [m]. *)
Definition js_lt (x : jsnum) (m : Z) : bool :=
  match x with
  | Num z => z <? m
  | NInf => true
  | PInf | NaN => false
  end.

(** [x == y] on numbers: [NaN] equals nothing. *)
Definition js_eq (x y : jsnum) : bool :=
  match x, y with
  | Num a, Num b => a =? b
  | PInf, PInf | NInf, NInf => true
  | _, _ => false
  end.

(** [a % b]: the remainder takes the sign of the dividend. *)
Definition js_rem (a b : jsnum) : jsnum :=
  match a, b with
  | Num x, Num y => if y =? 0 then NaN else Num (Z.rem x y)
  | Num x, (PInf | NInf) => Num x
  | _, _ => NaN
  end.

(** [a + k] and [a * k], [a - k] for an integer [k]. *)
Definition js_add (a : jsnum) (k : Z) : jsnum :=
  match a with
  | Num x => Num (x + k)
  | other => other
  end.

Definition js_mul (a : jsnum) (k : Z) : jsnum :=
  match a with
  | Num x => Num (x * k)
  | PInf => if 0 <? k then PInf else if k <? 0 then NInf else NaN
  | NInf => if 0 <? k then NInf else if k <? 0 then PInf else NaN
  | NaN => NaN
  end.

(** Truthiness of a number: [0] and [NaN] are falsy. *)
Definition js_truthy (a : jsnum) : bool :=
  match a with
  | Num x => negb (x =? 0)
  | PInf | NInf => true
  | NaN => false
  end.

(** [Math.ceil(a / 2)]. *)
Definition js_ceil_half (a : jsnum) : jsnum :=
  match a with
  | Num x => Num ((x + 1) / 2)
  | other => other
  end.

(** ** Options and settings *)

(** A field of the options object passed by the caller: left out,
    given as [null], or given a value. *)
Inductive jsopt (A : Type) : Type :=
| Undefined
| Null
| Val (a : A).
Arguments Undefined {A}.
Arguments Null {A}.
Arguments Val {A} a.

Record options : Type := mkOptions {
  o_colWidth : jsopt Z;
  o_colPadding : jsopt Z;
  o_minCols : option Z;
  o_windowPadding : option Z;
  o_selector : jsopt string;
  o_bootstrapped : option bool;
  o_centered : option bool
}.

(** The merged settings; [None] in a field is JavaScript's [null]. *)
Record Settings : Type := mkSettings {
  cols : jsnum;
  colWidth : option Z;
  colPadding : option Z;
  minCols : Z;
  windowPadding : Z;
  selector : option string;
  bootstrapped : bool;
  centered : bool
}.

(** One field of [$.extend({}, defaults, options)]: a field that is
    left out keeps the default, every other value overrides it. *)
Definition extend {A : Type} (default : option A) (given : jsopt A) : option A :=
  match given with
  | Undefined => default
  | Null => None
  | Val a => Some a
  end.

Definition extend_val {A : Type} (default : A) (given : option A) : A :=
  match given with
  | None => default
  | Some a => a
  end.

Definition defaults : Settings :=
  {| cols := Num 1;
     colWidth := Some 0;
     colPadding := Some 0;
     minCols := 1;
     windowPadding := 50;
     selector := None;
     bootstrapped := true;
     centered := false |}.

Definition merge (o : options) : Settings :=
  {| cols := cols defaults;
     colWidth := extend (colWidth defaults) (o_colWidth o);
     colPadding := extend (colPadding defaults) (o_colPadding o);
     minCols := extend_val (minCols defaults) (o_minCols o);
     windowPadding := extend_val (windowPadding defaults) (o_windowPadding o);
     selector := extend (selector defaults) (o_selector o);
     bootstrapped := extend_val (bootstrapped defaults) (o_bootstrapped o);
     centered := extend_val (centered defaults) (o_centered o) |}.

(** [null] used as a number is [0]. *)
Definition toNumber (v : option Z) : Z :=
  match v with
  | Some z => z
  | None => 0
  end.

(** ** Measured widths

    What [this.$el.width()] and [this.settings.$centerRefDiv.width()]
    report at the time of a call. *)
Record metrics : Type := mkMetrics {
  elWidth : Z;
  refWidth : Z
}.

Definition measuredWidth (st : Settings) (m : metrics) : Z :=
  if centered st then refWidth m else elWidth m.

(** ** Column count (lines 120-134) *)

Definition _getColumnCount (st : Settings) (m : metrics) : jsnum :=
  let elWidth := measuredWidth st m - windowPadding st in
  let colWidth := toNumber (colWidth st) + toNumber (colPadding st) in
  let answer := js_floor_div elWidth colWidth in
  if js_lt answer (minCols st) then Num (minCols st) else answer.

(** [_getContainerWidth] (lines 193-196). *)
Definition _getContainerWidth (st : Settings) (m : metrics) : jsnum :=
  let colWithPadding := toNumber (colWidth st) + toNumber (colPadding st) in
  js_add (js_mul (_getColumnCount st m) colWithPadding) (- toNumber (colPadding st)).

(** ** The container's content

    An item is an element matched by the selector.  [ident] stands for
    the identity of the DOM element, [sortIndex] for its
    [data-sort-index] attribute ([None] when the attribute is absent),
    [height] for its rendered height. *)
Record item : Type := mkItem {
  ident : nat;
  sortIndex : option Z;
  height : Z
}.

(** A child of the container: a column ([.lace-col], with its
    [data-sort-index] and the items it holds), an item that is not in
    a column, or the clearer ([.lace-clearer]). *)
Inductive node : Type :=
| Col (index : Z) (content : list item)
| Loose (it : item)
| Clearer.

Definition dom : Type := list node.

Definition isCol (n : node) : bool :=
  match n with Col _ _ => true | _ => false end.

Definition notCol (n : node) : bool := negb (isCol n).

Definition isClearer (n : node) : bool :=
  match n with Clearer => true | _ => false end.

(** The items under a node and under the container, in document order. *)
Definition nodeItems (n : node) : list item :=
  match n with
  | Col _ its => its
  | Loose it => [it]
  | Clearer => []
  end.

Definition allItems (d : dom) : list item := flat_map nodeItems d.

(** [this.$el.find(selector)]: a [null] selector matches nothing. *)
Definition find (sel : option string) (d : dom) : list item :=
  match sel with
  | Some _ => allItems d
  | None => []
  end.

(** [this.$el.find('> ' + selector)]: the items that are children of
    the container itself. *)
Definition findChildren (sel : option string) (d : dom) : list item :=
  match sel with
  | Some _ => flat_map (fun n => match n with Loose it => [it] | _ => [] end) d
  | None => []
  end.

(** The columns, [this.$el.find(this.colClass)], in document order. *)
Definition columns (d : dom) : list (Z * list item) :=
  flat_map (fun n => match n with Col i its => [(i, its)] | _ => [] end) d.

(** [$(item).attr('data-sort-index', v)] on the element [id]. *)
Definition withIndex (v : Z) (it : item) : item :=
  {| ident := ident it; sortIndex := Some v; height := height it |}.

Definition attrItem (id : nat) (v : Z) (it : item) : item :=
  if Nat.eqb (ident it) id then withIndex v it else it.

Definition setSortIndex (id : nat) (v : Z) (d : dom) : dom :=
  map (fun n => match n with
                | Col i its => Col i (map (attrItem id v) its)
                | Loose it => Loose (attrItem id v it)
                | Clearer => Clearer
                end) d.

(** Taking the element [id] out of the place where it is. *)
Definition isNot (id : nat) (it : item) : bool := negb (Nat.eqb (ident it) id).

Definition detach (id : nat) (d : dom) : dom :=
  flat_map (fun n => match n with
                     | Col i its => [Col i (filter (isNot id) its)]
                     | Loose it => if isNot id it then [Loose it] else []
                     | Clearer => [Clearer]
                     end) d.

(** The columns selected by [.lace-col[data-sort-index="num"]]: the
    attribute of a column is the decimal form of an integer, which only
    the same integer prints as. *)
Definition selects (num : jsnum) (i : Z) : bool :=
  match num with
  | Num z => i =? z
  | _ => false
  end.

Definition hasCol (num : jsnum) (d : dom) : bool :=
  existsb (fun n => match n with Col i _ => selects num i | _ => false end) d.

(** [$item.appendTo($col)] once the item is taken out: the item becomes
    the last element of every selected column (jQuery puts the element
    itself in the last of them and copies of it in the others). *)
Definition appendTo (num : jsnum) (it : item) (d : dom) : dom :=
  map (fun n => match n with
                | Col i its => if selects num i then Col i (its ++ [it]) else n
                | _ => n
                end) d.

(** The whole move: nothing happens when no column is selected. *)
Definition moveTo (num : jsnum) (it : item) (d : dom) : dom :=
  if hasCol num d then appendTo num it (detach (ident it) d) else d.

(** ** Sorting by [data-sort-index] (lines 202-216) *)

(** [parseInt] of a missing attribute is [NaN], which compares neither
    above nor below anything. *)
Definition compareIndex (a b : option Z) : Z :=
  match a, b with
  | Some x, Some y => if y <? x then 1 else if x <? y then -1 else 0
  | _, _ => 0
  end.

(** [Array.prototype.sort] is a stable sort; it is modelled by a stable
    insertion sort.  Whenever the comparison is a total preorder, all
    stable sorts return this list. *)
Fixpoint insertByIndex {A : Type} (key : A -> option Z) (x : A) (l : list A) : list A :=
  match l with
  | [] => [x]
  | y :: l' =>
      if 0 <? compareIndex (key x) (key y)
      then y :: insertByIndex key x l'
      else x :: l
  end.

Definition _sortItemsByIndex {A : Type} (key : A -> option Z) (l : list A) : list A :=
  fold_right (insertByIndex key) [] l.

Definition colKey (c : Z * list item) : option Z := Some (fst c).

(** ** Column heights (lines 136-189) *)

(** The height of a column is the height of the items stacked in it. *)
Definition colHeight (its : list item) : Z :=
  fold_right (fun it acc => height it + acc) 0 its.

(** One of the two [$.each(heights, ...)] loops: [lastHeight] and the
    column recorded so far, updated with the height [v] at position
    [i].  [better v lastHeight] is [v < lastHeight] in the first loop
    and [v > lastHeight] in the second. *)
Definition scanStep (better : Z -> Z -> bool)
  (acc : option Z * option Z) (i : nat) (v : Z) : option Z * option Z :=
  match fst acc with
  | None => (Some v, Some (Z.of_nat i + 1))
  | Some lastHeight =>
      if better v lastHeight then (Some v, Some (Z.of_nat i + 1)) else acc
  end.

Fixpoint scanFrom (better : Z -> Z -> bool) (i : nat) (heights : list Z)
  (acc : option Z * option Z) : option Z * option Z :=
  match heights with
  | [] => acc
  | v :: rest => scanFrom better (S i) rest (scanStep better acc i v)
  end.

Definition scan (better : Z -> Z -> bool) (heights : list Z) : option Z * option Z :=
  scanFrom better 0 heights (None, None).

Record colHeights : Type := mkColHeights {
  highestCol : option Z;
  highestValue : option Z;
  shortestCol : option Z;
  shortestValue : option Z
}.

Definition sortedHeights (d : dom) : list Z :=
  map (fun c => colHeight (snd c)) (_sortItemsByIndex colKey (columns d)).

(** [None] is the [undefined] returned when there is no column. *)
Definition _getColumnHeights (d : dom) : option colHeights :=
  match columns d with
  | [] => None
  | _ :: _ =>
      let heights := sortedHeights d in
      let lo := scan Z.ltb heights in
      let hi := scan Z.gtb heights in
      Some {| highestCol := snd hi; highestValue := fst hi;
              shortestCol := snd lo; shortestValue := fst lo |}
  end.

(** [$highest] and [$shortest] are looked up again by index. *)
Definition selectsOpt (c : option Z) (i : Z) : bool :=
  match c with
  | Some z => i =? z
  | None => false
  end.

Definition colItems (c : option Z) (d : dom) : list item :=
  flat_map (fun n => match n with
                     | Col i its => if selectsOpt c i then its else []
                     | _ => []
                     end) d.

Definition numOpt (c : option Z) : jsnum :=
  match c with
  | Some z => Num z
  | None => NaN
  end.

(** ** The plugin instance *)

Record Cache : Type := mkCache {
  cache_cols : jsnum;
  lastColAppended : option jsnum;
  itemIndex : Z
}.

(** [el] is the content of [this.$el]; [cssWidth] the width in pixels
    set on the container by [_setContainerWidth], if any. *)
Record lace : Type := mkLace {
  settings : Settings;
  cache : Cache;
  el : dom;
  cssWidth : option Z
}.

Definition setEl (s : lace) (d : dom) : lace :=
  {| settings := settings s; cache := cache s; el := d; cssWidth := cssWidth s |}.

Definition setCache (s : lace) (c : Cache) : lace :=
  {| settings := settings s; cache := c; el := el s; cssWidth := cssWidth s |}.

Definition setCols (st : Settings) (n : jsnum) : Settings :=
  {| cols := n;
     colWidth := colWidth st;
     colPadding := colPadding st;
     minCols := minCols st;
     windowPadding := windowPadding st;
     selector := selector st;
     bootstrapped := bootstrapped st;
     centered := centered st |}.

(** How a call ends: it returns, it throws a [TypeError] (the instance
    is left as it was at that point), or it never returns. *)
Inductive outcome : Type :=
| Ret (s : lace)
| Throw (s : lace)
| Hang.

Definition bind (o : outcome) (k : lace -> outcome) : outcome :=
  match o with
  | Ret s => k s
  | Throw s => Throw s
  | Hang => Hang
  end.

(** The instance a call leaves behind, when it ends. *)
Definition stateAfter (o : outcome) : option lace :=
  match o with
  | Ret s | Throw s => Some s
  | Hang => None
  end.

(** [this.$el.css('width', v)] for a number [v]: jQuery sets nothing
    when [v] is [NaN], and sets [0px] for a negative width; a width
    that is not finite is no CSS length, and the browser keeps the
    width it had. *)
Definition css_width (v : jsnum) (old : option Z) : option Z :=
  match v with
  | Num w => Some (Z.max 0 w)
  | PInf | NInf | NaN => old
  end.

(** [_setContainerWidth] (lines 198-200). *)
Definition _setContainerWidth (m : metrics) (s : lace) : lace :=
  {| settings := settings s; cache := cache s; el := el s;
     cssWidth := css_width (_getContainerWidth (settings s) m) (cssWidth s) |}.

(** ** Creating the columns (lines 219-223)

    The loop runs [i] from [cols] down to [1] and prepends column [i];
    it does not end when [cols] is [Infinity]. *)
Fixpoint prependCols (n : nat) (d : dom) : dom :=
  match n with
  | O => d
  | S k => prependCols k (Col (Z.of_nat (S k)) [] :: d)
  end.

Definition _createColumns (s : lace) : outcome :=
  match cols (settings s) with
  | Num c => Ret (setEl s (prependCols (Z.to_nat c) (el s)))
  | PInf => Hang
  | NInf | NaN => Ret s
  end.

(** ** Assignment of items to columns (lines 226-249) *)

(** The column number [num] for the item at position [i] of its batch. *)
Definition targetCol (last : option jsnum) (cols : jsnum) (i : nat) : jsnum :=
  match last with
  | Some l =>
      if js_truthy l
      then js_add (js_rem l cols) 1
      else js_add (js_rem (Num (Z.of_nat i)) cols) 1
  | None => js_add (js_rem (Num (Z.of_nat i)) cols) 1
  end.

(** The body of the [$.each] callback. *)
Definition moveItem (i : nat) (it : item) (s : lace) : lace :=
  let idx := itemIndex (cache s) in
  let d := setSortIndex (ident it) idx (el s) in
  let num := targetCol (lastColAppended (cache s)) (cols (settings s)) i in
  {| settings := settings s;
     cache := {| cache_cols := cache_cols (cache s);
                 lastColAppended := Some num;
                 itemIndex := idx + 1 |};
     el := moveTo num (withIndex idx it) d;
     cssWidth := cssWidth s |}.

Fixpoint eachFrom (i : nat) (items : list item) (s : lace) : lace :=
  match items with
  | [] => s
  | it :: rest => eachFrom (S i) rest (moveItem i it s)
  end.

Definition _moveItemsIntoCols (items : list item) (s : lace) : lace :=
  eachFrom 0 items s.

(** ** The balancer (lines 323-347) *)

(** One turn of the [while] loop on the content; [None] is the
    [TypeError] of reading a field of [undefined]. *)
Definition evenStep (sel : option string) (d : dom) : option dom :=
  match _getColumnHeights d with
  | None => None
  | Some h =>
      match sel with
      | None => Some d
      | Some _ =>
          match rev (colItems (highestCol h) d) with
          | it :: _ => Some (moveTo (numOpt (shortestCol h)) it d)
          | [] => Some d
          end
      end
  end.

Fixpoint evenLoop (n : nat) (s : lace) : outcome :=
  match n with
  | O => Ret s
  | S k =>
      match evenStep (selector (settings s)) (el s) with
      | None => Throw s
      | Some d => evenLoop k (setEl s d)
      end
  end.

Definition gapOf (h : colHeights) : Z :=
  Z.abs (toNumber (highestValue h) - toNumber (shortestValue h)).

Definition evenBottom (s : lace) : outcome :=
  let items := find (selector (settings s)) (el s) in
  match items with
  | [] => Ret s
  | _ :: _ =>
      match _getColumnHeights (el s) with
      | None => Throw s
      | Some h =>
          if gapOf h <=? 500 then Ret s
          else if Nat.eqb (List.length items) 1 then Ret s
          else match js_ceil_half (cache_cols (cache s)) with
               | Num k => evenLoop (Z.to_nat k) s
               | PInf => Hang
               | NInf | NaN => Ret s
               end
      end
  end.

(** ** Relayout and resize (lines 253-286) *)

Definition detachAll (items : list item) (d : dom) : dom :=
  fold_left (fun acc it => detach (ident it) acc) items d.

Definition resetCache (c : Cache) : Cache :=
  {| cache_cols := cache_cols c; lastColAppended := None; itemIndex := 0 |}.

Definition _reLayout (m : metrics) (s : lace) : outcome :=
  let sel := selector (settings s) in
  let found := find sel (el s) in
  (* Move existing items out of cols *)
  let d1 := detachAll found (el s) ++ map Loose found in
  (* Remove existing cols *)
  let d2 := filter notCol d1 in
  let s2 := setEl s d2 in
  let s3 := if centered (settings s) then _setContainerWidth m s2 else s2 in
  bind (_createColumns s3) (fun s4 =>
    let sorted := _sortItemsByIndex sortIndex (find sel (el s4)) in
    Ret (_moveItemsIntoCols sorted (setCache s4 (resetCache (cache s4))))).

Definition _resize (m : metrics) (s : lace) : outcome :=
  let n := _getColumnCount (settings s) m in
  if js_eq (cache_cols (cache s)) n then Ret s
  else
    let s1 :=
      {| settings := setCols (settings s) n;
         cache := {| cache_cols := n;
                     lastColAppended := lastColAppended (cache s);
                     itemIndex := itemIndex (cache s) |};
         el := el s;
         cssWidth := cssWidth s |} in
    _reLayout m s1.

(** ** Public operations (lines 290-319) *)

Definition append (items : list item) (s : lace) : outcome :=
  match items with
  | [] => Ret s
  | _ :: _ => bind (evenBottom s) (fun s1 => Ret (_moveItemsIntoCols items s1))
  end.

Definition remove (m : metrics) (items : list item) (s : lace) : outcome :=
  match items with
  | [] => Ret s
  | _ :: _ => _reLayout m (setEl s (detachAll items (el s)))
  end.

Definition removeAll (s : lace) : outcome :=
  _createColumns (setEl s (filter isClearer (el s))).

(** ** Construction (lines 46-116) *)

Inductive configError : Type :=
| MissingSelector
| MissingColWidth
| MissingColPadding.

(** [v == null] and [v == 0] on a setting: [null == 0] is false. *)
Definition isNull {A : Type} (v : option A) : bool :=
  match v with None => true | Some _ => false end.

Definition isZero (v : option Z) : bool :=
  match v with Some z => z =? 0 | None => false end.

Definition configErrors (st : Settings) : list configError :=
  (if isNull (selector st) then [MissingSelector] else [])
  ++ (if isZero (colWidth st) then [MissingColWidth] else [])
  ++ (if isNull (colPadding st) then [MissingColPadding] else []).

Definition _init (m : metrics) (s : lace) : outcome :=
  bind (_createColumns s) (fun s1 =>
  bind (if bootstrapped (settings s1)
        then evenBottom
               (_moveItemsIntoCols
                  (findChildren (selector (settings s1)) (el s1)) s1)
        else Ret s1) (fun s2 =>
  let s3 := if centered (settings s2) then _setContainerWidth m s2 else s2 in
  Ret (if existsb isClearer (el s3) then s3 else setEl s3 (el s3 ++ [Clearer])))).

(** The constructor: the errors it reports, then the outcome of
    [_init] on the content [d] of the container. *)
Definition Lace (o : options) (m : metrics) (d : dom) : list configError * outcome :=
  let st0 := merge o in
  let st := setCols st0 (_getColumnCount st0 m) in
  let c := {| cache_cols := _getColumnCount st m;
              lastColAppended := None;
              itemIndex := 0 |} in
  (configErrors st,
   _init m {| settings := st; cache := c; el := d; cssWidth := None |}).

(** ** Notions used to state the properties *)

(** [Math.max(x, m)] for a number [x] and an integer [m]. *)
Definition js_max (x : jsnum) (m : Z) : jsnum :=
  match x with
  | Num z => Num (Z.max z m)
  | PInf => PInf
  | NInf => Num m
  | NaN => NaN
  end.

(** [x >= m] for a number [x] and an integer [m]: [NaN] is at least
    nothing. *)
Definition atLeast (x : jsnum) (m : Z) : Prop :=
  match x with
  | Num z => m <= z
  | PInf => True
  | NInf | NaN => False
  end.

(** The column count as section 4.1 of the specification words it. *)
Definition columnCountSpec
  (containerWidth colWidth colPadding windowPadding minCols : Z) : jsnum :=
  let effectiveWidth := containerWidth - windowPadding in
  let perColumn := colWidth + colPadding in
  let raw := js_floor_div effectiveWidth perColumn in
  js_max raw minCols.

(** The height [v] is at position [p] of [l], nothing in [l] is better
    than it, and it is better than everything before [p]. *)
Definition firstBest (better : Z -> Z -> bool) (l : list Z) (p : nat) (v : Z) : Prop :=
  nth_error l p = Some v
  /\ (forall j w, nth_error l j = Some w -> better w v = false)
  /\ (forall j w, (j < p)%nat -> nth_error l j = Some w -> better v w = true).

(** What [lastColAppended] can hold: [null], [NaN], or a number that is
    not negative. *)
Definition lastOk (last : option jsnum) : Prop :=
  match last with
  | None | Some NaN => True
  | Some (Num l) => 0 <= l
  | Some PInf | Some NInf => False
  end.

(** The column numbers that [_moveItemsIntoCols] computes, one for each
    item of the batch, the first item being at position [i]. *)
Fixpoint numsFrom (i : nat) (items : list item) (s : lace) : list jsnum :=
  match items with
  | [] => []
  | it :: rest =>
      targetCol (lastColAppended (cache s)) (cols (settings s)) i
      :: numsFrom (S i) rest (moveItem i it s)
  end.

(** The instances that a page can hold: one built by the constructor,
    then any sequence of calls on it.  A call that throws leaves the
    instance in place. *)
Inductive reachable : lace -> Prop :=
| reach_Lace o m d s :
    snd (Lace o m d) = Ret s -> reachable s
| reach_append items s s' :
    reachable s -> stateAfter (append items s) = Some s' -> reachable s'
| reach_remove m items s s' :
    reachable s -> stateAfter (remove m items s) = Some s' -> reachable s'
| reach_removeAll s s' :
    reachable s -> stateAfter (removeAll s) = Some s' -> reachable s'
| reach_resize m s s' :
    reachable s -> stateAfter (_resize m s) = Some s' -> reachable s'
| reach_evenBottom s s' :
    reachable s -> stateAfter (evenBottom s) = Some s' -> reachable s'.

(** The indices of the columns, in document order, and the indices
    [1 .. n] that [_createColumns] gives them. *)
Definition colIndices (d : dom) : list Z := map fst (columns d).

Definition countUp (n : nat) : list Z := map Z.of_nat (seq 1 n).

(** The index of the first column that holds the element [id]. *)
Definition holds (id : nat) (its : list item) : bool :=
  existsb (fun it => Nat.eqb (ident it) id) its.

Fixpoint columnOf (id : nat) (d : dom) : option Z :=
  match d with
  | [] => None
  | Col i its :: rest => if holds id its then Some i else columnOf id rest
  | _ :: rest => columnOf id rest
  end.

(** Appending the items one call at a time: the column in which each
    item is found when its own call returns. *)
Fixpoint landings (items : list item) (s : lace) : list (option Z) :=
  match items with
  | [] => []
  | it :: rest =>
      match append [it] s with
      | Ret s' => columnOf (ident it) (el s') :: landings rest s'
      | Throw _ | Hang => []
      end
  end.

(** The element [id] as it stands in the container, and the gap
    between the highest and the shortest column. *)
Definition itemOf (id : nat) (d : dom) : option item :=
  List.find (fun it => Nat.eqb (ident it) id) (allItems d).

Definition sortIndexOf (id : nat) (d : dom) : option Z :=
  match itemOf id d with
  | Some it => sortIndex it
  | None => None
  end.

Definition gap (d : dom) : Z :=
  match _getColumnHeights d with
  | Some h => gapOf h
  | None => 0
  end.

Definition emptyCols (n : nat) : dom := map (fun i => Col i []) (countUp n).

(** The state in which [_createColumns] leaves the columns: [c]
    columns, numbered from 1 in document order, [c] being the column
    count of the settings and of the cache. *)
Definition laid (c : Z) (s : lace) : Prop :=
  cols (settings s) = Num c
  /\ cache_cols (cache s) = Num c
  /\ colIndices (el s) = countUp (Z.to_nat c).

(** The round robin over [c] columns: the [n] columns that follow
    column [last]. *)
Fixpoint rotation (c last : Z) (n : nat) : list Z :=
  match n with
  | O => []
  | S k => let t := last mod c + 1 in t :: rotation c t k
  end.

(** [x] comes strictly before [y] in the order of the sort. *)
Definition keyLt {A : Type} (key : A -> option Z) (x y : A) : Prop :=
  exists a b, key x = Some a /\ key y = Some b /\ a < b.

(** [x] has the sort index [v]; [x] comes before [y] or at the same
    place in the order of the sort. *)
Definition hasKey {A : Type} (key : A -> option Z) (v : Z) (x : A) : bool :=
  match key x with
  | Some a => a =? v
  | None => false
  end.

Definition keyLe {A : Type} (key : A -> option Z) (x y : A) : Prop :=
  exists a b, key x = Some a /\ key y = Some b /\ a <= b.

(** The items of [l], numbered from [k] on. *)
Fixpoint renumber (k : Z) (l : list item) : list item :=
  match l with
  | [] => []
  | x :: rest => withIndex k x :: renumber (k + 1) rest
  end.

(** The identities of the elements in the container. *)
Definition idsOf (d : dom) : list nat := map ident (allItems d).

(** [_moveItemsIntoCols] seen from the columns [C] alone: the items of
    the batch are numbered from [k] and appended to their columns. *)
Fixpoint placeFrom (cols : jsnum) (k : Z) (last : option jsnum) (i : nat)
  (items : list item) (C : dom) : dom :=
  match items with
  | [] => C
  | x :: rest =>
      let num := targetCol last cols i in
      placeFrom cols (k + 1) (Some num) (S i) rest (appendTo num (withIndex k x) C)
  end.

(** The cache after a batch of [n] items: it does not depend on the
    items themselves. *)
Fixpoint cacheFrom (cols : jsnum) (i n : nat) (c : Cache) : Cache :=
  match n with
  | O => c
  | S k =>
      cacheFrom cols (S i) k
        {| cache_cols := cache_cols c;
           lastColAppended := Some (targetCol (lastColAppended c) cols i);
           itemIndex := itemIndex c + 1 |}
  end.

(** The columns that [_createColumns] adds for a column count. *)
Definition newCols (n : jsnum) : dom :=
  match n with
  | Num c => emptyCols (Z.to_nat c)
  | PInf | NInf | NaN => []
  end.

(** The items of a container without columns, after the batch [batch]
    has been numbered from [k]: no item moves. *)
Fixpoint reindexItems (k : Z) (batch items : list item) : list item :=
  match batch with
  | [] => items
  | x :: rest => reindexItems (k + 1) rest (map (attrItem (ident x) k) items)
  end.

(** The heights of the columns in document order. *)
Definition heightsOf (d : dom) : list Z :=
  map (fun c => colHeight (snd c)) (columns d).

(** A column after the element [it] has gone to column [t]. *)
Definition afterMove (t : Z) (it : item) (c : Z * list item) : Z * list item :=
  (fst c,
   if fst c =? t
   then filter (isNot (ident it)) (snd c) ++ [it]
   else filter (isNot (ident it)) (snd c)).

(** The item that a turn of the balancer moves is no taller than the
    gap between the highest and the shortest column. *)
Definition gentleStep (d : dom) : Prop :=
  match _getColumnHeights d with
  | Some h =>
      match rev (colItems (highestCol h) d) with
      | it :: _ => 0 <= height it <= gapOf h
      | [] => True
      end
  | None => True
  end.

(** This holds at each of the [n] turns of the loop. *)
Fixpoint gentleRun (n : nat) (sel : option string) (d : dom) : Prop :=
  match n with
  | O => True
  | S k =>
      gentleStep d
      /\ match evenStep sel d with
         | Some d' => gentleRun k sel d'
         | None => True
         end
  end.

(** The column indices that go with a column count. *)
Definition expectedIndices (n : jsnum) : list Z :=
  match n with
  | Num c => countUp (Z.to_nat c)
  | PInf | NInf | NaN => []
  end.

(** A container the plugin has not touched yet: no column, and its
    items are distinct elements. *)
Definition plain (d : dom) : Prop :=
  colIndices d = [] /\ NoDup (idsOf d).

(** What holds of an instance between two calls: the cache and the
    settings agree on the column count, the columns are those of that
    count, no element is in two places, and [lastColAppended] is not
    negative. *)
Definition tidy (s : lace) : Prop :=
  cache_cols (cache s) = cols (settings s)
  /\ colIndices (el s) = expectedIndices (cols (settings s))
  /\ NoDup (idsOf (el s))
  /\ lastOk (lastColAppended (cache s)).

(** One call on an instance; a call that throws leaves the instance as
    it was when the exception was raised. *)
Inductive step : lace -> lace -> Prop :=
| step_append items s s' :
    stateAfter (append items s) = Some s' -> step s s'
| step_remove m items s s' :
    stateAfter (remove m items s) = Some s' -> step s s'
| step_removeAll s s' :
    stateAfter (removeAll s) = Some s' -> step s s'
| step_resize m s s' :
    stateAfter (_resize m s) = Some s' -> step s s'
| step_evenBottom s s' :
    stateAfter (evenBottom s) = Some s' -> step s s'.

(** An instance built with a column width above 0 and [minCols] at
    least 1: it is tidy and has at least one column. *)
Definition healthy (s : lace) : Prop :=
  tidy s
  /\ (exists c, cols (settings s) = Num c /\ 1 <= c)
  /\ 0 < toNumber (colWidth (settings s)) + toNumber (colPadding (settings s))
  /\ 1 <= minCols (settings s).

(** ** Sample inputs *)

Local Open Scope string_scope.

(** [{colWidth: 200, colPadding: 10, selector: '.grid-item'}], the
    options of the usage example at the head of the source file. *)
Definition usualOptions : options :=
  {| o_colWidth := Val 200;
     o_colPadding := Val 10;
     o_minCols := None;
     o_windowPadding := None;
     o_selector := Val ".grid-item";
     o_bootstrapped := None;
     o_centered := None |}.

(** The same options without [colPadding]. *)
Definition optionsWithoutPadding : options :=
  {| o_colWidth := Val 200;
     o_colPadding := Undefined;
     o_minCols := None;
     o_windowPadding := None;
     o_selector := Val ".grid-item";
     o_bootstrapped := None;
     o_centered := None |}.

(** The usual options with [centered: true]. *)
Definition centeredOptions : options :=
  {| o_colWidth := Val 200;
     o_colPadding := Val 10;
     o_minCols := None;
     o_windowPadding := None;
     o_selector := Val ".grid-item";
     o_bootstrapped := None;
     o_centered := Some true |}.

(** The options [{}]. *)
Definition noOptions : options :=
  {| o_colWidth := Undefined;
     o_colPadding := Undefined;
     o_minCols := None;
     o_windowPadding := None;
     o_selector := Undefined;
     o_bootstrapped := None;
     o_centered := None |}.

Local Close Scope string_scope.

(** A container 700 pixels wide holds three columns of 200 + 10
    pixels; one 500 pixels wide holds two. *)
Definition wide700 : metrics := {| elWidth := 700; refWidth := 1000 |}.
Definition wide500 : metrics := {| elWidth := 500; refWidth := 1000 |}.

(** [n] fresh elements of height 100, as children of the container. *)
Definition freshItem (n : nat) : item :=
  {| ident := n; sortIndex := None; height := 100 |}.

Definition freshItems (n : nat) : dom := map (fun k => Loose (freshItem k)) (seq 0 n).

(** The instance the constructor returns, when it returns. *)
Definition built (o : options) (m : metrics) (d : dom) : option lace :=
  match snd (Lace o m d) with
  | Ret s => Some s
  | Throw _ | Hang => None
  end.

(** Two columns, an item of height 100 in the first and one of height
    1000 in the second. *)
Definition lopsided : lace :=
  {| settings := setCols (merge usualOptions) (Num 2);
     cache := {| cache_cols := Num 2; lastColAppended := Some (Num 2); itemIndex := 2 |};
     el := [Col 1 [mkItem 0 (Some 0) 100]; Col 2 [mkItem 1 (Some 1) 1000]; Clearer];
     cssWidth := None |}.

(** Three columns holding the items 1 and 2 of a grid whose item 0 was
    taken away. *)
Definition afterRemoval : lace :=
  {| settings := setCols (merge usualOptions) (Num 3);
     cache := {| cache_cols := Num 3; lastColAppended := Some (Num 3); itemIndex := 3 |};
     el := [Col 1 []; Col 2 [mkItem 1 (Some 1) 100]; Col 3 [mkItem 2 (Some 2) 100];
            Clearer];
     cssWidth := None |}.

(** An empty grid of three columns. *)
Definition emptyGrid : lace :=
  {| settings := setCols (merge usualOptions) (Num 3);
     cache := {| cache_cols := Num 3; lastColAppended := None; itemIndex := 0 |};
     el := [Col 1 []; Col 2 []; Col 3 []; Clearer];
     cssWidth := None |}.

(** Two columns, the first one 600 pixels high and the second empty. *)
Definition tallFirst : lace :=
  {| settings := setCols (merge usualOptions) (Num 2);
     cache := {| cache_cols := Num 2; lastColAppended := Some (Num 1); itemIndex := 3 |};
     el := [Col 1 [mkItem 0 (Some 0) 100; mkItem 1 (Some 1) 200; mkItem 2 (Some 2) 300];
            Col 2 []; Clearer];
     cssWidth := None |}.

(** * Properties *)

(** Closed statements about sample inputs are settled by evaluation,
    one conjunct after the other. *)
Ltac evaluate :=
  repeat (split; [vm_compute; reflexivity|]); try (vm_compute; reflexivity).

(** ** Column count *)

Lemma js_lt_max (x : jsnum) (m : Z) :
  (if js_lt x m then Num m else x) = js_max x m.
Proof.
  destruct x as [z| | |]; simpl; trivial.
  destruct (Z.ltb_spec z m); f_equal; lia.
Qed.

(** C5, at the options [{}] in a container as wide as the window
    padding: the division is [0 / 0], the column count is [NaN], and
    [NaN] is not at least [minCols]. *)
Lemma getColumnCount_NaN :
  let st := merge noOptions in
  let m := {| elWidth := 50; refWidth := 0 |} in
  toNumber (colWidth st) + toNumber (colPadding st) = 0
  /\ elWidth m - windowPadding st = 0
  /\ _getColumnCount st m = NaN
  /\ ~ atLeast (_getColumnCount st m) (minCols st).
Proof.
  intros st m. repeat split. intros H. exact H.
Qed.

(** C5, amended: the width is that of the container, or of the
    reference element when [centered] is set.  The column count is
    [Math.max(Math.floor((width - windowPadding) / (colWidth +
    colPadding)), minCols)]; when [colWidth + colPadding] is not zero
    this is the integer maximum, at least [minCols], also when the
    quotient is [0].  When it is zero the count is [Infinity], [NaN] or
    [minCols] as the width is above, at or below the window padding;
    the count is at least [minCols] in every case but [NaN]. *)
Theorem getColumnCount_max (st : Settings) (m : metrics) :
  let width := if centered st then refWidth m else elWidth m in
  let cw := toNumber (colWidth st) in
  let cp := toNumber (colPadding st) in
  let eff := width - windowPadding st in
  _getColumnCount st m = columnCountSpec width cw cp (windowPadding st) (minCols st)
  /\ (cw + cp <> 0 ->
      _getColumnCount st m = Num (Z.max (eff / (cw + cp)) (minCols st))
      /\ minCols st <= Z.max (eff / (cw + cp)) (minCols st)
      /\ (eff / (cw + cp) = 0 ->
          0 <= minCols st -> _getColumnCount st m = Num (minCols st)))
  /\ (cw + cp = 0 ->
      (0 < eff -> _getColumnCount st m = PInf)
      /\ (eff = 0 -> _getColumnCount st m = NaN)
      /\ (eff < 0 -> _getColumnCount st m = Num (minCols st)))
  /\ (atLeast (_getColumnCount st m) (minCols st) <-> cw + cp <> 0 \/ eff <> 0).
Proof.
  intros width cw cp eff.
  assert (Hcount : _getColumnCount st m
                   = if js_lt (js_floor_div eff (cw + cp)) (minCols st)
                     then Num (minCols st) else js_floor_div eff (cw + cp))
    by reflexivity.
  split; [|split; [|split]].
  - rewrite Hcount, js_lt_max. reflexivity.
  - intros Hne. rewrite Hcount. unfold js_floor_div.
    destruct (Z.eqb_spec (cw + cp) 0) as [E|_]; [contradiction|].
    cbn [js_lt]. assert (Hmax : (if eff / (cw + cp) <? minCols st
                                 then Num (minCols st) else Num (eff / (cw + cp)))
                                = Num (Z.max (eff / (cw + cp)) (minCols st))).
    { destruct (Z.ltb_spec (eff / (cw + cp)) (minCols st)); f_equal; lia. }
    rewrite Hmax. split; [reflexivity|]. split; [lia|].
    intros H0 Hm. rewrite H0. f_equal. lia.
  - intros Hz. rewrite Hcount. unfold js_floor_div. rewrite Hz. cbn [Z.eqb].
    repeat split; intros H.
    + assert (E : (0 <? eff) = true) by (apply Z.ltb_lt; exact H).
      now rewrite E.
    + rewrite H. reflexivity.
    + assert (E : (0 <? eff) = false) by (apply Z.ltb_ge; lia).
      assert (E' : (eff <? 0) = true) by (apply Z.ltb_lt; exact H).
      now rewrite E, E'.
  - rewrite Hcount. unfold js_floor_div.
    destruct (Z.eqb_spec (cw + cp) 0) as [E|E].
    + destruct (Z.ltb_spec 0 eff) as [H|H]; cbn [js_lt atLeast].
      * split; [intros _; right; lia|trivial].
      * destruct (Z.ltb_spec eff 0) as [H'|H']; cbn [js_lt atLeast].
        -- split; [intros _; right; lia|intros _; lia].
        -- split; [contradiction|]. intros [H0|H0]; [contradiction|lia].
    + cbn [js_lt]. split; [intros _; now left|intros _].
      destruct (Z.ltb_spec (eff / (cw + cp)) (minCols st)); cbn [atLeast]; lia.
Qed.

Lemma getColumnCount_max_witness :
  let m := {| elWidth := 700; refWidth := 100 |} in
  200 + 10 <> 0
  /\ (100 - 50) / (200 + 10) = 0
  /\ _getColumnCount (merge centeredOptions) m = Num 1
  /\ _getColumnCount (merge usualOptions) m = Num 3
  /\ atLeast (_getColumnCount (merge centeredOptions) m)
             (minCols (merge centeredOptions)).
Proof.
  intros m.
  assert (Hne : 200 + 10 <> 0) by lia.
  destruct (getColumnCount_max (merge centeredOptions) m) as (_ & H & _ & Hge).
  destruct (H Hne) as (_ & _ & H0).
  destruct (getColumnCount_max (merge usualOptions) m) as (_ & H' & _).
  destruct (H' Hne) as (H3 & _).
  split; [exact Hne|]. split; [reflexivity|].
  split; [apply H0; [reflexivity|simpl; lia]|]. split; [exact H3|].
  apply Hge. left. exact Hne.
Defined.

(** With a zero divisor the result is not an integer: [Infinity] for a
    positive width, [NaN] for a zero width. *)
Lemma getColumnCount_zero_divisor :
  _getColumnCount defaults {| elWidth := 51; refWidth := 0 |} = PInf
  /\ _getColumnCount defaults {| elWidth := 50; refWidth := 0 |} = NaN
  /\ _getColumnCount defaults {| elWidth := 49; refWidth := 0 |} = Num 1.
Proof. repeat split. Qed.

(** ** The height query *)

Section Scan.
Variable better : Z -> Z -> bool.
Hypothesis better_irrefl : forall a, better a a = false.
Hypothesis better_trans :
  forall a b c, better a b = true -> better b c = true -> better a c = true.
Hypothesis better_cotrans :
  forall a b c, better a c = true -> better a b = true \/ better b c = true.

Lemma firstBest_keep (pre : list Z) (q : nat) (v0 v : Z) :
  firstBest better pre q v0 -> better v v0 = false ->
  firstBest better (pre ++ [v]) q v0.
Proof.
  intros (Hq & Hall & Hbefore) Hv. split; [|split].
  - rewrite nth_error_app1; [exact Hq|].
    apply nth_error_Some. congruence.
  - intros j w Hj.
    destruct (Nat.lt_ge_cases j (List.length pre)) as [Hlt|Hge].
    + rewrite nth_error_app1 in Hj by exact Hlt. eauto.
    + rewrite nth_error_app2 in Hj by exact Hge.
      destruct (j - List.length pre)%nat as [|k]; simpl in Hj.
      * injection Hj as <-. exact Hv.
      * destruct k; discriminate.
  - intros j w Hjq Hj.
    assert (Hlen : (q < List.length pre)%nat)
      by (apply nth_error_Some; congruence).
    rewrite nth_error_app1 in Hj by lia. eauto.
Qed.

Lemma firstBest_take (pre : list Z) (q : nat) (v0 v : Z) :
  firstBest better pre q v0 -> better v v0 = true ->
  firstBest better (pre ++ [v]) (List.length pre) v.
Proof.
  intros (Hq & Hall & Hbefore) Hv. split; [|split].
  - rewrite nth_error_app2 by lia. now rewrite Nat.sub_diag.
  - intros j w Hj.
    destruct (Nat.lt_ge_cases j (List.length pre)) as [Hlt|Hge].
    + rewrite nth_error_app1 in Hj by exact Hlt.
      destruct (better w v) eqn:E; [|reflexivity].
      pose proof (better_trans _ _ _ E Hv) as Hw.
      specialize (Hall _ _ Hj). congruence.
    + rewrite nth_error_app2 in Hj by exact Hge.
      destruct (j - List.length pre)%nat as [|k]; simpl in Hj.
      * injection Hj as <-. apply better_irrefl.
      * destruct k; discriminate.
  - intros j w Hlt Hj.
    rewrite nth_error_app1 in Hj by exact Hlt.
    destruct (better_cotrans _ w _ Hv) as [H|H]; [exact H|].
    specialize (Hall _ _ Hj). congruence.
Qed.

Lemma scanFrom_firstBest (l pre : list Z) (q : nat) (v0 : Z) :
  firstBest better pre q v0 ->
  exists p v,
    scanFrom better (List.length pre) l (Some v0, Some (Z.of_nat q + 1))
      = (Some v, Some (Z.of_nat p + 1))
    /\ firstBest better (pre ++ l) p v.
Proof.
  revert pre q v0.
  induction l as [|x l IH]; intros pre q v0 Hfb; simpl.
  - exists q, v0. rewrite app_nil_r. split; [reflexivity | exact Hfb].
  - unfold scanStep; simpl.
    destruct (better x v0) eqn:E.
    + pose proof (firstBest_take pre q v0 x Hfb E) as Hfb'.
      destruct (IH (pre ++ [x]) (List.length pre) x Hfb') as (p & v & Hs & Hp).
      rewrite length_app, Nat.add_comm in Hs; simpl in Hs.
      rewrite <- app_assoc in Hp; simpl in Hp.
      exists p, v. split; assumption.
    + pose proof (firstBest_keep pre q v0 x Hfb E) as Hfb'.
      destruct (IH (pre ++ [x]) q v0 Hfb') as (p & v & Hs & Hp).
      rewrite length_app, Nat.add_comm in Hs; simpl in Hs.
      rewrite <- app_assoc in Hp; simpl in Hp.
      exists p, v. split; assumption.
Qed.

Lemma scan_firstBest (x : Z) (l : list Z) :
  exists p v,
    scan better (x :: l) = (Some v, Some (Z.of_nat p + 1))
    /\ firstBest better (x :: l) p v.
Proof.
  assert (Hfb : firstBest better [x] 0 x).
  { split; [reflexivity|]. split.
    - intros [|[|j]] w Hj; simpl in Hj; try discriminate.
      injection Hj as <-. apply better_irrefl.
    - intros j w Hj. lia. }
  destruct (scanFrom_firstBest l [x] 0 x Hfb) as (p & v & Hs & Hp).
  exists p, v. split; [exact Hs | exact Hp].
Qed.
End Scan.

Lemma scan_shortest (x : Z) (l : list Z) :
  exists p v,
    scan Z.ltb (x :: l) = (Some v, Some (Z.of_nat p + 1))
    /\ firstBest Z.ltb (x :: l) p v.
Proof.
  apply scan_firstBest.
  - intros a. apply Z.ltb_irrefl.
  - intros a b c H1 H2. apply Z.ltb_lt in H1, H2. apply Z.ltb_lt. lia.
  - intros a b c H. apply Z.ltb_lt in H.
    destruct (Z.ltb_spec a b); [now left|]. right. apply Z.ltb_lt. lia.
Qed.

Lemma scan_highest (x : Z) (l : list Z) :
  exists p v,
    scan Z.gtb (x :: l) = (Some v, Some (Z.of_nat p + 1))
    /\ firstBest Z.gtb (x :: l) p v.
Proof.
  apply scan_firstBest.
  - intros a. rewrite Z.gtb_ltb. apply Z.ltb_irrefl.
  - intros a b c H1 H2. rewrite Z.gtb_ltb in *.
    apply Z.ltb_lt in H1, H2. apply Z.ltb_lt. lia.
  - intros a b c H. rewrite !Z.gtb_ltb in *. apply Z.ltb_lt in H.
    destruct (Z.ltb_spec b a); [now left|]. right. apply Z.ltb_lt. lia.
Qed.

Lemma insertByIndex_not_nil {A : Type} (key : A -> option Z) (x : A) (l : list A) :
  insertByIndex key x l <> [].
Proof. destruct l; simpl; [|destruct (0 <? _)]; discriminate. Qed.

Lemma sortedHeights_not_nil (d : dom) :
  columns d <> [] -> sortedHeights d <> [].
Proof.
  unfold sortedHeights. destruct (columns d) as [|c l]; [congruence|].
  intros _ H. apply map_eq_nil in H. simpl in H.
  now apply insertByIndex_not_nil in H.
Qed.

(** The record that the query returns, in terms of the two scans. *)
Lemma getColumnHeights_scan (d : dom) :
  columns d <> [] ->
  exists h ps vs ph vh,
    _getColumnHeights d = Some h
    /\ shortestCol h = Some (Z.of_nat ps + 1)
    /\ shortestValue h = Some vs
    /\ highestCol h = Some (Z.of_nat ph + 1)
    /\ highestValue h = Some vh
    /\ firstBest Z.ltb (sortedHeights d) ps vs
    /\ firstBest Z.gtb (sortedHeights d) ph vh.
Proof.
  intros Hcols.
  pose proof (sortedHeights_not_nil d Hcols) as Hne.
  unfold _getColumnHeights.
  destruct (columns d) as [|c cs] eqn:Ec; [congruence|].
  destruct (sortedHeights d) as [|x l] eqn:Eh; [congruence|].
  destruct (scan_shortest x l) as (ps & vs & Hs & Hfs).
  destruct (scan_highest x l) as (ph & vh & Hh & Hfh).
  exists {| highestCol := snd (scan Z.gtb (x :: l));
            highestValue := fst (scan Z.gtb (x :: l));
            shortestCol := snd (scan Z.ltb (x :: l));
            shortestValue := fst (scan Z.ltb (x :: l)) |}, ps, vs, ph, vh.
  rewrite Hs, Hh. simpl.
  repeat (split; [reflexivity|]). split; assumption.
Qed.

Lemma firstBest_bounds (l : list Z) (ps ph : nat) (vs vh : Z) :
  firstBest Z.ltb l ps vs -> firstBest Z.gtb l ph vh ->
  nth_error l ps = Some vs
  /\ nth_error l ph = Some vh
  /\ forall j w, nth_error l j = Some w -> vs <= w <= vh.
Proof.
  intros (Hs1 & Hs2 & _) (Hh1 & Hh2 & _).
  split; [exact Hs1|]. split; [exact Hh1|].
  intros j w Hj.
  specialize (Hs2 j w Hj). specialize (Hh2 j w Hj).
  rewrite Z.gtb_ltb in Hh2. apply Z.ltb_ge in Hs2, Hh2. lia.
Qed.

(** ** Round-robin assignment *)

Lemma targetCol_fresh (c : Z) (i : nat) :
  1 <= c -> targetCol None (Num c) i = Num (Z.of_nat i mod c + 1).
Proof.
  intros Hc. unfold targetCol, js_rem, js_add.
  destruct (Z.eqb_spec c 0); [lia|].
  rewrite Z.rem_mod_nonneg by lia. reflexivity.
Qed.

Lemma targetCol_next (c l : Z) (i : nat) :
  1 <= c -> 1 <= l -> targetCol (Some (Num l)) (Num c) i = Num (l mod c + 1).
Proof.
  intros Hc Hl. unfold targetCol, js_rem, js_add, js_truthy.
  destruct (Z.eqb_spec l 0); [lia|]. simpl.
  destruct (Z.eqb_spec c 0); [lia|].
  rewrite Z.rem_mod_nonneg by lia. reflexivity.
Qed.

Lemma targetCol_range (last : option jsnum) (c : Z) (i : nat) :
  lastOk last -> 1 <= c ->
  exists t, targetCol last (Num c) i = Num t /\ 1 <= t <= c.
Proof.
  intros Hok Hc.
  assert (Hrem : forall x, 0 <= x ->
            exists t, js_add (js_rem (Num x) (Num c)) 1 = Num t /\ 1 <= t <= c).
  { intros x Hx. unfold js_rem, js_add.
    destruct (Z.eqb_spec c 0); [lia|].
    exists (Z.rem x c + 1). split; [reflexivity|].
    rewrite Z.rem_mod_nonneg by lia.
    pose proof (Z.mod_pos_bound x c). lia. }
  unfold targetCol.
  destruct last as [[l| | |]|]; simpl in Hok; try contradiction.
  - destruct (js_truthy (Num l)); apply Hrem; lia.
  - apply Hrem; lia.
  - apply Hrem; lia.
Qed.

Lemma targetCol_lastOk (last : option jsnum) (n : jsnum) (i : nat) :
  lastOk last -> lastOk (Some (targetCol last n i)).
Proof.
  intros Hok.
  assert (Hrem : forall x, 0 <= x -> lastOk (Some (js_add (js_rem (Num x) n) 1))).
  { intros x Hx. unfold js_rem, js_add.
    destruct n as [y| | |]; simpl; try lia.
    destruct (Z.eqb_spec y 0); simpl; [trivial|].
    pose proof (Z.rem_nonneg x y). lia. }
  unfold targetCol.
  destruct last as [[l| | |]|]; simpl in Hok; try contradiction.
  - destruct (js_truthy (Num l)); apply Hrem; lia.
  - apply Hrem; lia.
  - apply Hrem; lia.
Qed.

(** *** What the operations leave alone *)

Lemma eachFrom_settings (items : list item) (i : nat) (s : lace) :
  settings (eachFrom i items s) = settings s.
Proof.
  revert i s. induction items as [|it rest IH]; intros i s; simpl; [reflexivity|].
  now rewrite IH.
Qed.

Lemma eachFrom_lastOk (items : list item) (i : nat) (s : lace) :
  lastOk (lastColAppended (cache s)) ->
  lastOk (lastColAppended (cache (eachFrom i items s))).
Proof.
  revert i s. induction items as [|it rest IH]; intros i s H; simpl; [exact H|].
  apply IH. simpl. now apply targetCol_lastOk.
Qed.

Lemma evenLoop_frame (n : nat) (s s' : lace) :
  stateAfter (evenLoop n s) = Some s' ->
  settings s' = settings s /\ cache s' = cache s /\ cssWidth s' = cssWidth s.
Proof.
  revert s. induction n as [|n IH]; intros s; simpl.
  - intros [= <-]. auto.
  - destruct (evenStep _ _) as [d|]; simpl.
    + intros H. apply IH in H. simpl in H. exact H.
    + intros [= <-]. auto.
Qed.

Lemma evenBottom_frame (s s' : lace) :
  stateAfter (evenBottom s) = Some s' ->
  settings s' = settings s /\ cache s' = cache s /\ cssWidth s' = cssWidth s.
Proof.
  unfold evenBottom.
  destruct (find _ _) as [|x l]; [intros [= <-]; auto|].
  destruct (_getColumnHeights _) as [h|]; [|intros [= <-]; auto].
  destruct (gapOf h <=? 500); [intros [= <-]; auto|].
  destruct (Nat.eqb _ 1); [intros [= <-]; auto|].
  destruct (js_ceil_half _); simpl; try (intros [= <-]; auto); try discriminate.
  apply evenLoop_frame.
Qed.

Lemma createColumns_frame (s s' : lace) :
  stateAfter (_createColumns s) = Some s' ->
  settings s' = settings s /\ cache s' = cache s /\ cssWidth s' = cssWidth s.
Proof.
  unfold _createColumns.
  destruct (cols _); simpl; try discriminate; intros [= <-]; auto.
Qed.

Lemma createColumns_cases (s : lace) :
  (exists d, _createColumns s = Ret (setEl s d)) \/ _createColumns s = Hang.
Proof.
  unfold _createColumns. destruct (cols _); eauto.
  - left. exists (el s). now destruct s.
  - left. exists (el s). now destruct s.
Qed.

Lemma reLayout_lastOk (m : metrics) (s s' : lace) :
  stateAfter (_reLayout m s) = Some s' ->
  lastOk (lastColAppended (cache s')).
Proof.
  unfold _reLayout.
  match goal with |- context [_createColumns ?x] =>
    destruct (createColumns_cases x) as [[d ->]| ->] end;
    simpl; [|discriminate].
  intros [= <-]. now apply eachFrom_lastOk.
Qed.

Lemma append_lastOk (items : list item) (s s' : lace) :
  lastOk (lastColAppended (cache s)) ->
  stateAfter (append items s) = Some s' ->
  lastOk (lastColAppended (cache s')).
Proof.
  intros Hok. unfold append.
  destruct items as [|x l]; [now intros [= <-]|].
  destruct (evenBottom s) as [s1|s1|] eqn:E; simpl; try discriminate.
  - intros [= <-]. apply eachFrom_lastOk.
    destruct (evenBottom_frame s s1) as (_ & -> & _); [now rewrite E|exact Hok].
  - intros [= <-].
    destruct (evenBottom_frame s s1) as (_ & -> & _); [now rewrite E|exact Hok].
Qed.

Lemma init_lastOk (m : metrics) (s s' : lace) :
  lastOk (lastColAppended (cache s)) ->
  stateAfter (_init m s) = Some s' ->
  lastOk (lastColAppended (cache s')).
Proof.
  intros Hok. unfold _init.
  destruct (createColumns_cases s) as [[d ->]| ->]; simpl; [|discriminate].
  destruct (bootstrapped (settings s)).
  - match goal with |- context [evenBottom ?x] =>
      assert (Hx : lastOk (lastColAppended (cache x)))
        by (now apply eachFrom_lastOk);
      destruct (evenBottom x) as [s2|s2|] eqn:E
    end; simpl; try discriminate.
    + destruct (evenBottom_frame _ s2 ltac:(rewrite E; reflexivity)) as (_ & Hc & _).
      intros [= <-].
      destruct (centered (settings s2)); simpl;
        destruct (existsb isClearer (el s2)); simpl; now rewrite Hc.
    + destruct (evenBottom_frame _ s2 ltac:(rewrite E; reflexivity)) as (_ & Hc & _).
      intros [= <-]. now rewrite Hc.
  - simpl. intros [= <-].
    destruct (centered (settings s)); simpl;
      destruct (existsb isClearer d); simpl; exact Hok.
Qed.

Lemma reachable_lastOk (s : lace) :
  reachable s -> lastOk (lastColAppended (cache s)).
Proof.
  induction 1 as [o m d s H|items s s' _ IH H|m items s s' _ IH H
                 |s s' _ IH H|m s s' _ IH H|s s' _ IH H].
  - unfold Lace in H. simpl in H.
    eapply init_lastOk; [|rewrite H; reflexivity]. exact I.
  - eapply append_lastOk; eassumption.
  - unfold remove in H. destruct items; [now injection H as <-|].
    eapply reLayout_lastOk; eassumption.
  - unfold removeAll in H. apply createColumns_frame in H.
    destruct H as (_ & -> & _). exact IH.
  - unfold _resize in H. destruct (js_eq _ _); [now injection H as <-|].
    eapply reLayout_lastOk; eassumption.
  - apply evenBottom_frame in H. destruct H as (_ & -> & _). exact IH.
Qed.

Lemma numsFrom_range (items : list item) (i : nat) (s : lace) (c : Z) :
  lastOk (lastColAppended (cache s)) ->
  cols (settings s) = Num c -> 1 <= c ->
  Forall (fun num => exists t, num = Num t /\ 1 <= t <= c) (numsFrom i items s).
Proof.
  revert i s. induction items as [|it rest IH]; intros i s Hok Hcols Hc; simpl.
  - constructor.
  - constructor.
    + rewrite Hcols. now apply targetCol_range.
    + apply IH; simpl; try assumption. now apply targetCol_lastOk.
Qed.

(** C10: on every instance the page can hold, [lastColAppended] is
    never negative; so for a batch placed on such an instance ([append]),
    as for a batch placed with [lastColAppended] cleared (bootstrap and
    relayout), every column number computed lies between 1 and the
    column count, when there is at least one column. *)
Theorem target_within_columns (s : lace) (c : Z) (i : nat) (items : list item) :
  reachable s \/ lastColAppended (cache s) = None ->
  cols (settings s) = Num c -> 1 <= c ->
  lastOk (lastColAppended (cache s))
  /\ Forall (fun num => exists t, num = Num t /\ 1 <= t <= c) (numsFrom i items s).
Proof.
  intros Hr Hcols Hc.
  assert (Hok : lastOk (lastColAppended (cache s))).
  { destruct Hr as [Hr | E]; [now apply reachable_lastOk | now rewrite E]. }
  split; [exact Hok|]. now apply numsFrom_range.
Qed.

Lemma built_reachable (o : options) (m : metrics) (d : dom) (s : lace) :
  built o m d = Some s -> reachable s.
Proof.
  unfold built. intros H. apply (reach_Lace o m d).
  destruct (snd (Lace o m d)); congruence.
Qed.

Lemma target_within_columns_witness :
  exists s,
    built usualOptions wide700 (freshItems 10) = Some s
    /\ cols (settings s) = Num 3
    /\ numsFrom 0 [freshItem 10; freshItem 11; freshItem 12] s = [Num 2; Num 3; Num 1].
Proof.
  destruct (built usualOptions wide700 (freshItems 10)) as [s|] eqn:E;
    [|vm_compute in E; discriminate].
  exists s. split; [reflexivity|].
  assert (Hc : cols (settings s) = Num 3)
    by (vm_compute in E; injection E as <-; reflexivity).
  destruct (target_within_columns s 3 0 [freshItem 10; freshItem 11; freshItem 12]
              (or_introl (built_reachable _ _ _ _ E)) Hc ltac:(lia)) as [_ _].
  split; [exact Hc|].
  vm_compute in E; injection E as <-; reflexivity.
Defined.

(** ** The balancer does nothing on small grids and small gaps *)

Lemma getColumnHeights_none (d : dom) :
  _getColumnHeights d = None <-> columns d = [].
Proof.
  unfold _getColumnHeights. destruct (columns d); split; congruence.
Qed.

(** C8: [evenBottom] leaves the whole instance as it is when fewer than
    two items are in the grid, and when the heights of the highest and
    the shortest column differ by at most 500; with at least one column
    in place the call returns normally. *)
Theorem evenBottom_noop (s : lace) :
  (List.length (find (selector (settings s)) (el s)) < 2)%nat
  \/ (exists h, _getColumnHeights (el s) = Some h /\ gapOf h <= 500) ->
  stateAfter (evenBottom s) = Some s
  /\ (columns (el s) <> [] -> evenBottom s = Ret s).
Proof.
  intros H. unfold evenBottom.
  destruct (find (selector (settings s)) (el s)) as [|x l] eqn:Ef.
  - split; reflexivity.
  - destruct (_getColumnHeights (el s)) as [h|] eqn:Eh.
    + destruct (Z.leb_spec (gapOf h) 500) as [Hg|Hg]; [split; reflexivity|].
      destruct H as [Hlen|(h' & [= <-] & Hle)]; [|lia].
      destruct l as [|y l]; [split; reflexivity|].
      simpl in Hlen. lia.
    + split; [reflexivity|].
      apply getColumnHeights_none in Eh. congruence.
Qed.

Lemma evenBottom_noop_witness :
  let s := {| settings := setCols (merge usualOptions) (Num 2);
              cache := {| cache_cols := Num 2; lastColAppended := Some (Num 2);
                          itemIndex := 2 |};
              el := [Col 1 [mkItem 0 (Some 0) 100]; Col 2 [mkItem 1 (Some 1) 600];
                     Clearer];
              cssWidth := None |} in
  (exists h, _getColumnHeights (el s) = Some h /\ gapOf h <= 500)
  /\ evenBottom s = Ret s.
Proof.
  intros s.
  assert (H : exists h, _getColumnHeights (el s) = Some h /\ gapOf h <= 500).
  { eexists. split; [reflexivity|]. vm_compute. discriminate. }
  split; [exact H|].
  apply (evenBottom_noop s (or_intror H)). simpl. discriminate.
Defined.

(** ** Configuration errors *)

Lemma configErrors_selector (o : options) (m : metrics) (d : dom) :
  o_selector o = Undefined -> In MissingSelector (fst (Lace o m d)).
Proof.
  intros H. unfold Lace, configErrors; simpl. rewrite H; simpl. now left.
Qed.

Lemma configErrors_colWidth (o : options) (m : metrics) (d : dom) :
  o_colWidth o = Undefined -> In MissingColWidth (fst (Lace o m d)).
Proof.
  intros H. unfold Lace, configErrors; simpl. rewrite H; simpl.
  apply in_or_app. right. now left.
Qed.

(** The check [colPadding == null] comes after the defaults are merged
    in, and the default is [0]: leaving [colPadding] out is never
    reported. *)
Lemma configErrors_colPadding (o : options) (m : metrics) (d : dom) :
  In MissingColPadding (fst (Lace o m d)) <-> o_colPadding o = Null.
Proof.
  unfold Lace, configErrors; simpl.
  destruct (o_selector o), (o_colWidth o) as [| |z], (o_colPadding o);
    simpl; try destruct (z =? 0); simpl; split; intros H;
    repeat (destruct H as [H|H]; try discriminate); try contradiction;
    try discriminate; auto.
Qed.

(** C9, at [{selector: '.grid-item', colWidth: 200}]: no error is
    reported although [colPadding] is missing; the grid is built. *)
Theorem missing_colPadding_unreported :
  fst (Lace optionsWithoutPadding wide700 (freshItems 2)) = []
  /\ exists s, snd (Lace optionsWithoutPadding wide700 (freshItems 2)) = Ret s
               /\ colIndices (el s) = [1; 2; 3].
Proof. split; [reflexivity|]. eexists. split; reflexivity. Qed.

(** Without [colWidth] and [colPadding] the division is by zero: in a
    container wider than the window padding the column count is
    [Infinity] and the constructor never returns. *)
Lemma Lace_without_widths :
  Lace noOptions wide700 (freshItems 2) = ([MissingSelector; MissingColWidth], Hang).
Proof. reflexivity. Qed.

(** ** Emptying the grid *)

Lemma countUp_S (n : nat) : countUp (S n) = countUp n ++ [Z.of_nat (S n)].
Proof. unfold countUp. now rewrite seq_S, map_app. Qed.

Lemma prependCols_emptyCols (n : nat) (d : dom) :
  prependCols n d = emptyCols n ++ d.
Proof.
  revert d. induction n as [|n IH]; intros d; [reflexivity|].
  simpl prependCols. rewrite IH. unfold emptyCols.
  rewrite countUp_S, map_app, <- app_assoc. reflexivity.
Qed.

Lemma allItems_app (d1 d2 : dom) : allItems (d1 ++ d2) = allItems d1 ++ allItems d2.
Proof. apply flat_map_app. Qed.

Lemma columns_app (d1 d2 : dom) : columns (d1 ++ d2) = columns d1 ++ columns d2.
Proof. apply flat_map_app. Qed.

Lemma allItems_emptyCols (n : nat) : allItems (emptyCols n) = [].
Proof. unfold emptyCols. induction (countUp n); simpl; auto. Qed.

Lemma columns_emptyCols (n : nat) :
  columns (emptyCols n) = map (fun i => (i, [])) (countUp n).
Proof. unfold emptyCols. induction (countUp n); simpl; congruence. Qed.

Lemma allItems_clearers (d : dom) : allItems (filter isClearer d) = [].
Proof. induction d as [|[i its|it|] d IH]; simpl; auto. Qed.

Lemma columns_clearers (d : dom) : columns (filter isClearer d) = [].
Proof. induction d as [|[i its|it|] d IH]; simpl; auto. Qed.

(** What [removeAll] does achieve: no item is left and [cols] empty
    columns stand; the cache is not touched. *)
Lemma removeAll_empties (s : lace) (c : Z) :
  cols (settings s) = Num c ->
  exists s',
    removeAll s = Ret s'
    /\ allItems (el s') = []
    /\ columns (el s') = map (fun i => (i, [])) (countUp (Z.to_nat c))
    /\ cache s' = cache s.
Proof.
  intros Hc. unfold removeAll, _createColumns. simpl. rewrite Hc.
  eexists. split; [reflexivity|]. simpl.
  rewrite prependCols_emptyCols, allItems_app, columns_app.
  rewrite allItems_emptyCols, allItems_clearers, columns_emptyCols, columns_clearers.
  rewrite !app_nil_r. repeat split.
Qed.

(** C4, on a grid of ten items in three columns: after [removeAll] no
    item is left and three empty columns stand, but the rotation is not
    cleared, and the next item appended goes to column 2. *)
Theorem removeAll_keeps_rotation :
  exists s s1 s2,
    built usualOptions wide700 (freshItems 10) = Some s
    /\ removeAll s = Ret s1
    /\ allItems (el s1) = []
    /\ columns (el s1) = [(1, []); (2, []); (3, [])]
    /\ lastColAppended (cache s1) = Some (Num 1)
    /\ append [freshItem 10] s1 = Ret s2
    /\ columnOf 10 (el s2) = Some 2.
Proof. do 3 eexists. evaluate. Qed.

(** ** Counterexamples *)

(** C7 fails on two columns of heights 100 and 1000: the gap is 900, the
    only item of the highest column goes to the other column, and the
    gap becomes 1100. *)
Lemma evenBottom_widens_gap :
  (2 <= List.length (find (selector (settings lopsided)) (el lopsided)))%nat
  /\ gap (el lopsided) = 900
  /\ exists s',
       evenBottom lopsided = Ret s'
       /\ el s' = [Col 1 [mkItem 0 (Some 0) 100; mkItem 1 (Some 1) 1000];
                   Col 2 []; Clearer]
       /\ gap (el s') = 1100
       /\ ~ gap (el s') <= gap (el lopsided).
Proof.
  split; [simpl; lia|]. split; [reflexivity|].
  eexists. evaluate. vm_compute. intros H. now apply H.
Qed.

(** The grid of that counterexample arises from the constructor and a
    call of [evenBottom]. *)
Lemma lopsided_reachable : reachable lopsided.
Proof.
  destruct (built usualOptions wide500 [Loose (mkItem 0 None 100); Loose (mkItem 1 None 1000)])
    as [s|] eqn:E; [|vm_compute in E; discriminate].
  apply (reach_evenBottom s); [now apply built_reachable in E|].
  vm_compute in E. injection E as <-. reflexivity.
Qed.


(** That grid is the one [remove] hands to the relayout. *)
Lemma afterRemoval_arises :
  exists s,
    built usualOptions wide700 (freshItems 3) = Some s
    /\ setEl s (detachAll [freshItem 0] (el s)) = afterRemoval
    /\ remove wide700 [freshItem 0] s = _reLayout wide700 afterRemoval.
Proof. eexists. evaluate. Qed.

(** ** Moving elements keeps the columns *)

Lemma colIndices_app (d1 d2 : dom) :
  colIndices (d1 ++ d2) = colIndices d1 ++ colIndices d2.
Proof. unfold colIndices. now rewrite columns_app, map_app. Qed.

Lemma colIndices_setSortIndex (id : nat) (v : Z) (d : dom) :
  colIndices (setSortIndex id v d) = colIndices d.
Proof.
  unfold colIndices. induction d as [|[i its|it|] d IH]; simpl; congruence.
Qed.

Lemma colIndices_detach (id : nat) (d : dom) :
  colIndices (detach id d) = colIndices d.
Proof.
  unfold colIndices. induction d as [|[i its|it|] d IH]; simpl; try congruence.
  destruct (isNot id it); simpl; congruence.
Qed.

Lemma colIndices_appendTo (num : jsnum) (it : item) (d : dom) :
  colIndices (appendTo num it d) = colIndices d.
Proof.
  unfold colIndices. induction d as [|[i its|x|] d IH]; simpl; try congruence.
  destruct (selects num i); simpl; congruence.
Qed.

Lemma colIndices_moveTo (num : jsnum) (it : item) (d : dom) :
  colIndices (moveTo num it d) = colIndices d.
Proof.
  unfold moveTo. destruct (hasCol num d); [|reflexivity].
  now rewrite colIndices_appendTo, colIndices_detach.
Qed.

Lemma hasCol_In (t : Z) (d : dom) :
  hasCol (Num t) d = true <-> In t (colIndices d).
Proof.
  unfold hasCol, colIndices.
  induction d as [|[i its|x|] d IH]; simpl; try tauto.
  - split; [discriminate | tauto].
  - rewrite orb_true_iff, IH, Z.eqb_eq. tauto.
Qed.

Lemma In_countUp (t : Z) (n : nat) :
  In t (countUp n) <-> 1 <= t <= Z.of_nat n.
Proof.
  unfold countUp. rewrite in_map_iff. split.
  - intros (k & <- & Hk). apply in_seq in Hk. lia.
  - intros H. exists (Z.to_nat t). split; [lia|]. apply in_seq. lia.
Qed.

Lemma holds_filter_isNot (id : nat) (its : list item) :
  holds id (filter (isNot id) its) = false.
Proof.
  unfold holds. induction its as [|x its IH]; simpl; [reflexivity|].
  unfold isNot at 1. destruct (Nat.eqb (ident x) id) eqn:E; simpl; [exact IH|].
  now rewrite E.
Qed.

Lemma holds_app (id : nat) (l1 l2 : list item) :
  holds id (l1 ++ l2) = holds id l1 || holds id l2.
Proof. apply existsb_app. Qed.

(** Once moved, the element is in the column it was sent to. *)
Lemma columnOf_appendTo_detach (t : Z) (it : item) (d : dom) :
  In t (colIndices d) ->
  columnOf (ident it) (appendTo (Num t) it (detach (ident it) d)) = Some t.
Proof.
  unfold colIndices.
  induction d as [|[i its|x|] d IH]; simpl; intros H; try contradiction.
  - destruct (Z.eqb_spec i t) as [->|Hne]; simpl.
    + rewrite holds_app. simpl. rewrite Nat.eqb_refl, orb_true_r. reflexivity.
    + rewrite holds_filter_isNot. apply IH. destruct H; [contradiction|assumption].
  - destruct (isNot (ident it) x); simpl; now apply IH.
  - now apply IH.
Qed.

Lemma columnOf_moveTo (t : Z) (it : item) (d : dom) :
  In t (colIndices d) -> columnOf (ident it) (moveTo (Num t) it d) = Some t.
Proof.
  intros H. unfold moveTo.
  rewrite (proj2 (hasCol_In t d) H). now apply columnOf_appendTo_detach.
Qed.

(** ** The balancer returns on a grid that has columns *)

Lemma evenStep_some (sel : option string) (d : dom) :
  colIndices d <> [] ->
  exists d', evenStep sel d = Some d' /\ colIndices d' = colIndices d.
Proof.
  intros H. unfold evenStep.
  destruct (_getColumnHeights d) as [h|] eqn:E.
  - destruct sel; [|eauto].
    destruct (rev _); eauto using colIndices_moveTo.
  - apply getColumnHeights_none in E. unfold colIndices in H.
    rewrite E in H. now contradiction H.
Qed.

Lemma evenLoop_ret (n : nat) (s : lace) :
  colIndices (el s) <> [] ->
  exists s', evenLoop n s = Ret s' /\ colIndices (el s') = colIndices (el s).
Proof.
  revert s. induction n as [|n IH]; intros s H; simpl; [eauto|].
  destruct (evenStep_some (selector (settings s)) (el s) H) as (d' & -> & Hd').
  destruct (IH (setEl s d')) as (s' & Hs' & Hi); [simpl; congruence|].
  exists s'. split; [exact Hs'|]. simpl in Hi. congruence.
Qed.

Lemma evenBottom_ret (s : lace) :
  colIndices (el s) <> [] -> cache_cols (cache s) <> PInf ->
  exists s',
    evenBottom s = Ret s'
    /\ colIndices (el s') = colIndices (el s)
    /\ settings s' = settings s /\ cache s' = cache s /\ cssWidth s' = cssWidth s.
Proof.
  intros Hcols Hfin.
  assert (H : exists s', evenBottom s = Ret s' /\ colIndices (el s') = colIndices (el s)).
  { unfold evenBottom.
    destruct (find _ _) as [|x l]; [eauto|].
    destruct (_getColumnHeights (el s)) as [h|] eqn:E.
    - destruct (gapOf h <=? 500); [eauto|].
      destruct (Nat.eqb _ 1); [eauto|].
      destruct (cache_cols (cache s)) as [k| | |]; simpl; eauto.
      + now apply evenLoop_ret.
      + congruence.
    - apply getColumnHeights_none in E. unfold colIndices in Hcols.
      rewrite E in Hcols. now contradiction Hcols. }
  destruct H as (s' & Hs' & Hi). exists s'. split; [exact Hs'|]. split; [exact Hi|].
  apply evenBottom_frame. now rewrite Hs'.
Qed.

Lemma countUp_not_nil (c : Z) : 1 <= c -> countUp (Z.to_nat c) <> [].
Proof.
  intros Hc H.
  assert (Hin : In 1 (countUp (Z.to_nat c))) by (apply In_countUp; lia).
  rewrite H in Hin. exact Hin.
Qed.

Lemma evenBottom_laid (c : Z) (s : lace) :
  laid c s -> 1 <= c ->
  exists s',
    evenBottom s = Ret s' /\ laid c s'
    /\ settings s' = settings s /\ cache s' = cache s /\ cssWidth s' = cssWidth s.
Proof.
  intros (Hs & Hc & Hi) Hpos.
  destruct (evenBottom_ret s) as (s' & Hret & Hi' & Hst & Hca & Hcss).
  - rewrite Hi. now apply countUp_not_nil.
  - congruence.
  - exists s'. repeat split; try assumption; congruence.
Qed.

(** ** One item appended *)

Lemma moveItem_laid (c : Z) (i : nat) (it : item) (s : lace) :
  laid c s -> laid c (moveItem i it s).
Proof.
  intros (Hs & Hc & Hi). repeat split; simpl; try assumption.
  now rewrite colIndices_moveTo, colIndices_setSortIndex.
Qed.

Lemma moveItem_lands (c t : Z) (i : nat) (it : item) (s : lace) :
  laid c s -> 1 <= c ->
  targetCol (lastColAppended (cache s)) (Num c) i = Num t -> 1 <= t <= c ->
  lastColAppended (cache (moveItem i it s)) = Some (Num t)
  /\ columnOf (ident it) (el (moveItem i it s)) = Some t.
Proof.
  intros (Hs & Hc & Hi) Hpos Ht Hrange. simpl. rewrite Hs, Ht.
  split; [reflexivity|].
  apply (columnOf_moveTo t (withIndex (itemIndex (cache s)) it)).
  rewrite colIndices_setSortIndex, Hi. apply In_countUp. lia.
Qed.

Lemma append_one (c : Z) (x : item) (s : lace) :
  laid c s -> 1 <= c -> lastOk (lastColAppended (cache s)) ->
  exists s' t,
    append [x] s = Ret s'
    /\ laid c s'
    /\ targetCol (lastColAppended (cache s)) (Num c) 0 = Num t
    /\ 1 <= t <= c
    /\ lastColAppended (cache s') = Some (Num t)
    /\ columnOf (ident x) (el s') = Some t.
Proof.
  intros Hl Hpos Hok.
  destruct (evenBottom_laid c s Hl Hpos) as (s1 & Hret & Hl1 & _ & Hca & _).
  destruct (targetCol_range (lastColAppended (cache s)) c 0 Hok Hpos) as (t & Ht & Hr).
  exists (moveItem 0 x s1), t. unfold append. rewrite Hret. simpl bind.
  split; [reflexivity|]. split; [now apply moveItem_laid|].
  split; [exact Ht|]. split; [exact Hr|].
  apply (moveItem_lands c t 0 x s1 Hl1 Hpos); [|exact Hr]. now rewrite Hca.
Qed.

Lemma landings_rotation (c : Z) (items : list item) (s : lace) (l : Z) :
  1 <= c -> laid c s ->
  (lastColAppended (cache s) = Some (Num l) /\ 1 <= l)
  \/ (lastColAppended (cache s) = None /\ l = 0) ->
  landings items s = map Some (rotation c l (List.length items)).
Proof.
  intros Hpos. revert s l.
  induction items as [|x rest IH]; intros s l Hl Hlast; [reflexivity|].
  assert (Hok : lastOk (lastColAppended (cache s)))
    by (destruct Hlast as [[-> H]|[-> _]]; simpl; lia).
  destruct (append_one c x s Hl Hpos Hok)
    as (s' & t & Happ & Hl' & Ht & Hr & Hlast' & Hcol).
  assert (Et : t = l mod c + 1).
  { destruct Hlast as [[E H]|[E ->]]; rewrite E in Ht.
    - rewrite targetCol_next in Ht by assumption. congruence.
    - rewrite targetCol_fresh in Ht by assumption. now injection Ht as <-. }
  cbn [landings List.length rotation map]. rewrite Happ, Hcol, <- Et. f_equal.
  apply IH; [exact Hl'|]. left. split; [exact Hlast'|lia].
Qed.

Lemma numsFrom_rotation (c : Z) (items : list item) (i : nat) (s : lace) (l : Z) :
  1 <= c -> cols (settings s) = Num c ->
  (lastColAppended (cache s) = Some (Num l) /\ 1 <= l)
  \/ (lastColAppended (cache s) = None /\ i = 0%nat /\ l = 0) ->
  numsFrom i items s = map Num (rotation c l (List.length items)).
Proof.
  intros Hpos. revert i s l.
  induction items as [|x rest IH]; intros i s l Hcols Hlast; [reflexivity|].
  cbn [numsFrom List.length rotation map]. rewrite Hcols.
  assert (Et : targetCol (lastColAppended (cache s)) (Num c) i = Num (l mod c + 1)).
  { destruct Hlast as [[E H]|[E [-> ->]]]; rewrite E.
    - now apply targetCol_next.
    - now rewrite targetCol_fresh. }
  rewrite Et. f_equal. apply IH; [exact Hcols|].
  left. simpl. rewrite Hcols, Et. split; [reflexivity|].
  pose proof (Z.mod_pos_bound l c). lia.
Qed.

(** C1: with [c >= 1] columns the first item of a session goes to
    column [(position mod c) + 1] and every later item to column
    [(lastColAppended mod c) + 1]; so a batch is dealt out in rotation,
    items appended one call at a time continue the rotation from one
    call to the next, and with three columns six such items land in the
    columns 1, 2, 3, 1, 2, 3. *)
Theorem round_robin (c : Z) (s : lace) :
  1 <= c -> laid c s ->
  (forall i, targetCol None (Num c) i = Num (Z.of_nat i mod c + 1))
  /\ (forall l i, 1 <= l ->
        targetCol (Some (Num l)) (Num c) i = Num (l mod c + 1))
  /\ (forall items,
        lastColAppended (cache s) = None ->
        numsFrom 0 items s = map Num (rotation c 0 (List.length items)))
  /\ (forall l items,
        lastColAppended (cache s) = Some (Num l) -> 1 <= l ->
        landings items s = map Some (rotation c l (List.length items)))
  /\ (forall items,
        lastColAppended (cache s) = None ->
        landings items s = map Some (rotation c 0 (List.length items)))
  /\ (forall x1 x2 x3 x4 x5 x6,
        c = 3 -> lastColAppended (cache s) = None ->
        landings [x1; x2; x3; x4; x5; x6] s
        = [Some 1; Some 2; Some 3; Some 1; Some 2; Some 3]).
Proof.
  intros Hpos Hl.
  split; [intros i; now apply targetCol_fresh|].
  split; [intros l i Hl1; now apply targetCol_next|].
  split; [intros items E; apply numsFrom_rotation; [exact Hpos|apply Hl|auto]|].
  split; [intros l items E Hl1; apply landings_rotation; auto|].
  split; [intros items E; apply landings_rotation; auto|].
  intros x1 x2 x3 x4 x5 x6 -> E.
  rewrite (landings_rotation 3 _ s 0); auto.
Qed.

Lemma emptyGrid_built : built usualOptions wide700 [] = Some emptyGrid.
Proof. reflexivity. Qed.

Lemma round_robin_witness :
  laid 3 emptyGrid
  /\ landings [freshItem 0; freshItem 1; freshItem 2;
               freshItem 3; freshItem 4; freshItem 5] emptyGrid
     = [Some 1; Some 2; Some 3; Some 1; Some 2; Some 3].
Proof.
  assert (H : laid 3 emptyGrid) by (repeat split).
  split; [exact H|].
  assert (H3 : 1 <= 3) by lia.
  destruct (round_robin 3 emptyGrid H3 H) as (_ & _ & _ & _ & _ & H6).
  apply H6; reflexivity.
Defined.

(** ** The sort *)

Section Sort.
Context {A : Type}.
Variable key : A -> option Z.

Lemma keyLt_asym (x y : A) : keyLt key x y -> keyLt key y x -> False.
Proof.
  intros (a & b & Ha & Hb & Hab) (b' & a' & Hb' & Ha' & Hba).
  rewrite Ha in Ha'. rewrite Hb in Hb'.
  injection Ha' as <-. injection Hb' as <-. lia.
Qed.

Lemma keyLt_trans (x y z : A) : keyLt key x y -> keyLt key y z -> keyLt key x z.
Proof.
  intros (a & b & Ha & Hb & Hab) (b' & c & Hb' & Hc & Hbc).
  rewrite Hb in Hb'. injection Hb' as <-.
  exists a, c. repeat split; try assumption. lia.
Qed.

Lemma keyLt_compare (x y : A) :
  keyLt key x y -> (0 <? compareIndex (key x) (key y)) = false.
Proof.
  intros (a & b & -> & -> & Hab). simpl.
  destruct (Z.ltb_spec b a); [lia|].
  destruct (Z.ltb_spec a b); reflexivity.
Qed.

Lemma keyGt_compare (x y : A) :
  keyLt key y x -> (0 <? compareIndex (key x) (key y)) = true.
Proof.
  intros (b & a & -> & -> & Hab). simpl.
  destruct (Z.ltb_spec b a); [reflexivity|lia].
Qed.

Lemma insertByIndex_perm (x : A) (l : list A) :
  Permutation (insertByIndex key x l) (x :: l).
Proof.
  induction l as [|y l IH]; simpl; [reflexivity|].
  destruct (0 <? _); [|reflexivity].
  rewrite IH. apply perm_swap.
Qed.

Lemma sort_perm (l : list A) : Permutation (_sortItemsByIndex key l) l.
Proof.
  induction l as [|x l IH]; simpl; [reflexivity|].
  now rewrite insertByIndex_perm, IH.
Qed.

Lemma sort_length (l : list A) :
  List.length (_sortItemsByIndex key l) = List.length l.
Proof. apply Permutation_length, sort_perm. Qed.

(** A list already in strict order is left as it is. *)
Lemma insertByIndex_first (x : A) (l : list A) :
  Forall (keyLt key x) l -> insertByIndex key x l = x :: l.
Proof.
  destruct l as [|y l]; simpl; [reflexivity|].
  intros H. inversion_clear H as [|? ? Hy _].
  now rewrite keyLt_compare.
Qed.

Lemma sort_sorted_id (l : list A) :
  StronglySorted (keyLt key) l -> _sortItemsByIndex key l = l.
Proof.
  induction 1 as [|x l Hs IH Hx]; simpl; [reflexivity|].
  rewrite IH. now apply insertByIndex_first.
Qed.

(** Inserting an element that compares strictly with all the others
    keeps a strict order. *)
Lemma insertByIndex_sorted (x : A) (l : list A) :
  StronglySorted (keyLt key) l ->
  Forall (fun y => keyLt key x y \/ keyLt key y x) l ->
  StronglySorted (keyLt key) (insertByIndex key x l).
Proof.
  induction 1 as [|y l Hs IH Hy]; intros Hcmp; simpl.
  - repeat constructor.
  - inversion_clear Hcmp as [|? ? [Hxy|Hyx] Hrest].
    + rewrite keyLt_compare by assumption.
      constructor; [now constructor|].
      constructor; [assumption|].
      eapply Forall_impl; [|exact Hy]. intros z. now apply keyLt_trans.
    + rewrite keyGt_compare by assumption.
      constructor; [now apply IH|].
      rewrite insertByIndex_perm. now constructor.
Qed.

(** Two lists in strict order with the same elements are equal. *)
Lemma sorted_perm_eq (l1 l2 : list A) :
  StronglySorted (keyLt key) l1 -> StronglySorted (keyLt key) l2 ->
  Permutation l1 l2 -> l1 = l2.
Proof.
  intros H1. revert l2.
  induction H1 as [|x l1 Hs1 IH Hx]; intros l2 H2 Hp.
  - apply Permutation_nil in Hp. now subst.
  - destruct H2 as [|y l2 Hs2 Hy].
    + apply Permutation_sym, Permutation_nil in Hp. discriminate.
    + assert (E : x = y).
      { assert (Hin1 : In x (y :: l2))
          by (eapply Permutation_in; [exact Hp|now left]).
        assert (Hin2 : In y (x :: l1))
          by (eapply Permutation_in; [symmetry; exact Hp|now left]).
        destruct Hin1 as [E|Hin1]; [now symmetry|].
        destruct Hin2 as [E|Hin2]; [assumption|].
        rewrite Forall_forall in Hx, Hy.
        exfalso. exact (keyLt_asym x y (Hx _ Hin2) (Hy _ Hin1)). }
      subst y. f_equal. apply IH; [assumption|].
      eapply Permutation_cons_inv; exact Hp.
Qed.

Lemma sorted_comparable (l : list A) :
  StronglySorted (keyLt key) l ->
  NoDup l
  /\ forall x y, In x l -> In y l -> x = y \/ keyLt key x y \/ keyLt key y x.
Proof.
  induction 1 as [|x l Hs [IHn IHc] Hx]; [split; [constructor|intros ? ? []]|].
  rewrite Forall_forall in Hx. split.
  - constructor; [|assumption]. intros Hin.
    exact (keyLt_asym x x (Hx _ Hin) (Hx _ Hin)).
  - intros a b [<-|Ha] [<-|Hb]; auto.
Qed.

Lemma sort_sorted (l : list A) :
  NoDup l ->
  (forall x y, In x l -> In y l -> x = y \/ keyLt key x y \/ keyLt key y x) ->
  StronglySorted (keyLt key) (_sortItemsByIndex key l).
Proof.
  induction 1 as [|x l Hnin Hnd IH]; intros Hcmp; simpl; [constructor|].
  apply insertByIndex_sorted.
  - apply IH. intros a b Ha Hb. apply Hcmp; now right.
  - rewrite Forall_forall. intros y Hy.
    apply (Permutation_in _ (sort_perm l)) in Hy.
    destruct (Hcmp x y) as [E|H]; [now left|now right| |exact H].
    subst y. contradiction.
Qed.

(** The sort of a list whose elements can be put in strict order is
    that order. *)
Lemma sort_unique (l l' : list A) :
  StronglySorted (keyLt key) l' -> Permutation l l' ->
  _sortItemsByIndex key l = l'.
Proof.
  intros Hs Hp.
  destruct (sorted_comparable l' Hs) as [Hnd Hcmp].
  apply sorted_perm_eq; [|assumption|now rewrite sort_perm].
  apply sort_sorted.
  - eapply Permutation_NoDup; [symmetry; exact Hp|exact Hnd].
  - intros x y Hx Hy. apply Hcmp; eapply Permutation_in; eauto.
Qed.
End Sort.

(** The order in which the sort leaves the elements. *)
Section SortOrder.
Context {A : Type}.
Variable key : A -> option Z.

Lemma insertByIndex_hasKey (v : Z) (x : A) (l : list A) :
  filter (hasKey key v) (insertByIndex key x l)
  = filter (hasKey key v) (x :: l).
Proof.
  induction l as [|y l IH]; [reflexivity|].
  cbn [insertByIndex].
  destruct (0 <? compareIndex (key x) (key y)) eqn:E; [|reflexivity].
  cbn [filter] in *. rewrite IH.
  destruct (hasKey key v x) eqn:Ex, (hasKey key v y) eqn:Ey; try reflexivity.
  exfalso. unfold hasKey, compareIndex in *.
  destruct (key x) as [a|], (key y) as [b|]; try discriminate.
  apply Z.eqb_eq in Ex, Ey. subst.
  rewrite Z.ltb_irrefl in E. discriminate.
Qed.

Lemma sort_hasKey (v : Z) (l : list A) :
  filter (hasKey key v) (_sortItemsByIndex key l) = filter (hasKey key v) l.
Proof.
  induction l as [|x l IH]; [reflexivity|].
  cbn [_sortItemsByIndex fold_right].
  rewrite insertByIndex_hasKey. cbn [filter].
  change (fold_right (insertByIndex key) [] l) with (_sortItemsByIndex key l).
  now rewrite IH.
Qed.

Lemma insertByIndex_keyLe (x : A) (l : list A) :
  key x <> None -> Forall (fun y => key y <> None) l ->
  StronglySorted (keyLe key) l ->
  StronglySorted (keyLe key) (insertByIndex key x l).
Proof.
  intros Hx Hl Hs. induction Hs as [|y l Hs IH Hy].
  - repeat constructor.
  - cbn [insertByIndex]. inversion Hl as [|? ? Hky Hl']; subst.
    destruct (key x) as [a|] eqn:Ea; [|contradiction].
    destruct (key y) as [b|] eqn:Eb; [|contradiction].
    unfold compareIndex.
    destruct (b <? a) eqn:E.
    + simpl. constructor; [now apply IH|].
      apply (Permutation_Forall (Permutation_sym (insertByIndex_perm key x l))).
      constructor; [|exact Hy].
      exists b, a. repeat split; try assumption. apply Z.ltb_lt in E. lia.
    + assert (Hab : a <= b) by (apply Z.ltb_ge in E; exact E).
      assert (E0 : (0 <? (if a <? b then -1 else 0)) = false)
        by (destruct (a <? b); reflexivity).
      rewrite E0. constructor; [now constructor|].
      constructor; [exists a, b; auto|].
      eapply Forall_impl; [|exact Hy].
      intros z (b' & cz & Hb' & Hz & Hle). exists a, cz.
      rewrite Eb in Hb'. injection Hb' as <-. repeat split; auto. lia.
Qed.

Lemma sort_keyLe (l : list A) :
  Forall (fun y => key y <> None) l ->
  StronglySorted (keyLe key) (_sortItemsByIndex key l).
Proof.
  induction 1 as [|x l Hx Hl IH]; [constructor|].
  cbn [_sortItemsByIndex fold_right].
  apply insertByIndex_keyLe; [exact Hx| |exact IH].
  apply (Permutation_Forall (Permutation_sym (sort_perm key l))). exact Hl.
Qed.

End SortOrder.

(** ** Elements, columns and the rest of the container *)

Lemma detach_app (id : nat) (d1 d2 : dom) :
  detach id (d1 ++ d2) = detach id d1 ++ detach id d2.
Proof. apply flat_map_app. Qed.

Lemma setSortIndex_app (id : nat) (v : Z) (d1 d2 : dom) :
  setSortIndex id v (d1 ++ d2) = setSortIndex id v d1 ++ setSortIndex id v d2.
Proof. apply map_app. Qed.

Lemma appendTo_app (num : jsnum) (it : item) (d1 d2 : dom) :
  appendTo num it (d1 ++ d2) = appendTo num it d1 ++ appendTo num it d2.
Proof. apply map_app. Qed.

Lemma filter_isNot_absent (id : nat) (its : list item) :
  ~ In id (map ident its) -> filter (isNot id) its = its.
Proof.
  induction its as [|x its IH]; simpl; intros H; [reflexivity|].
  unfold isNot at 1. destruct (Nat.eqb_spec (ident x) id) as [E|E]; simpl.
  - exfalso. apply H. now left.
  - f_equal. apply IH. intros Hin. apply H. now right.
Qed.

Lemma map_attrItem_absent (id : nat) (v : Z) (its : list item) :
  ~ In id (map ident its) -> map (attrItem id v) its = its.
Proof.
  induction its as [|x its IH]; simpl; intros H; [reflexivity|].
  unfold attrItem at 1. destruct (Nat.eqb_spec (ident x) id) as [E|E].
  - exfalso. apply H. now left.
  - f_equal. apply IH. intros Hin. apply H. now right.
Qed.

Lemma detach_absent (id : nat) (d : dom) :
  ~ In id (idsOf d) -> detach id d = d.
Proof.
  unfold idsOf.
  induction d as [|[i its|x|] d IH]; simpl; intros H; [reflexivity| | |].
  - rewrite map_app in H. rewrite filter_isNot_absent, IH; auto using in_or_app.
  - unfold isNot. destruct (Nat.eqb_spec (ident x) id) as [E|E]; simpl.
    + exfalso. apply H. now left.
    + rewrite IH; auto.
  - now rewrite IH.
Qed.

Lemma setSortIndex_absent (id : nat) (v : Z) (d : dom) :
  ~ In id (idsOf d) -> setSortIndex id v d = d.
Proof.
  unfold idsOf.
  induction d as [|[i its|x|] d IH]; simpl; intros H; [reflexivity| | |].
  - rewrite map_app in H. rewrite map_attrItem_absent, IH; auto using in_or_app.
  - unfold attrItem. destruct (Nat.eqb_spec (ident x) id) as [E|E]; simpl.
    + exfalso. apply H. now left.
    + rewrite IH; auto.
  - now rewrite IH.
Qed.

Lemma isNot_attrItem (id : nat) (v : Z) (x : item) :
  isNot id (attrItem id v x) = isNot id x
  /\ (isNot id x = true -> attrItem id v x = x).
Proof.
  unfold attrItem, isNot.
  destruct (Nat.eqb (ident x) id) eqn:E; simpl; [|rewrite E]; split;
    try reflexivity; try discriminate.
  now rewrite E.
Qed.

Lemma filter_isNot_attrItem (id : nat) (v : Z) (its : list item) :
  filter (isNot id) (map (attrItem id v) its) = filter (isNot id) its.
Proof.
  induction its as [|x its IH]; simpl; [reflexivity|].
  destruct (isNot_attrItem id v x) as [-> H].
  destruct (isNot id x); [|exact IH].
  rewrite H by reflexivity. now rewrite IH.
Qed.

Lemma detach_setSortIndex (id : nat) (v : Z) (d : dom) :
  detach id (setSortIndex id v d) = detach id d.
Proof.
  induction d as [|[i its|x|] d IH]; simpl; [reflexivity| | |].
  - now rewrite filter_isNot_attrItem, IH.
  - destruct (isNot_attrItem id v x) as [-> H].
    destruct (isNot id x); [rewrite H by reflexivity|]; now rewrite IH.
  - now rewrite IH.
Qed.

Lemma appendTo_no_columns (num : jsnum) (it : item) (d : dom) :
  colIndices d = [] -> appendTo num it d = d.
Proof.
  unfold colIndices.
  induction d as [|[i its|x|] d IH]; simpl; intros H; try discriminate;
    try reflexivity; now rewrite IH.
Qed.

Lemma hasCol_app (num : jsnum) (d1 d2 : dom) :
  hasCol num (d1 ++ d2) = hasCol num d1 || hasCol num d2.
Proof. apply existsb_app. Qed.

Lemma clearers_detach (id : nat) (d : dom) :
  filter isClearer (detach id d) = filter isClearer d.
Proof.
  induction d as [|[i its|x|] d IH]; simpl; try congruence.
  destruct (isNot id x); simpl; congruence.
Qed.

Lemma allItems_detach (id : nat) (d : dom) :
  allItems (detach id d) = filter (isNot id) (allItems d).
Proof.
  unfold allItems.
  induction d as [|[i its|x|] d IH]; simpl; [reflexivity| | |].
  - now rewrite filter_app, IH.
  - destruct (isNot id x); simpl; now rewrite IH.
  - exact IH.
Qed.

(** With every element taken out, a container without columns is left
    with its clearers. *)
Lemma detachAll_clearers (items : list item) (d : dom) :
  colIndices d = [] ->
  (forall it, In it (allItems d) -> In (ident it) (map ident items)) ->
  detachAll items d = filter isClearer d.
Proof.
  revert d. induction items as [|x items IH]; intros d Hcol Hall; simpl.
  - unfold colIndices in Hcol.
    induction d as [|[i its|y|] d IHd]; simpl in *; try discriminate; try reflexivity.
    + exfalso. apply (Hall y). now left.
    + f_equal. apply IHd; assumption.
  - unfold detachAll in IH. rewrite IH.
    + apply clearers_detach.
    + now rewrite colIndices_detach.
    + intros it Hin. rewrite allItems_detach in Hin.
      apply filter_In in Hin. destruct Hin as [Hin Hne].
      destruct (Hall it Hin) as [E|H]; [|exact H].
      unfold isNot in Hne. rewrite <- E, Nat.eqb_refl in Hne. discriminate.
Qed.

Lemma idsOf_appendTo_incl (num : jsnum) (it : item) (d : dom) (id : nat) :
  In id (idsOf (appendTo num it d)) -> id = ident it \/ In id (idsOf d).
Proof.
  unfold idsOf.
  induction d as [|[i its|x|] d IH]; simpl; [tauto| | |].
  - destruct (selects num i); simpl; rewrite !map_app, !in_app_iff.
    + simpl. intros [[H|[H|[]]]|H]; auto. apply IH in H. tauto.
    + intros [H|H]; auto. apply IH in H. tauto.
  - intros [H|H]; auto. apply IH in H. tauto.
  - exact IH.
Qed.

(** ** [_moveItemsIntoCols] in closed form *)

Lemma moveItem_el (c : Z) (i : nat) (x : item) (s : lace) (C R : dom) :
  el s = C ++ R ->
  cols (settings s) = Num c -> 1 <= c ->
  colIndices C = countUp (Z.to_nat c) -> colIndices R = [] ->
  lastOk (lastColAppended (cache s)) ->
  ~ In (ident x) (idsOf C) ->
  el (moveItem i x s)
  = appendTo (targetCol (lastColAppended (cache s)) (Num c) i)
      (withIndex (itemIndex (cache s)) x) C
    ++ detach (ident x) R.
Proof.
  intros Hel Hcols Hc HC HR Hok Hfresh. simpl. rewrite Hel, Hcols.
  destruct (targetCol_range (lastColAppended (cache s)) c i Hok Hc) as (t & -> & Ht).
  rewrite setSortIndex_app, (setSortIndex_absent _ _ C Hfresh).
  unfold moveTo. rewrite hasCol_app.
  rewrite (proj2 (hasCol_In t C)) by (rewrite HC; apply In_countUp; lia).
  simpl. rewrite detach_app, (detach_absent _ C Hfresh), detach_setSortIndex.
  rewrite appendTo_app. f_equal.
  apply appendTo_no_columns. now rewrite colIndices_detach.
Qed.

Lemma eachFrom_el (c : Z) (items : list item) (i : nat) (s : lace) (C R : dom) :
  el s = C ++ R ->
  cols (settings s) = Num c -> 1 <= c ->
  colIndices C = countUp (Z.to_nat c) -> colIndices R = [] ->
  lastOk (lastColAppended (cache s)) ->
  NoDup (map ident items) ->
  (forall x, In x items -> ~ In (ident x) (idsOf C)) ->
  el (eachFrom i items s)
  = placeFrom (Num c) (itemIndex (cache s)) (lastColAppended (cache s)) i items C
    ++ detachAll items R.
Proof.
  revert i s C R.
  induction items as [|x rest IH]; intros i s C R Hel Hcols Hc HC HR Hok Hnd Hfresh.
  - exact Hel.
  - simpl map in Hnd. apply NoDup_cons_iff in Hnd. destruct Hnd as [Hx Hrest].
    cbn [eachFrom placeFrom detachAll fold_left].
    rewrite (IH (S i) (moveItem i x s)
               (appendTo (targetCol (lastColAppended (cache s)) (Num c) i)
                  (withIndex (itemIndex (cache s)) x) C)
               (detach (ident x) R)); [simpl; now rewrite Hcols| | | | | | | |].
    + apply (moveItem_el c); auto. apply Hfresh. now left.
    + exact Hcols.
    + exact Hc.
    + now rewrite colIndices_appendTo.
    + now rewrite colIndices_detach.
    + simpl. now apply targetCol_lastOk.
    + exact Hrest.
    + intros y Hy Hin. apply idsOf_appendTo_incl in Hin. simpl in Hin.
      destruct Hin as [E|Hin].
      * apply Hx. rewrite <- E. now apply in_map.
      * apply (Hfresh y); [now right|exact Hin].
Qed.

Lemma eachFrom_cache (items : list item) (i : nat) (s : lace) :
  cache (eachFrom i items s)
  = cacheFrom (cols (settings s)) i (List.length items) (cache s).
Proof.
  revert i s. induction items as [|x rest IH]; intros i s; [reflexivity|].
  cbn [eachFrom List.length cacheFrom]. now rewrite IH.
Qed.

Lemma eachFrom_cssWidth (items : list item) (i : nat) (s : lace) :
  cssWidth (eachFrom i items s) = cssWidth s.
Proof.
  revert i s. induction items as [|x rest IH]; intros i s; [reflexivity|].
  cbn [eachFrom]. now rewrite IH.
Qed.

Lemma lace_ext (s1 s2 : lace) :
  settings s1 = settings s2 -> cache s1 = cache s2 ->
  el s1 = el s2 -> cssWidth s1 = cssWidth s2 -> s1 = s2.
Proof. destruct s1, s2; simpl; congruence. Qed.

(** ** Relayout in closed form *)

Lemma notCol_detach (id : nat) (d : dom) :
  filter notCol (detach id d) = detach id (filter notCol d).
Proof.
  induction d as [|[i its|x|] d IH]; simpl; try congruence.
  destruct (isNot id x); simpl; congruence.
Qed.

Lemma notCol_detachAll (items : list item) (d : dom) :
  filter notCol (detachAll items d) = detachAll items (filter notCol d).
Proof.
  revert d. induction items as [|x items IH]; intros d; [reflexivity|].
  simpl. unfold detachAll in IH. now rewrite IH, notCol_detach.
Qed.

Lemma notCol_Loose (l : list item) : filter notCol (map Loose l) = map Loose l.
Proof. induction l; simpl; congruence. Qed.

Lemma notCol_emptyCols (n : nat) (d : dom) :
  filter notCol (emptyCols n ++ d) = filter notCol d.
Proof. unfold emptyCols. induction (countUp n); simpl; auto. Qed.

Lemma notCol_no_columns (d : dom) : colIndices d = [] -> filter notCol d = d.
Proof.
  unfold colIndices.
  induction d as [|[i its|x|] d IH]; simpl; intros H; try discriminate;
    try reflexivity; now rewrite IH.
Qed.

Lemma colIndices_notCol (d : dom) : colIndices (filter notCol d) = [].
Proof. unfold colIndices. induction d as [|[i its|x|] d IH]; simpl; auto. Qed.

Lemma colIndices_clearers (d : dom) : colIndices (filter isClearer d) = [].
Proof. unfold colIndices. now rewrite columns_clearers. Qed.

Lemma colIndices_Loose (l : list item) : colIndices (map Loose l) = [].
Proof. unfold colIndices. induction l; simpl; auto. Qed.

Lemma colIndices_emptyCols (n : nat) : colIndices (emptyCols n) = countUp n.
Proof.
  unfold colIndices. rewrite columns_emptyCols, map_map. simpl. apply map_id.
Qed.

Lemma allItems_notCol_incl (d : dom) (it : item) :
  In it (allItems (filter notCol d)) -> In it (allItems d).
Proof.
  unfold allItems.
  induction d as [|[i its|x|] d IH]; simpl; auto.
  - intros H. apply in_or_app. right. auto.
  - intros [H|H]; auto.
Qed.

Lemma clearers_notCol (d : dom) :
  filter isClearer (filter notCol d) = filter isClearer d.
Proof. induction d as [|[i its|x|] d IH]; simpl; congruence. Qed.

Lemma clearers_Loose (l : list item) : filter isClearer (map Loose l) = [].
Proof. induction l; simpl; auto. Qed.

Lemma clearers_idem (d : dom) :
  filter isClearer (filter isClearer d) = filter isClearer d.
Proof. induction d as [|[i its|x|] d IH]; simpl; congruence. Qed.

Lemma allItems_Loose (l : list item) : allItems (map Loose l) = l.
Proof. unfold allItems. induction l; simpl; congruence. Qed.

(** The first steps of the relayout: the items leave their places, the
    columns go, and what stays is the clearers followed by the items in
    document order. *)
Lemma reLayout_extract (d : dom) :
  filter notCol (detachAll (allItems d) d ++ map Loose (allItems d))
  = filter isClearer d ++ map Loose (allItems d).
Proof.
  rewrite filter_app, notCol_Loose, notCol_detachAll. f_equal.
  rewrite detachAll_clearers.
  - apply clearers_notCol.
  - apply colIndices_notCol.
  - intros it H. apply in_map. now apply allItems_notCol_incl.
Qed.

(** The state a relayout returns, when there is a selector and at least
    one column: the sorted items, numbered from 0, dealt out over fresh
    columns, followed by the clearers. *)
Lemma reLayout_closed (m : metrics) (s : lace) (c : Z) :
  selector (settings s) <> None ->
  cols (settings s) = Num c -> 1 <= c ->
  NoDup (idsOf (el s)) ->
  exists s',
    _reLayout m s = Ret s'
    /\ settings s' = settings s
    /\ cache s'
       = cacheFrom (Num c) 0 (List.length (allItems (el s))) (resetCache (cache s))
    /\ el s'
       = placeFrom (Num c) 0 None 0
           (_sortItemsByIndex sortIndex (allItems (el s)))
           (emptyCols (Z.to_nat c))
         ++ filter isClearer (el s)
    /\ cssWidth s'
       = if centered (settings s)
         then css_width (_getContainerWidth (settings s) m) (cssWidth s)
         else cssWidth s.
Proof.
  intros Hsel Hcols Hc Hnd.
  destruct (selector (settings s)) as [sel|] eqn:Esel; [clear Hsel|congruence].
  unfold _reLayout. rewrite Esel. cbn [find].
  rewrite reLayout_extract.
  set (found := allItems (el s)) in *.
  set (R := filter isClearer (el s) ++ map Loose found).
  set (L := _sortItemsByIndex sortIndex found).
  assert (HfoundR : allItems R = found).
  { unfold R. now rewrite allItems_app, allItems_clearers, allItems_Loose. }
  assert (HcolR : colIndices R = []).
  { unfold R. now rewrite colIndices_app, colIndices_clearers, colIndices_Loose. }
  assert (HL : Permutation L found) by apply sort_perm.
  assert (HndL : NoDup (map ident L)).
  { eapply Permutation_NoDup; [|exact Hnd].
    symmetry. unfold idsOf. fold found. now apply Permutation_map. }
  assert (HdetachR : detachAll L R = filter isClearer (el s)).
  { rewrite detachAll_clearers; [|exact HcolR|].
    - unfold R. now rewrite filter_app, clearers_idem, clearers_Loose, app_nil_r.
    - intros it Hin. rewrite HfoundR in Hin. apply in_map.
      eapply Permutation_in; [symmetry; exact HL|exact Hin]. }
  assert (Hnone : forall x, In x L -> ~ In (ident x) (idsOf (emptyCols (Z.to_nat c)))).
  { intros x _. unfold idsOf. now rewrite allItems_emptyCols. }
  assert (Hfind : allItems (emptyCols (Z.to_nat c) ++ R) = found).
  { now rewrite allItems_app, allItems_emptyCols. }
  match goal with |- context [_createColumns ?x] => set (s3 := x) end.
  assert (Hs3 : settings s3 = settings s /\ cache s3 = cache s /\ el s3 = R
                /\ cssWidth s3 = if centered (settings s)
                                 then css_width (_getContainerWidth (settings s) m) (cssWidth s)
                                 else cssWidth s).
  { unfold s3. destruct (centered (settings s)); repeat split. }
  destruct Hs3 as (Hst3 & Hca3 & Hel3 & Hcss3).
  unfold _createColumns. rewrite Hst3, Hcols. cbn [bind].
  eexists. split; [reflexivity|].
  unfold _moveItemsIntoCols.
  rewrite eachFrom_settings, eachFrom_cache, eachFrom_cssWidth.
  cbn [settings cache cssWidth setCache setEl el].
  rewrite Hst3, Hel3, Hcols, Hca3, Hcss3. cbn [find].
  rewrite prependCols_emptyCols, Hfind. fold L.
  assert (HlenL : List.length L = List.length found) by apply sort_length.
  rewrite HlenL.
  split; [reflexivity|]. split; [reflexivity|]. split; [|reflexivity].
  rewrite (eachFrom_el c L 0 _ (emptyCols (Z.to_nat c)) R).
  - cbn. now rewrite HdetachR.
  - reflexivity.
  - cbn. now rewrite Hst3.
  - exact Hc.
  - apply colIndices_emptyCols.
  - exact HcolR.
  - exact I.
  - exact HndL.
  - exact Hnone.
Qed.

(** ** What the columns hold after a placement *)

Lemma NoDup_countUp (n : nat) : NoDup (countUp n).
Proof.
  unfold countUp. apply Finite.Injective_map_NoDup; [|apply seq_NoDup].
  intros a b H. lia.
Qed.

Lemma appendTo_absent (t : Z) (x : item) (d : dom) :
  ~ In t (colIndices d) -> appendTo (Num t) x d = d.
Proof.
  unfold colIndices.
  induction d as [|[i its|y|] d IH]; simpl; intros H; [reflexivity| | |].
  - destruct (Z.eqb_spec i t) as [E|E]; [exfalso; auto|].
    rewrite IH; auto.
  - now rewrite IH.
  - now rewrite IH.
Qed.

Lemma allItems_appendTo (t : Z) (x : item) (d : dom) :
  NoDup (colIndices d) -> In t (colIndices d) ->
  Permutation (allItems (appendTo (Num t) x d)) (allItems d ++ [x]).
Proof.
  unfold colIndices, allItems.
  induction d as [|[i its|y|] d IH]; simpl; intros Hnd Hin; [contradiction| | |].
  - apply NoDup_cons_iff in Hnd. destruct Hnd as [Hi Hnd].
    destruct (Z.eqb_spec i t) as [E|E]; simpl.
    + subst i. fold (appendTo (Num t) x d).
      rewrite (appendTo_absent t x d Hi). rewrite <- !app_assoc.
      apply Permutation_app_head, Permutation_app_comm.
    + rewrite <- app_assoc. apply Permutation_app_head.
      apply IH; [exact Hnd|]. destruct Hin; [contradiction|assumption].
  - constructor. now apply IH.
  - now apply IH.
Qed.

Lemma placeFrom_perm (c k : Z) (items : list item) (last : option jsnum)
  (i : nat) (C : dom) :
  1 <= c -> colIndices C = countUp (Z.to_nat c) -> lastOk last ->
  Permutation (allItems (placeFrom (Num c) k last i items C))
              (allItems C ++ renumber k items).
Proof.
  intros Hc. revert k last i C.
  induction items as [|x rest IH]; intros k last i C HC Hok.
  - simpl. now rewrite app_nil_r.
  - cbn [placeFrom renumber].
    destruct (targetCol_range last c i Hok Hc) as (t & Ht & Hr).
    rewrite IH.
    + rewrite Ht, allItems_appendTo.
      * now rewrite <- app_assoc.
      * rewrite HC. apply NoDup_countUp.
      * rewrite HC. apply In_countUp. lia.
    + now rewrite colIndices_appendTo.
    + now apply targetCol_lastOk.
Qed.

Lemma withIndex_twice (k : Z) (x : item) : withIndex k (withIndex k x) = withIndex k x.
Proof. reflexivity. Qed.

Lemma placeFrom_renumber (n : jsnum) (k : Z) (items : list item)
  (last : option jsnum) (i : nat) (C : dom) :
  placeFrom n k last i (renumber k items) C = placeFrom n k last i items C.
Proof.
  revert k last i C. induction items as [|x rest IH]; intros k last i C; [reflexivity|].
  cbn [renumber placeFrom]. now rewrite withIndex_twice, IH.
Qed.

Lemma renumber_keys (k : Z) (items : list item) (y : item) :
  In y (renumber k items) -> exists j, sortIndex y = Some j /\ k <= j.
Proof.
  revert k. induction items as [|x rest IH]; intros k; simpl; [tauto|].
  intros [<-|H].
  - exists k. simpl. split; [reflexivity|lia].
  - destruct (IH _ H) as (j & Hj & Hle). exists j. split; [exact Hj|lia].
Qed.

Lemma renumber_sorted (k : Z) (items : list item) :
  StronglySorted (keyLt sortIndex) (renumber k items).
Proof.
  revert k. induction items as [|x rest IH]; intros k; simpl; constructor.
  - apply IH.
  - rewrite Forall_forall. intros y Hy.
    destruct (renumber_keys _ _ _ Hy) as (j & Hj & Hle).
    exists k, j. repeat split; [exact Hj|lia].
Qed.

Lemma renumber_ident (k : Z) (items : list item) :
  map ident (renumber k items) = map ident items.
Proof.
  revert k. induction items as [|x rest IH]; intros k; simpl; [reflexivity|].
  now rewrite IH.
Qed.

Lemma renumber_length (k : Z) (items : list item) :
  List.length (renumber k items) = List.length items.
Proof.
  revert k. induction items as [|x rest IH]; intros k; simpl; [reflexivity|].
  now rewrite IH.
Qed.

Lemma clearers_appendTo (num : jsnum) (x : item) (d : dom) :
  filter isClearer (appendTo num x d) = filter isClearer d.
Proof.
  induction d as [|[i its|y|] d IH]; simpl; try congruence.
  destruct (selects num i); simpl; congruence.
Qed.

Lemma clearers_placeFrom (n : jsnum) (k : Z) (items : list item)
  (last : option jsnum) (i : nat) (C : dom) :
  filter isClearer (placeFrom n k last i items C) = filter isClearer C.
Proof.
  revert k last i C. induction items as [|x rest IH]; intros k last i C; [reflexivity|].
  cbn [placeFrom]. now rewrite IH, clearers_appendTo.
Qed.

Lemma clearers_emptyCols (n : nat) : filter isClearer (emptyCols n) = [].
Proof. unfold emptyCols. induction (countUp n); simpl; auto. Qed.

Lemma cacheFrom_cache_cols (n : jsnum) (k i : nat) (c : Cache) :
  cache_cols (cacheFrom n i k c) = cache_cols c.
Proof.
  revert i c. induction k as [|k IH]; intros i c; [reflexivity|].
  cbn [cacheFrom]. now rewrite IH.
Qed.

Lemma resetCache_cacheFrom (n : jsnum) (k i : nat) (c : Cache) :
  resetCache (cacheFrom n i k c) = resetCache c.
Proof. unfold resetCache. now rewrite cacheFrom_cache_cols. Qed.

(** ** Relayout twice *)

Lemma reLayout_items (m : metrics) (s : lace) (c : Z) :
  selector (settings s) <> None ->
  cols (settings s) = Num c -> 1 <= c ->
  NoDup (idsOf (el s)) ->
  exists s',
    _reLayout m s = Ret s'
    /\ Permutation (allItems (el s'))
         (renumber 0 (_sortItemsByIndex sortIndex (allItems (el s))))
    /\ NoDup (idsOf (el s'))
    /\ itemIndex (cache s') = Z.of_nat (List.length (allItems (el s))).
Proof.
  intros Hsel Hcols Hc Hnd.
  destruct (reLayout_closed m s c Hsel Hcols Hc Hnd)
    as (s' & Hret & Hst & Hca & Hel & Hcss).
  exists s'. split; [exact Hret|].
  assert (Hp : Permutation (allItems (el s'))
                 (renumber 0 (_sortItemsByIndex sortIndex (allItems (el s))))).
  { rewrite Hel, allItems_app, allItems_clearers, app_nil_r.
    rewrite placeFrom_perm; [|exact Hc|apply colIndices_emptyCols|exact I].
    now rewrite allItems_emptyCols. }
  split; [exact Hp|]. split.
  - unfold idsOf. eapply Permutation_NoDup; [|exact Hnd].
    symmetry. rewrite Hp, renumber_ident. unfold idsOf.
    apply Permutation_map, sort_perm.
  - rewrite Hca. clear.
    assert (H : forall n i ca,
              itemIndex (cacheFrom (Num c) i n ca) = itemIndex ca + Z.of_nat n).
    { induction n as [|n IH]; intros i ca; [simpl; lia|].
      cbn [cacheFrom]. rewrite IH. simpl itemIndex. lia. }
    rewrite H. reflexivity.
Qed.

Lemma css_width_twice (v : jsnum) (old : option Z) :
  css_width v (css_width v old) = css_width v old.
Proof. destruct v; reflexivity. Qed.

Lemma reLayout_twice_columns (m : metrics) (s : lace) (c : Z) :
  selector (settings s) <> None ->
  cols (settings s) = Num c -> 1 <= c ->
  NoDup (idsOf (el s)) ->
  exists s', _reLayout m s = Ret s' /\ _reLayout m s' = Ret s'.
Proof.
  intros Hsel Hcols Hc Hnd.
  destruct (reLayout_closed m s c Hsel Hcols Hc Hnd)
    as (s' & Hret & Hst & Hca & Hel & Hcss).
  destruct (reLayout_items m s c Hsel Hcols Hc Hnd)
    as (s0 & Hret0 & Hp & Hnd' & _).
  rewrite Hret in Hret0. injection Hret0 as <-.
  assert (Hsel' : selector (settings s') <> None) by now rewrite Hst.
  assert (Hcols' : cols (settings s') = Num c) by now rewrite Hst.
  destruct (reLayout_closed m s' c Hsel' Hcols' Hc Hnd')
    as (s'' & Hret' & Hst' & Hca' & Hel' & Hcss').
  assert (E : s'' = s').
  { apply lace_ext.
    - exact Hst'.
    - rewrite Hca', Hca, resetCache_cacheFrom. f_equal.
      rewrite (Permutation_length Hp), renumber_length. apply sort_length.
    - rewrite Hel'.
      rewrite (sort_unique sortIndex _ _ (renumber_sorted 0 _) Hp).
      rewrite placeFrom_renumber, Hel. f_equal.
      rewrite filter_app, clearers_placeFrom, clearers_emptyCols, clearers_idem.
      reflexivity.
    - rewrite Hcss', Hcss, Hst.
      destruct (centered (settings s)); [apply css_width_twice|reflexivity]. }
  subst s''. exists s'. split; assumption.
Qed.

(** ** Relayout without columns, and without a selector *)

Lemma createColumns_newCols (s : lace) :
  cols (settings s) <> PInf ->
  _createColumns s = Ret (setEl s (newCols (cols (settings s)) ++ el s)).
Proof.
  unfold _createColumns. intros H.
  destruct (cols (settings s)); simpl; try congruence.
  - now rewrite prependCols_emptyCols.
  - now destruct s.
  - now destruct s.
Qed.

Lemma hasCol_no_columns (num : jsnum) (d : dom) :
  colIndices d = [] -> hasCol num d = false.
Proof.
  unfold colIndices, hasCol.
  induction d as [|[i its|x|] d IH]; simpl; intros H; try discriminate; auto.
Qed.

Lemma eachFrom_loose (batch : list item) (i : nat) (s : lace) (K : dom)
  (items : list item) :
  el s = K ++ map Loose items -> colIndices K = [] -> idsOf K = [] ->
  el (eachFrom i batch s)
  = K ++ map Loose (reindexItems (itemIndex (cache s)) batch items).
Proof.
  intros Hel HK HKi. revert i s items Hel.
  induction batch as [|x rest IH]; intros i s items Hel; [exact Hel|].
  cbn [eachFrom reindexItems].
  rewrite (IH (S i) (moveItem i x s) (map (attrItem (ident x) (itemIndex (cache s))) items)).
  - reflexivity.
  - simpl. rewrite Hel. unfold moveTo.
    rewrite hasCol_no_columns.
    + rewrite setSortIndex_app, setSortIndex_absent by (rewrite HKi; auto).
      f_equal. clear. induction items; simpl; congruence.
    + now rewrite colIndices_setSortIndex, colIndices_app, HK, colIndices_Loose.
Qed.

Lemma reLayout_loose (m : metrics) (s : lace) :
  selector (settings s) <> None ->
  cols (settings s) <> PInf -> newCols (cols (settings s)) = [] ->
  exists s',
    _reLayout m s = Ret s'
    /\ settings s' = settings s
    /\ cache s'
       = cacheFrom (cols (settings s)) 0 (List.length (allItems (el s)))
           (resetCache (cache s))
    /\ el s'
       = filter isClearer (el s)
         ++ map Loose (reindexItems 0 (_sortItemsByIndex sortIndex (allItems (el s)))
                         (allItems (el s)))
    /\ cssWidth s'
       = if centered (settings s)
         then css_width (_getContainerWidth (settings s) m) (cssWidth s)
         else cssWidth s.
Proof.
  intros Hsel Hfin Hnew.
  destruct (selector (settings s)) as [sel|] eqn:Esel; [clear Hsel|congruence].
  unfold _reLayout. rewrite Esel. cbn [find].
  rewrite reLayout_extract.
  set (found := allItems (el s)) in *.
  set (R := filter isClearer (el s) ++ map Loose found).
  match goal with |- context [_createColumns ?x] => set (s3 := x) end.
  assert (Hs3 : settings s3 = settings s /\ cache s3 = cache s /\ el s3 = R
                /\ cssWidth s3 = if centered (settings s)
                                 then css_width (_getContainerWidth (settings s) m) (cssWidth s)
                                 else cssWidth s).
  { unfold s3. destruct (centered (settings s)); repeat split. }
  destruct Hs3 as (Hst3 & Hca3 & Hel3 & Hcss3).
  rewrite createColumns_newCols by now rewrite Hst3.
  rewrite Hst3, Hnew, Hel3. cbn [app bind].
  eexists. split; [reflexivity|].
  unfold _moveItemsIntoCols.
  rewrite eachFrom_settings, eachFrom_cache, eachFrom_cssWidth.
  cbn [settings cache cssWidth setCache setEl el].
  rewrite Hst3, Hca3, Hcss3. cbn [find].
  assert (HfoundR : allItems R = found).
  { unfold R. now rewrite allItems_app, allItems_clearers, allItems_Loose. }
  rewrite HfoundR, sort_length.
  split; [reflexivity|]. split; [reflexivity|]. split; [|reflexivity].
  rewrite (eachFrom_loose _ 0 _ (filter isClearer (el s)) found).
  - reflexivity.
  - reflexivity.
  - apply colIndices_clearers.
  - unfold idsOf. now rewrite allItems_clearers.
Qed.

Lemma reLayout_no_selector (m : metrics) (s : lace) :
  selector (settings s) = None -> cols (settings s) <> PInf ->
  exists s',
    _reLayout m s = Ret s'
    /\ settings s' = settings s
    /\ cache s' = resetCache (cache s)
    /\ el s' = newCols (cols (settings s)) ++ filter notCol (el s)
    /\ cssWidth s'
       = if centered (settings s)
         then css_width (_getContainerWidth (settings s) m) (cssWidth s)
         else cssWidth s.
Proof.
  intros Esel Hfin.
  unfold _reLayout. rewrite Esel. cbn [find detachAll fold_left map].
  rewrite app_nil_r.
  match goal with |- context [_createColumns ?x] => set (s3 := x) end.
  assert (Hs3 : settings s3 = settings s /\ cache s3 = cache s
                /\ el s3 = filter notCol (el s)
                /\ cssWidth s3 = if centered (settings s)
                                 then css_width (_getContainerWidth (settings s) m) (cssWidth s)
                                 else cssWidth s).
  { unfold s3. destruct (centered (settings s)); repeat split. }
  destruct Hs3 as (Hst3 & Hca3 & Hel3 & Hcss3).
  rewrite createColumns_newCols by now rewrite Hst3.
  rewrite Hst3, Hel3. cbn [bind].
  eexists. split; [reflexivity|].
  cbn. rewrite Hst3, Hca3, Hcss3. repeat split.
Qed.

(** *** Numbering again the items that are already numbered *)

Lemma renumber_nth (k : Z) (items : list item) (j : nat) (z : item) :
  nth_error (renumber k items) j = Some z -> sortIndex z = Some (k + Z.of_nat j).
Proof.
  revert k j. induction items as [|x rest IH]; intros k [|j]; simpl; try discriminate.
  - intros [= <-]. simpl. f_equal. lia.
  - intros H. apply IH in H. rewrite H. f_equal. lia.
Qed.

Lemma withIndex_same (k : Z) (z : item) : sortIndex z = Some k -> withIndex k z = z.
Proof. destruct z as [id si h]. simpl. intros ->. reflexivity. Qed.

Lemma reindexItems_fixed (batch : list item) (k : Z) (items : list item) :
  (forall j z, nth_error batch j = Some z -> sortIndex z = Some (k + Z.of_nat j)) ->
  (forall y z, In y items -> In z batch -> ident y = ident z -> y = z) ->
  reindexItems k batch items = items.
Proof.
  revert k. induction batch as [|z rest IH]; intros k Hkeys Hsame; [reflexivity|].
  cbn [reindexItems].
  assert (E : map (attrItem (ident z) k) items = items).
  { rewrite <- (map_id items) at 2. apply map_ext_in. intros y Hy.
    unfold attrItem. destruct (Nat.eqb_spec (ident y) (ident z)) as [Hid|]; [|reflexivity].
    rewrite (Hsame y z Hy (or_introl eq_refl) Hid).
    apply withIndex_same. rewrite (Hkeys 0%nat z eq_refl). f_equal. lia. }
  rewrite E. apply IH.
  - intros j y Hj. rewrite (Hkeys (S j) y Hj). f_equal. lia.
  - intros y y' Hy Hy'. apply Hsame; [exact Hy|now right].
Qed.

Lemma reindexItems_perm (batch : list item) (k : Z) (items P : list item) :
  Permutation items (P ++ batch) -> NoDup (map ident (P ++ batch)) ->
  Permutation (reindexItems k batch items) (P ++ renumber k batch).
Proof.
  revert k items P.
  induction batch as [|x rest IH]; intros k items P Hp Hnd; [exact Hp|].
  cbn [reindexItems renumber].
  assert (HndP : ~ In (ident x) (map ident P) /\ ~ In (ident x) (map ident rest)).
  { rewrite map_app in Hnd. simpl in Hnd.
    apply NoDup_remove_2 in Hnd. rewrite in_app_iff in Hnd. tauto. }
  destruct HndP as [HxP Hxr].
  replace (P ++ withIndex k x :: renumber (k + 1) rest)
    with ((P ++ [withIndex k x]) ++ renumber (k + 1) rest)
    by (now rewrite <- app_assoc).
  apply IH.
  - rewrite (Permutation_map (attrItem (ident x) k) Hp).
    rewrite map_app. simpl.
    rewrite (map_attrItem_absent _ _ P HxP), (map_attrItem_absent _ _ rest Hxr).
    unfold attrItem. rewrite Nat.eqb_refl. now rewrite <- app_assoc.
  - rewrite <- app_assoc. simpl.
    rewrite map_app in *. exact Hnd.
Qed.

Lemma NoDup_map_inj {A B : Type} (f : A -> B) (l : list A) (a b : A) :
  NoDup (map f l) -> In a l -> In b l -> f a = f b -> a = b.
Proof.
  induction l as [|x l IH]; simpl; [tauto|].
  intros Hnd. apply NoDup_cons_iff in Hnd. destruct Hnd as [Hx Hnd].
  intros [<-|Ha] [<-|Hb] E; auto.
  - exfalso. apply Hx. rewrite E. now apply in_map.
  - exfalso. apply Hx. rewrite <- E. now apply in_map.
Qed.

Lemma reLayout_twice_loose (m : metrics) (s : lace) :
  selector (settings s) <> None ->
  cols (settings s) <> PInf -> newCols (cols (settings s)) = [] ->
  NoDup (idsOf (el s)) ->
  exists s', _reLayout m s = Ret s' /\ _reLayout m s' = Ret s'.
Proof.
  intros Hsel Hfin Hnew Hnd.
  destruct (reLayout_loose m s Hsel Hfin Hnew) as (s' & Hret & Hst & Hca & Hel & Hcss).
  set (found := allItems (el s)) in *.
  set (L := _sortItemsByIndex sortIndex found) in *.
  set (F := reindexItems 0 L found) in *.
  assert (HndL : NoDup (map ident L)).
  { eapply Permutation_NoDup; [|exact Hnd].
    symmetry. apply Permutation_map, sort_perm. }
  assert (HpF : Permutation F (renumber 0 L)).
  { apply (reindexItems_perm L 0 found []); [|exact HndL].
    symmetry. apply sort_perm. }
  assert (HF : allItems (el s') = F).
  { now rewrite Hel, allItems_app, allItems_clearers, allItems_Loose. }
  assert (Hsel' : selector (settings s') <> None) by now rewrite Hst.
  assert (Hfin' : cols (settings s') <> PInf) by now rewrite Hst.
  assert (Hnew' : newCols (cols (settings s')) = []) by now rewrite Hst.
  destruct (reLayout_loose m s' Hsel' Hfin' Hnew')
    as (s'' & Hret' & Hst' & Hca' & Hel' & Hcss').
  assert (E : s'' = s').
  { apply lace_ext.
    - exact Hst'.
    - rewrite Hca', Hca, HF, Hst, resetCache_cacheFrom. f_equal.
      rewrite (Permutation_length HpF), renumber_length. apply sort_length.
    - rewrite Hel', HF, Hel.
      rewrite filter_app, clearers_idem, clearers_Loose, app_nil_r. do 2 f_equal.
      rewrite (sort_unique sortIndex _ _ (renumber_sorted 0 L) HpF).
      apply reindexItems_fixed.
      + intros j z Hj. now apply renumber_nth in Hj.
      + intros y z Hy Hz Hid.
        apply (NoDup_map_inj ident (renumber 0 L)); auto.
        * now rewrite renumber_ident.
        * eapply Permutation_in; [exact HpF|exact Hy].
    - rewrite Hcss', Hcss, Hst.
      destruct (centered (settings s)); [apply css_width_twice|reflexivity]. }
  subst s''. exists s'. split; assumption.
Qed.

Lemma reLayout_twice_no_selector (m : metrics) (s : lace) :
  selector (settings s) = None -> cols (settings s) <> PInf ->
  exists s', _reLayout m s = Ret s' /\ _reLayout m s' = Ret s'.
Proof.
  intros Hsel Hfin.
  destruct (reLayout_no_selector m s Hsel Hfin) as (s' & Hret & Hst & Hca & Hel & Hcss).
  assert (Hsel' : selector (settings s') = None) by now rewrite Hst.
  assert (Hfin' : cols (settings s') <> PInf) by now rewrite Hst.
  destruct (reLayout_no_selector m s' Hsel' Hfin')
    as (s'' & Hret' & Hst' & Hca' & Hel' & Hcss').
  assert (E : s'' = s').
  { apply lace_ext.
    - exact Hst'.
    - rewrite Hca', Hca. reflexivity.
    - rewrite Hel', Hel, Hst. f_equal.
      destruct (cols (settings s)); simpl;
        rewrite ?notCol_emptyCols; apply notCol_no_columns, colIndices_notCol.
    - rewrite Hcss', Hcss, Hst.
      destruct (centered (settings s)); [apply css_width_twice|reflexivity]. }
  subst s''. exists s'. split; assumption.
Qed.

Lemma reLayout_hangs (m : metrics) (s : lace) :
  cols (settings s) = PInf -> _reLayout m s = Hang.
Proof.
  intros H. unfold _reLayout, _createColumns.
  destruct (centered (settings s)); simpl; now rewrite H.
Qed.

(** C2: on every grid, a relayout that follows a relayout under the
    same measured widths returns the very instance it is given: the
    same items in the same columns, the same cache.  (With a column
    count of [Infinity] neither call returns.) *)
Theorem reLayout_idempotent (m : metrics) (s : lace) :
  NoDup (idsOf (el s)) ->
  bind (_reLayout m s) (_reLayout m) = _reLayout m s
  /\ (cols (settings s) <> PInf ->
      exists s1 s2,
        _reLayout m s = Ret s1
        /\ _reLayout m s1 = Ret s2
        /\ columns (el s2) = columns (el s1)
        /\ s2 = s1).
Proof.
  intros Hnd.
  assert (H : cols (settings s) <> PInf ->
              exists s', _reLayout m s = Ret s' /\ _reLayout m s' = Ret s').
  { intros Hfin.
    destruct (selector (settings s)) as [sel|] eqn:Esel;
      [|now apply reLayout_twice_no_selector].
    assert (Hsel : selector (settings s) <> None) by congruence.
    destruct (cols (settings s)) as [c| | |] eqn:Ecols.
    - destruct (Z.le_gt_cases 1 c) as [Hc|Hc].
      + now apply (reLayout_twice_columns m s c).
      + apply reLayout_twice_loose; try assumption; rewrite Ecols; [discriminate|].
        simpl. replace (Z.to_nat c) with 0%nat by lia. reflexivity.
    - congruence.
    - apply reLayout_twice_loose; try assumption; rewrite Ecols;
        [discriminate|reflexivity].
    - apply reLayout_twice_loose; try assumption; rewrite Ecols;
        [discriminate|reflexivity]. }
  split.
  - destruct (cols (settings s)) as [c| | |] eqn:Ecols;
      try (destruct H as (s' & Hr & Hr'); [congruence|];
           rewrite Hr; exact Hr').
    now rewrite (reLayout_hangs m s Ecols).
  - intros Hfin. destruct (H Hfin) as (s' & Hr & Hr').
    exists s', s'. repeat split; assumption.
Qed.

(** ** The sort indices after a relayout *)

Lemma renumber_nth_item (k : Z) (items : list item) (j : nat) (x : item) :
  nth_error items j = Some x ->
  nth_error (renumber k items) j = Some (withIndex (k + Z.of_nat j) x).
Proof.
  revert k j. induction items as [|y rest IH]; intros k [|j]; simpl; try discriminate.
  - intros [= <-]. do 2 f_equal. lia.
  - intros H. rewrite (IH _ _ H). do 2 f_equal. lia.
Qed.

Lemma itemOf_unique (d : dom) (y : item) :
  NoDup (idsOf d) -> In y (allItems d) -> itemOf (ident y) d = Some y.
Proof.
  unfold itemOf, idsOf. induction (allItems d) as [|x l IH]; simpl; [tauto|].
  intros Hnd. apply NoDup_cons_iff in Hnd. destruct Hnd as [Hx Hnd].
  intros [<-|Hy].
  - now rewrite Nat.eqb_refl.
  - destruct (Nat.eqb_spec (ident x) (ident y)) as [E|_]; [|now apply IH].
    exfalso. apply Hx. rewrite E. now apply in_map.
Qed.

Lemma cacheFrom_itemIndex (n : jsnum) (k i : nat) (c : Cache) :
  itemIndex (cacheFrom n i k c) = itemIndex c + Z.of_nat k.
Proof.
  revert i c. induction k as [|k IH]; intros i c; [simpl; lia|].
  cbn [cacheFrom]. rewrite IH. simpl itemIndex. lia.
Qed.

Lemma reLayout_renumbered (m : metrics) (s : lace) :
  selector (settings s) <> None -> cols (settings s) <> PInf ->
  NoDup (idsOf (el s)) ->
  exists s',
    _reLayout m s = Ret s'
    /\ Permutation (allItems (el s'))
         (renumber 0 (_sortItemsByIndex sortIndex (allItems (el s))))
    /\ NoDup (idsOf (el s'))
    /\ itemIndex (cache s') = Z.of_nat (List.length (allItems (el s))).
Proof.
  intros Hsel Hfin Hnd.
  assert (Hloose : newCols (cols (settings s)) = [] ->
            exists s',
              _reLayout m s = Ret s'
              /\ Permutation (allItems (el s'))
                   (renumber 0 (_sortItemsByIndex sortIndex (allItems (el s))))
              /\ NoDup (idsOf (el s'))
              /\ itemIndex (cache s') = Z.of_nat (List.length (allItems (el s)))).
  { intros Hnew.
    destruct (reLayout_loose m s Hsel Hfin Hnew) as (s' & Hret & Hst & Hca & Hel & Hcss).
    assert (HndL : NoDup (map ident (_sortItemsByIndex sortIndex (allItems (el s))))).
    { eapply Permutation_NoDup; [|exact Hnd].
      symmetry. apply Permutation_map, sort_perm. }
    assert (Hp : Permutation (allItems (el s'))
                   (renumber 0 (_sortItemsByIndex sortIndex (allItems (el s))))).
    { rewrite Hel, allItems_app, allItems_clearers, allItems_Loose. simpl.
      apply (reindexItems_perm _ 0 _ []); [|exact HndL].
      symmetry. apply sort_perm. }
    exists s'. split; [exact Hret|]. split; [exact Hp|]. split.
    - unfold idsOf. eapply Permutation_NoDup; [|exact HndL].
      symmetry. rewrite Hp, renumber_ident. reflexivity.
    - rewrite Hca, cacheFrom_itemIndex. reflexivity. }
  destruct (cols (settings s)) as [c| | |] eqn:Ecols.
  - destruct (Z.le_gt_cases 1 c) as [Hc|Hc].
    + now apply (reLayout_items m s c).
    + apply Hloose. simpl. replace (Z.to_nat c) with 0%nat by lia. reflexivity.
  - congruence.
  - now apply Hloose.
  - now apply Hloose.
Qed.


(** ** One turn of the balancer *)

Lemma countUp_sorted (n : nat) : StronglySorted Z.lt (countUp n).
Proof.
  induction n as [|n IH]; [constructor|].
  rewrite countUp_S.
  assert (H : forall l x, StronglySorted Z.lt l -> Forall (fun y => y < x) l ->
                          StronglySorted Z.lt (l ++ [x])).
  { clear. induction l as [|a l IHl]; intros x Hs Hf; simpl.
    - repeat constructor.
    - inversion_clear Hs as [|? ? Hs' Ha]. inversion_clear Hf as [|? ? Hax Hf'].
      constructor; [now apply IHl|].
      apply Forall_app. split; [exact Ha|]. now repeat constructor. }
  apply H; [exact IH|].
  rewrite Forall_forall. intros y Hy. apply In_countUp in Hy. lia.
Qed.

Lemma columns_sorted (cs : list (Z * list item)) :
  StronglySorted Z.lt (map fst cs) -> StronglySorted (keyLt colKey) cs.
Proof.
  induction cs as [|c cs IH]; simpl; intros H; [constructor|].
  inversion_clear H as [|? ? Hs Hc]. constructor; [now apply IH|].
  rewrite Forall_map in Hc. eapply Forall_impl; [|exact Hc].
  intros c' Hlt. exists (fst c), (fst c'). now repeat split.
Qed.

Lemma sortedHeights_laid (d : dom) (n : nat) :
  colIndices d = countUp n -> sortedHeights d = heightsOf d.
Proof.
  intros H. unfold sortedHeights, heightsOf.
  rewrite sort_sorted_id; [reflexivity|].
  apply columns_sorted. unfold colIndices in H. rewrite H. apply countUp_sorted.
Qed.

Lemma columns_detach (id : nat) (d : dom) :
  columns (detach id d)
  = map (fun c => (fst c, filter (isNot id) (snd c))) (columns d).
Proof.
  induction d as [|[i its|x|] d IH]; simpl; try congruence.
  destruct (isNot id x); simpl; congruence.
Qed.

Lemma columns_appendTo (t : Z) (it : item) (d : dom) :
  columns (appendTo (Num t) it d)
  = map (fun c => (fst c, if fst c =? t then snd c ++ [it] else snd c)) (columns d).
Proof.
  induction d as [|[i its|x|] d IH]; simpl; try congruence.
  destruct (i =? t); simpl; congruence.
Qed.

Lemma columns_moveTo (t : Z) (it : item) (d : dom) :
  In t (colIndices d) ->
  columns (moveTo (Num t) it d) = map (afterMove t it) (columns d).
Proof.
  intros H. unfold moveTo. rewrite (proj2 (hasCol_In t d) H).
  rewrite columns_appendTo, columns_detach, map_map.
  apply map_ext. intros [i its]. unfold afterMove. simpl.
  now destruct (i =? t).
Qed.

Lemma colItems_columns (t : Z) (d : dom) :
  colItems (Some t) d
  = flat_map (fun c => if fst c =? t then snd c else []) (columns d).
Proof.
  induction d as [|[i its|x|] d IH]; simpl; try congruence.
Qed.

Lemma colHeight_app (l1 l2 : list item) :
  colHeight (l1 ++ l2) = colHeight l1 + colHeight l2.
Proof.
  unfold colHeight. induction l1 as [|x l1 IH]; simpl; [reflexivity|].
  rewrite IH. lia.
Qed.

Lemma NoDup_app_inv {A : Type} (l1 l2 : list A) :
  NoDup (l1 ++ l2) ->
  NoDup l1 /\ NoDup l2 /\ (forall a, In a l1 -> ~ In a l2).
Proof.
  induction l1 as [|x l1 IH]; simpl; intros H.
  - repeat split; [constructor|exact H|tauto].
  - apply NoDup_cons_iff in H. destruct H as [Hx H].
    destruct (IH H) as (H1 & H2 & H3). rewrite in_app_iff in Hx.
    repeat split; [constructor; tauto|exact H2|].
    intros a [<-|Ha]; [tauto|now apply H3].
Qed.

(** The columns hold distinct elements. *)
Lemma NoDup_columns (d : dom) :
  NoDup (idsOf d) -> NoDup (map ident (flat_map snd (columns d))).
Proof.
  unfold idsOf, allItems.
  induction d as [|[i its|x|] d IH]; simpl; intros H; [constructor| | |].
  - rewrite map_app in *.
    assert (Hincl : forall a, In a (map ident (flat_map snd (columns d))) ->
                              In a (map ident (flat_map nodeItems d))).
    { clear. intros a. rewrite !in_map_iff. intros (y & <- & Hy).
      exists y. split; [reflexivity|].
      induction d as [|[i its|x|] d IHd]; simpl in *; auto.
      rewrite in_app_iff in *. tauto. }
    apply NoDup_app_inv in H. destruct H as (H1 & H2 & H3).
    apply NoDup_app; auto.
    intros a Ha Hb. exact (H3 a Ha (Hincl a Hb)).
  - apply NoDup_cons_iff in H. now apply IH.
  - now apply IH.
Qed.

Lemma NoDup_column (cs : list (Z * list item)) (c : Z * list item) :
  NoDup (map ident (flat_map snd cs)) -> In c cs -> NoDup (map ident (snd c)).
Proof.
  induction cs as [|c0 cs IH]; simpl; [tauto|].
  rewrite map_app. intros H. apply NoDup_app_inv in H.
  destruct H as (H1 & H2 & _). intros [<-|Hc]; auto.
Qed.

Lemma columns_disjoint (cs : list (Z * list item)) (c1 c2 : Z * list item) (x : item) :
  NoDup (map ident (flat_map snd cs)) ->
  In c1 cs -> In c2 cs -> fst c1 <> fst c2 ->
  In x (snd c1) -> ~ In (ident x) (map ident (snd c2)).
Proof.
  assert (Hsub : forall (l : list (Z * list item)) c y,
            In c l -> In y (map ident (snd c)) ->
            In y (map ident (flat_map snd l))).
  { intros l c y Hc Hy. rewrite in_map_iff in *.
    destruct Hy as (z & <- & Hz). exists z. split; [reflexivity|].
    apply in_flat_map. eauto. }
  induction cs as [|c0 cs IH]; simpl; [tauto|].
  rewrite map_app. intros H. apply NoDup_app_inv in H.
  destruct H as (H1 & H2 & H3).
  intros [<-|Hc1] [<-|Hc2] Hne Hx Hin.
  - now apply Hne.
  - apply (H3 (ident x)); [now apply in_map|]. eapply Hsub; eauto.
  - apply (H3 (ident x)); [exact Hin|].
    eapply Hsub; [exact Hc1|]. now apply in_map.
  - exact (IH H2 Hc1 Hc2 Hne Hx Hin).
Qed.

Lemma column_by_index (cs : list (Z * list item)) (t : Z) (its : list item) :
  NoDup (map fst cs) -> In (t, its) cs ->
  flat_map (fun c => if fst c =? t then snd c else []) cs = its.
Proof.
  induction cs as [|[i a] cs IH]; simpl; [tauto|].
  intros Hnd. apply NoDup_cons_iff in Hnd. destruct Hnd as [Hi Hnd].
  intros [[= -> ->]|Hin].
  - rewrite Z.eqb_refl.
    assert (E : flat_map (fun c => if fst c =? t then snd c else []) cs = []).
    { clear IH Hnd. induction cs as [|[j b] cs IHc]; simpl; [reflexivity|].
      simpl in Hi. destruct (Z.eqb_spec j t) as [->|_]; [tauto|].
      apply IHc. tauto. }
    rewrite E. apply app_nil_r.
  - destruct (Z.eqb_spec i t) as [->|_]; [|now apply IH].
    exfalso. apply Hi. change t with (fst (t, its)). now apply in_map.
Qed.

Lemma colHeight_filter_last (pre : list item) (it : item) :
  NoDup (map ident (pre ++ [it])) ->
  filter (isNot (ident it)) (pre ++ [it]) = pre.
Proof.
  intros H. rewrite map_app in H. simpl in H.
  apply NoDup_remove_2 in H. rewrite app_nil_r in H.
  rewrite filter_app, filter_isNot_absent by exact H.
  simpl. unfold isNot. rewrite Nat.eqb_refl. simpl. apply app_nil_r.
Qed.

Section Move.
Variable cs : list (Z * list item).
Variables vs vh th ts : Z.
Variables pre : list item.
Variable it : item.
Hypothesis indices_distinct : NoDup (map fst cs).
Hypothesis items_distinct : NoDup (map ident (flat_map snd cs)).
Hypothesis bounds : forall c, In c cs -> vs <= colHeight (snd c) <= vh.
Hypothesis highest : In (th, pre ++ [it]) cs.
Hypothesis highest_height : colHeight (pre ++ [it]) = vh.
Hypothesis shortest : forall its, In (ts, its) cs -> colHeight its = vs.
Hypothesis gentle : 0 <= height it <= vh - vs.

Lemma afterMove_bounds (c : Z * list item) :
  In c cs -> vs <= colHeight (snd (afterMove ts it c)) <= vh.
Proof.
  intros Hc. destruct c as [i its]. unfold afterMove. simpl.
  pose proof (bounds _ Hc) as Hb. simpl in Hb.
  assert (Hit : colHeight [it] = height it) by (simpl; lia).
  destruct (Z.eq_dec i th) as [->|Hne].
  - assert (E : its = pre ++ [it]).
    { pose proof (NoDup_map_inj fst cs _ _ indices_distinct Hc highest eq_refl) as E.
      now injection E. }
    subst its.
    rewrite colHeight_filter_last
      by exact (NoDup_column cs _ items_distinct highest).
    rewrite colHeight_app, Hit in highest_height.
    destruct (Z.eqb_spec th ts) as [->|_].
    + rewrite colHeight_app, Hit. lia.
    + lia.
  - rewrite filter_isNot_absent.
    + destruct (Z.eqb_spec i ts) as [->|_]; [|exact Hb].
      rewrite colHeight_app, Hit, (shortest _ Hc). lia.
    + apply (columns_disjoint cs (th, pre ++ [it]) (i, its) it);
        auto using in_or_app, in_eq.
      apply in_or_app. right. now left.
Qed.
End Move.

Lemma nth_countUp (n j : nat) (z : Z) :
  nth_error (countUp n) j = Some z -> z = Z.of_nat j + 1.
Proof.
  unfold countUp. rewrite nth_error_map.
  destruct (nth_error (seq 1 n) j) as [k|] eqn:E; simpl; [|discriminate].
  intros [= <-].
  assert (Hj : (j < n)%nat).
  { rewrite <- (length_seq n 1). apply nth_error_Some. congruence. }
  apply (nth_error_nth _ _ 0%nat) in E. rewrite seq_nth in E by exact Hj. lia.
Qed.

Lemma column_at (d : dom) (n p : nat) (v : Z) :
  colIndices d = countUp n ->
  nth_error (heightsOf d) p = Some v ->
  exists its, In (Z.of_nat p + 1, its) (columns d) /\ colHeight its = v.
Proof.
  intros Hidx Hp. unfold heightsOf in Hp. rewrite nth_error_map in Hp.
  destruct (nth_error (columns d) p) as [[i its]|] eqn:E; simpl in Hp; [|discriminate].
  injection Hp as <-.
  assert (Hi : nth_error (colIndices d) p = Some i).
  { unfold colIndices. rewrite nth_error_map, E. reflexivity. }
  rewrite Hidx in Hi. apply nth_countUp in Hi. subst i.
  exists its. split; [|reflexivity]. eapply nth_error_In. exact E.
Qed.

Lemma NoDup_ident_filter (p : item -> bool) (l : list item) :
  NoDup (map ident l) -> NoDup (map ident (filter p l)).
Proof.
  induction l as [|x l IH]; simpl; intros H; [constructor|].
  apply NoDup_cons_iff in H. destruct H as [Hx H].
  destruct (p x); simpl; [|now apply IH].
  constructor; [|now apply IH].
  intros Hin. apply Hx. rewrite in_map_iff in *.
  destruct Hin as (y & E & Hy). apply filter_In in Hy. exists y. tauto.
Qed.

Lemma NoDup_moveTo (t : Z) (it : item) (d : dom) :
  NoDup (idsOf d) -> NoDup (colIndices d) -> In t (colIndices d) ->
  NoDup (idsOf (moveTo (Num t) it d)).
Proof.
  intros Hnd Hidx Hin. unfold moveTo. rewrite (proj2 (hasCol_In t d) Hin).
  unfold idsOf.
  assert (Hp : Permutation (allItems (appendTo (Num t) it (detach (ident it) d)))
                 (filter (isNot (ident it)) (allItems d) ++ [it])).
  { rewrite allItems_appendTo, allItems_detach; [reflexivity| |];
      now rewrite colIndices_detach. }
  eapply Permutation_NoDup; [symmetry; apply Permutation_map; exact Hp|].
  rewrite map_app. apply NoDup_app.
  - now apply NoDup_ident_filter.
  - repeat constructor. intros [].
  - intros a Ha [<-|[]]. rewrite in_map_iff in Ha.
    destruct Ha as (y & E & Hy). apply filter_In in Hy.
    destruct Hy as [_ Hy]. unfold isNot in Hy.
    rewrite E, Nat.eqb_refl in Hy. discriminate.
Qed.

Lemma gap_bounded (d : dom) (n : nat) (lo hi : Z) :
  colIndices d = countUp n ->
  (forall c, In c (columns d) -> lo <= colHeight (snd c) <= hi) ->
  gap d <= Z.max 0 (hi - lo).
Proof.
  intros Hidx Hb. unfold gap.
  destruct (columns d) as [|c0 cs0] eqn:Ec.
  - rewrite (proj2 (getColumnHeights_none d) Ec). lia.
  - assert (Hne : columns d <> []) by congruence.
    destruct (getColumnHeights_scan d Hne)
      as (h & ps & vs & ph & vh & -> & _ & Hsv & _ & Hhv & Hfs & Hfh).
    destruct (firstBest_bounds _ _ _ _ _ Hfs Hfh) as (Hns & Hnh & _).
    unfold gapOf. rewrite Hsv, Hhv. simpl toNumber.
    rewrite (sortedHeights_laid d n Hidx) in Hns, Hnh.
    assert (Hin : forall p v, nth_error (heightsOf d) p = Some v -> lo <= v <= hi).
    { intros p v Hp. apply nth_error_In in Hp. unfold heightsOf in Hp.
      rewrite in_map_iff in Hp. destruct Hp as (c & <- & Hc).
      apply Hb. now rewrite <- Ec. }
    pose proof (Hin _ _ Hns). pose proof (Hin _ _ Hnh). lia.
Qed.

Lemma evenStep_gap (sel : option string) (d d' : dom) (n : nat) :
  colIndices d = countUp n -> NoDup (idsOf d) ->
  gentleStep d -> evenStep sel d = Some d' ->
  gap d' <= gap d /\ colIndices d' = countUp n /\ NoDup (idsOf d').
Proof.
  intros Hidx Hnd Hgentle Hstep.
  unfold evenStep in Hstep. unfold gentleStep in Hgentle.
  destruct (_getColumnHeights d) as [h|] eqn:Eh; [|discriminate].
  destruct sel as [sel|]; [|injection Hstep as <-; repeat split; auto; lia].
  destruct (rev (colItems (highestCol h) d)) as [|it r] eqn:Erev;
    [injection Hstep as <-; repeat split; auto; lia|].
  injection Hstep as <-.
  assert (Hne : columns d <> []).
  { intros E. apply getColumnHeights_none in E. congruence. }
  destruct (getColumnHeights_scan d Hne)
    as (h0 & ps & vs & ph & vh & Eh0 & Hsc & Hsv & Hhc & Hhv & Hfs & Hfh).
  destruct (firstBest_bounds _ _ _ _ _ Hfs Hfh) as (Hns & Hnh & Hb).
  rewrite Eh in Eh0. injection Eh0 as <-.
  rewrite (sortedHeights_laid d n Hidx) in Hns, Hnh, Hb.
  assert (Hgap : gap d = vh - vs /\ gapOf h = vh - vs).
  { unfold gap. rewrite Eh. unfold gapOf. rewrite Hsv, Hhv. simpl.
    pose proof (Hb _ _ Hns). lia. }
  destruct Hgap as [Hgap Hgap']. rewrite Hgap' in Hgentle.
  destruct (column_at d n ph vh Hidx Hnh) as (hits & Hhits & Hhh).
  destruct (column_at d n ps vs Hidx Hns) as (sits & Hsits & Hsh).
  assert (Hdist : NoDup (map fst (columns d))).
  { fold (colIndices d). rewrite Hidx. apply NoDup_countUp. }
  assert (Ehits : hits = rev r ++ [it]).
  { rewrite Hhc, colItems_columns in Erev.
    rewrite (column_by_index _ _ hits Hdist Hhits) in Erev.
    rewrite <- (rev_involutive hits), Erev. reflexivity. }
  subst hits.
  assert (Hint : In (Z.of_nat ps + 1) (colIndices d)).
  { unfold colIndices. change (Z.of_nat ps + 1) with (fst (Z.of_nat ps + 1, sits)).
    now apply in_map. }
  rewrite Hsc. simpl numOpt.
  assert (Hidx' : colIndices (moveTo (Num (Z.of_nat ps + 1)) it d) = countUp n)
    by now rewrite colIndices_moveTo.
  split; [|split; [exact Hidx'|]].
  - rewrite Hgap.
    transitivity (Z.max 0 (vh - vs)); [|lia].
    apply (gap_bounded _ n); [exact Hidx'|].
    rewrite columns_moveTo by exact Hint.
    intros c' Hc'. rewrite in_map_iff in Hc'. destruct Hc' as (c & <- & Hc).
    apply (afterMove_bounds (columns d) vs vh (Z.of_nat ph + 1) (Z.of_nat ps + 1)
             (rev r) it); auto.
    + now apply NoDup_columns.
    + intros c0 Hc0.
      assert (Hin : In (colHeight (snd c0)) (heightsOf d))
        by (unfold heightsOf; exact (in_map (fun c => colHeight (snd c)) _ _ Hc0)).
      apply In_nth_error in Hin. destruct Hin as (j & Hj). eapply Hb; eauto.
    + intros its Hits.
      pose proof (NoDup_map_inj fst _ _ _ Hdist Hits Hsits eq_refl) as E.
      injection E as ->. exact Hsh.
  - apply NoDup_moveTo; auto.
Qed.

Lemma evenLoop_gap (k : nat) (s : lace) (n : nat) :
  colIndices (el s) = countUp n -> n <> 0%nat -> NoDup (idsOf (el s)) ->
  gentleRun k (selector (settings s)) (el s) ->
  exists s',
    evenLoop k s = Ret s'
    /\ gap (el s') <= gap (el s)
    /\ colIndices (el s') = countUp n /\ NoDup (idsOf (el s')).
Proof.
  revert s. induction k as [|k IH]; intros s Hidx Hn Hnd Hrun.
  - exists s. repeat split; auto. lia.
  - cbn [evenLoop gentleRun] in *. destruct Hrun as [Hstep Hrun].
    destruct (evenStep_some (selector (settings s)) (el s)) as (d' & Hd' & _).
    { rewrite Hidx. destruct n; [contradiction|]. rewrite countUp_S.
      intros E. now apply app_eq_nil in E. }
    rewrite Hd' in *.
    destruct (evenStep_gap _ _ _ n Hidx Hnd Hstep Hd') as (Hg & Hidx' & Hnd').
    destruct (IH (setEl s d')) as (s' & Hret & Hg' & Hi' & Hn'); auto.
    exists s'. simpl in Hg'. repeat split; auto. lia.
Qed.

(** C7, amended: on a grid with its columns in place, when each item
    that the balancer moves is, at the time of its move, no taller than
    the gap between the highest and the shortest column (heights not
    negative), the gap after [evenBottom] is at most the gap before. *)
Theorem evenBottom_gentle (s : lace) (c : Z) :
  laid c s -> 1 <= c -> NoDup (idsOf (el s)) ->
  gentleRun (Z.to_nat ((c + 1) / 2)) (selector (settings s)) (el s) ->
  exists s',
    evenBottom s = Ret s'
    /\ gap (el s') <= gap (el s)
    /\ laid c s' /\ NoDup (idsOf (el s')).
Proof.
  intros (Hcols & Hcache & Hidx) Hc Hnd Hrun.
  assert (Hsame : exists s',
            Ret s = Ret s' /\ gap (el s') <= gap (el s)
            /\ laid c s' /\ NoDup (idsOf (el s'))).
  { exists s. repeat split; auto. lia. }
  unfold evenBottom.
  destruct (find _ _) as [|x l]; [exact Hsame|].
  destruct (_getColumnHeights (el s)) as [h|] eqn:Eh.
  - destruct (gapOf h <=? 500); [exact Hsame|].
    destruct (Nat.eqb _ 1); [exact Hsame|].
    rewrite Hcache. simpl js_ceil_half. cbv iota.
    destruct (evenLoop_gap (Z.to_nat ((c + 1) / 2)) s (Z.to_nat c))
      as (s' & Hret & Hg & Hidx' & Hnd'); auto; [lia|].
    exists s'. split; [exact Hret|]. split; [exact Hg|]. split; [|exact Hnd'].
    destruct (evenLoop_frame _ _ _ (f_equal stateAfter Hret)) as (Hst & Hca & _).
    repeat split; congruence.
  - apply getColumnHeights_none in Eh.
    exfalso. apply (countUp_not_nil c Hc). rewrite <- Hidx.
    unfold colIndices. now rewrite Eh.
Qed.

(** ** The height query reads the columns by index *)

Lemma columns_keyLe (cs : list (Z * list item)) :
  StronglySorted (keyLe colKey) cs -> StronglySorted Z.le (map fst cs).
Proof.
  induction 1 as [|c cs Hs IH Hc]; simpl; constructor; [exact IH|].
  apply Forall_map. eapply Forall_impl; [|exact Hc].
  intros c' (a & b & Ha & Hb & Hle). unfold colKey in *.
  injection Ha as <-. injection Hb as <-. exact Hle.
Qed.

Lemma sortedColumns_order (cs : list (Z * list item)) :
  Permutation (_sortItemsByIndex colKey cs) cs
  /\ StronglySorted Z.le (map fst (_sortItemsByIndex colKey cs))
  /\ (forall v, filter (hasKey colKey v) (_sortItemsByIndex colKey cs)
                = filter (hasKey colKey v) cs).
Proof.
  split; [apply sort_perm|]. split; [|intros v; apply sort_hasKey].
  apply columns_keyLe, sort_keyLe. apply Forall_forall. intros c _. discriminate.
Qed.

Lemma column_of_index (d : dom) (cs : list (Z * list item)) (n p : nat) (v : Z) :
  Permutation cs (columns d) -> map fst cs = countUp n ->
  nth_error (map (fun c => colHeight (snd c)) cs) p = Some v ->
  colHeight (colItems (Some (Z.of_nat p + 1)) d) = v.
Proof.
  intros Hp Hidx Hv.
  destruct (nth_error cs p) as [[i its]|] eqn:Ec;
    [|rewrite nth_error_map, Ec in Hv; discriminate].
  rewrite nth_error_map, Ec in Hv. simpl in Hv. injection Hv as <-.
  assert (Hi : i = Z.of_nat p + 1).
  { apply (nth_countUp n p). rewrite <- Hidx, nth_error_map, Ec. reflexivity. }
  subst i.
  assert (Hin : In (Z.of_nat p + 1, its) (columns d)).
  { apply (Permutation_in _ Hp). eapply nth_error_In. exact Ec. }
  assert (Hnd : NoDup (map fst (columns d))).
  { apply (Permutation_NoDup (Permutation_map fst Hp)).
    rewrite Hidx. apply NoDup_countUp. }
  rewrite colItems_columns, (column_by_index _ _ its Hnd Hin). reflexivity.
Qed.

(** C6: the heights are read from the columns in ascending order of
    their index, whatever their order in the document (columns with
    the same index keep their document order).  Over that sequence the
    query returns as shortest the earliest column of minimal height and
    as highest the earliest column of maximal height: the column
    recorded is strictly below (above) every column before it, so a
    tie keeps the lower index.  When the indices are [1 .. n], the
    column recorded is the column of that index, and its height is the
    value recorded. *)
Theorem getColumnHeights_earliest (d : dom) :
  columns d <> [] ->
  exists cs h ps vs ph vh,
    Permutation cs (columns d)
    /\ StronglySorted Z.le (map fst cs)
    /\ (forall v, filter (hasKey colKey v) cs = filter (hasKey colKey v) (columns d))
    /\ _getColumnHeights d = Some h
    /\ shortestCol h = Some (Z.of_nat ps + 1)
    /\ shortestValue h = Some vs
    /\ highestCol h = Some (Z.of_nat ph + 1)
    /\ highestValue h = Some vh
    /\ (let heights := map (fun c => colHeight (snd c)) cs in
        nth_error heights ps = Some vs
        /\ nth_error heights ph = Some vh
        /\ (forall j w, nth_error heights j = Some w -> vs <= w <= vh)
        /\ (forall j w, (j < ps)%nat -> nth_error heights j = Some w -> vs < w)
        /\ (forall j w, (j < ph)%nat -> nth_error heights j = Some w -> w < vh))
    /\ (forall n, map fst cs = countUp n ->
          colHeight (colItems (shortestCol h) d) = vs
          /\ colHeight (colItems (highestCol h) d) = vh).
Proof.
  intros Hcols.
  destruct (getColumnHeights_scan d Hcols)
    as (h & ps & vs & ph & vh & Hh & Hsc & Hsv & Hhc & Hhv & Hfs & Hfh).
  destruct (sortedColumns_order (columns d)) as (Hp & Hsorted & Hstable).
  exists (_sortItemsByIndex colKey (columns d)), h, ps, vs, ph, vh.
  destruct (firstBest_bounds _ _ _ _ _ Hfs Hfh) as (Hns & Hnh & Hb).
  destruct Hfs as (_ & _ & Hs3). destruct Hfh as (_ & _ & Hh3).
  unfold sortedHeights in *.
  split; [exact Hp|]. split; [exact Hsorted|]. split; [exact Hstable|].
  repeat (split; [assumption|]). split.
  - cbv zeta. split; [exact Hns|]. split; [exact Hnh|]. split; [exact Hb|]. split.
    + intros j w Hlt Hj. specialize (Hs3 j w Hlt Hj). now apply Z.ltb_lt in Hs3.
    + intros j w Hlt Hj. specialize (Hh3 j w Hlt Hj).
      rewrite Z.gtb_ltb in Hh3. now apply Z.ltb_lt in Hh3.
  - intros n Hidx. rewrite Hsc, Hhc. split.
    + exact (column_of_index d _ n ps vs Hp Hidx Hns).
    + exact (column_of_index d _ n ph vh Hp Hidx Hnh).
Qed.

(** The columns stand in the document in the order 3, 1, 2, with the
    heights 100, 900 and 100: column 2 is the shortest and column 1 the
    highest.  (In document order the first of the shortest would be
    column 3.) *)
Lemma getColumnHeights_earliest_witness :
  let d := [Col 3 [mkItem 2 None 100]; Col 1 [mkItem 0 None 900];
            Col 2 [mkItem 1 None 100]; Clearer] in
  exists h,
    _getColumnHeights d = Some h
    /\ shortestCol h = Some 2 /\ shortestValue h = Some 100
    /\ highestCol h = Some 1 /\ highestValue h = Some 900
    /\ colHeight (colItems (shortestCol h) d) = 100
    /\ colHeight (colItems (highestCol h) d) = 900.
Proof.
  intros d.
  assert (Hcols : columns d <> []) by (simpl; discriminate).
  destruct (getColumnHeights_earliest d Hcols)
    as (cs & h & ps & vs & ph & vh & _ & _ & _ & Hh & _).
  exists h. split; [exact Hh|].
  vm_compute in Hh. injection Hh as <-. repeat split.
Defined.

(** ** The theorems on sample grids *)

Ltac distinct := repeat constructor; simpl; intuition discriminate.

Lemma reLayout_idempotent_witness :
  NoDup (idsOf (el afterRemoval))
  /\ exists s1,
       _reLayout wide700 afterRemoval = Ret s1
       /\ _reLayout wide700 s1 = Ret s1
       /\ columns (el s1)
          = [(1, [mkItem 1 (Some 0) 100]); (2, [mkItem 2 (Some 1) 100]); (3, [])].
Proof.
  assert (Hnd : NoDup (idsOf (el afterRemoval))) by distinct.
  split; [exact Hnd|].
  destruct (reLayout_idempotent wide700 afterRemoval Hnd) as [_ H].
  destruct H as (s1 & s2 & H1 & H2 & _ & E); [discriminate|].
  subst s2. exists s1. split; [exact H1|]. split; [exact H2|].
  vm_compute in H1. injection H1 as <-. reflexivity.
Defined.


Lemma evenBottom_gentle_witness :
  laid 2 tallFirst
  /\ gap (el tallFirst) = 600
  /\ exists s',
       evenBottom tallFirst = Ret s'
       /\ gap (el s') <= gap (el tallFirst)
       /\ columns (el s')
          = [(1, [mkItem 0 (Some 0) 100; mkItem 1 (Some 1) 200]);
             (2, [mkItem 2 (Some 2) 300])].
Proof.
  assert (Hl : laid 2 tallFirst) by (repeat split).
  assert (Hc : 1 <= 2) by lia.
  assert (Hnd : NoDup (idsOf (el tallFirst))) by distinct.
  assert (Hrun : gentleRun (Z.to_nat ((2 + 1) / 2))
                   (selector (settings tallFirst)) (el tallFirst)).
  { vm_compute. repeat split; discriminate. }
  split; [exact Hl|]. split; [reflexivity|].
  destruct (evenBottom_gentle tallFirst 2 Hl Hc Hnd Hrun) as (s' & Hret & Hg & _).
  exists s'. split; [exact Hret|]. split; [exact Hg|].
  vm_compute in Hret. injection Hret as <-. reflexivity.
Defined.

(** * Further properties of the code *)

(** ** Column count and container width *)

Lemma getColumnCount_finite (st : Settings) (m : metrics) :
  toNumber (colWidth st) + toNumber (colPadding st) <> 0 ->
  _getColumnCount st m
  = Num (Z.max ((measuredWidth st m - windowPadding st)
                / (toNumber (colWidth st) + toNumber (colPadding st)))
               (minCols st)).
Proof.
  intros Hne. unfold _getColumnCount. rewrite js_lt_max. unfold js_floor_div.
  destruct (Z.eqb_spec (toNumber (colWidth st) + toNumber (colPadding st)) 0);
    [contradiction|reflexivity].
Qed.

(** X1. A wider container never has fewer columns. *)
Theorem getColumnCount_monotone (st : Settings) (m1 m2 : metrics) :
  0 < toNumber (colWidth st) + toNumber (colPadding st) ->
  measuredWidth st m1 <= measuredWidth st m2 ->
  exists c1 c2,
    _getColumnCount st m1 = Num c1
    /\ _getColumnCount st m2 = Num c2
    /\ c1 <= c2.
Proof.
  intros Hper Hle.
  rewrite !getColumnCount_finite by lia.
  do 2 eexists. split; [reflexivity|]. split; [reflexivity|].
  apply Z.max_le_compat_r. apply Z.div_le_mono; lia.
Qed.

Lemma getColumnCount_monotone_witness :
  exists c1 c2,
    _getColumnCount (merge usualOptions) wide500 = Num c1
    /\ _getColumnCount (merge usualOptions) wide700 = Num c2
    /\ c1 <= c2.
Proof.
  apply getColumnCount_monotone; vm_compute; [reflexivity|discriminate].
Defined.

(** X2. The container width is that of the columns with the padding
    between them.  When the column count is not forced up to [minCols],
    that width and one more padding fit in the measured width less the
    window padding, and a further [colWidth + colPadding] on top of
    them does not: the count reserves [colWidth + colPadding] for each
    column, the last one too.  (A further column without a padding
    after it may still fit.) *)
Theorem getContainerWidth_fits (st : Settings) (m : metrics) :
  let cw := toNumber (colWidth st) in
  let cp := toNumber (colPadding st) in
  let room := (if centered st then refWidth m else elWidth m) - windowPadding st in
  0 < cw + cp -> minCols st <= room / (cw + cp) ->
  exists c w,
    _getColumnCount st m = Num c
    /\ _getContainerWidth st m = Num w
    /\ w = c * cw + (c - 1) * cp
    /\ c * (cw + cp) <= room < (c + 1) * (cw + cp)
    /\ w + cp <= room < w + cp + (cw + cp)
    /\ (0 <= cp -> w <= room).
Proof.
  intros cw cp room Hper Hmin.
  unfold _getContainerWidth. rewrite getColumnCount_finite by (fold cw cp; lia).
  change (measuredWidth st m - windowPadding st) with room.
  fold cw cp. rewrite Z.max_l by exact Hmin.
  exists (room / (cw + cp)), (room / (cw + cp) * (cw + cp) + - cp).
  split; [reflexivity|]. split; [reflexivity|]. split; [ring|].
  pose proof (Z.mul_div_le room (cw + cp) Hper).
  pose proof (Z.mul_succ_div_gt room (cw + cp) Hper).
  split; [nia|]. split; [nia|]. intros Hcp. nia.
Qed.

Lemma getContainerWidth_fits_witness :
  exists c w,
    _getColumnCount (merge usualOptions) {| elWidth := 885; refWidth := 0 |} = Num c
    /\ _getContainerWidth (merge usualOptions) {| elWidth := 885; refWidth := 0 |}
       = Num w
    /\ c = 3 /\ w = 620
    /\ w + 10 <= 885 - 50 < w + 10 + (200 + 10).
Proof.
  assert (Hper : 0 < toNumber (colWidth (merge usualOptions))
                     + toNumber (colPadding (merge usualOptions)))
    by (vm_compute; reflexivity).
  assert (Hmin : minCols (merge usualOptions)
                 <= ((if centered (merge usualOptions) then 0 else 885)
                     - windowPadding (merge usualOptions))
                    / (toNumber (colWidth (merge usualOptions))
                       + toNumber (colPadding (merge usualOptions))))
    by (vm_compute; discriminate).
  destruct (getContainerWidth_fits (merge usualOptions)
              {| elWidth := 885; refWidth := 0 |} Hper Hmin)
    as (c & w & Hc & Hw & Hform & _ & Hfit & _).
  exists c, w. split; [exact Hc|]. split; [exact Hw|].
  vm_compute in Hc. injection Hc as <-.
  split; [reflexivity|]. split; [exact Hform|exact Hfit].
Defined.

(** ** What every call keeps *)

Lemma allItems_setSortIndex (id : nat) (v : Z) (d : dom) :
  allItems (setSortIndex id v d) = map (attrItem id v) (allItems d).
Proof.
  unfold allItems. induction d as [|[i its|x|] d IH]; simpl; [reflexivity| | |].
  - now rewrite map_app, IH.
  - now rewrite IH.
  - exact IH.
Qed.

Lemma ident_attrItem (id : nat) (v : Z) (x : item) : ident (attrItem id v x) = ident x.
Proof. unfold attrItem. now destruct (Nat.eqb (ident x) id). Qed.

Lemma idsOf_setSortIndex (id : nat) (v : Z) (d : dom) :
  idsOf (setSortIndex id v d) = idsOf d.
Proof.
  unfold idsOf. rewrite allItems_setSortIndex, map_map.
  apply map_ext. intros x. apply ident_attrItem.
Qed.

Lemma hasCol_Num (num : jsnum) (d : dom) :
  hasCol num d = true -> exists t, num = Num t /\ In t (colIndices d).
Proof.
  destruct num as [t| | |]; intros H.
  - exists t. split; [reflexivity|]. now apply hasCol_In.
  - unfold hasCol in H. apply existsb_exists in H.
    destruct H as ([i its|x|] & _ & H); discriminate.
  - unfold hasCol in H. apply existsb_exists in H.
    destruct H as ([i its|x|] & _ & H); discriminate.
  - unfold hasCol in H. apply existsb_exists in H.
    destruct H as ([i its|x|] & _ & H); discriminate.
Qed.

Lemma NoDup_moveTo_any (num : jsnum) (it : item) (d : dom) :
  NoDup (idsOf d) -> NoDup (colIndices d) -> NoDup (idsOf (moveTo num it d)).
Proof.
  intros Hnd Hidx.
  destruct (hasCol num d) eqn:E.
  - destruct (hasCol_Num num d E) as (t & -> & Hin). now apply NoDup_moveTo.
  - unfold moveTo. now rewrite E.
Qed.

Lemma NoDup_expectedIndices (n : jsnum) : NoDup (expectedIndices n).
Proof. destruct n; simpl; try constructor. apply NoDup_countUp. Qed.

Lemma moveItem_keeps (n : jsnum) (i : nat) (x : item) (s : lace) :
  colIndices (el s) = expectedIndices n -> NoDup (idsOf (el s)) ->
  colIndices (el (moveItem i x s)) = expectedIndices n
  /\ NoDup (idsOf (el (moveItem i x s))).
Proof.
  intros Hidx Hnd. simpl. split.
  - now rewrite colIndices_moveTo, colIndices_setSortIndex.
  - apply NoDup_moveTo_any.
    + now rewrite idsOf_setSortIndex.
    + rewrite colIndices_setSortIndex, Hidx. apply NoDup_expectedIndices.
Qed.

Lemma eachFrom_keeps (n : jsnum) (items : list item) (i : nat) (s : lace) :
  colIndices (el s) = expectedIndices n -> NoDup (idsOf (el s)) ->
  colIndices (el (eachFrom i items s)) = expectedIndices n
  /\ NoDup (idsOf (el (eachFrom i items s))).
Proof.
  revert i s. induction items as [|x rest IH]; intros i s Hidx Hnd; [now split|].
  destruct (moveItem_keeps n i x s Hidx Hnd) as [H1 H2].
  cbn [eachFrom]. now apply IH.
Qed.

Lemma evenStep_keeps (n : jsnum) (sel : option string) (d d' : dom) :
  colIndices d = expectedIndices n -> NoDup (idsOf d) ->
  evenStep sel d = Some d' ->
  colIndices d' = expectedIndices n /\ NoDup (idsOf d').
Proof.
  intros Hidx Hnd. unfold evenStep.
  destruct (_getColumnHeights d) as [h|]; [|discriminate].
  destruct sel; [|intros [= <-]; now split].
  destruct (rev _) as [|it r]; intros [= <-]; [now split|]. split.
  - now rewrite colIndices_moveTo.
  - apply NoDup_moveTo_any; [exact Hnd|]. rewrite Hidx. apply NoDup_expectedIndices.
Qed.

Lemma evenLoop_keeps (n : jsnum) (k : nat) (s s' : lace) :
  colIndices (el s) = expectedIndices n -> NoDup (idsOf (el s)) ->
  stateAfter (evenLoop k s) = Some s' ->
  colIndices (el s') = expectedIndices n /\ NoDup (idsOf (el s')).
Proof.
  revert s. induction k as [|k IH]; intros s Hidx Hnd; simpl.
  - intros [= <-]. now split.
  - destruct (evenStep _ _) as [d|] eqn:E; simpl.
    + destruct (evenStep_keeps n _ _ _ Hidx Hnd E) as [H1 H2]. now apply IH.
    + intros [= <-]. now split.
Qed.

Lemma evenBottom_keeps (n : jsnum) (s s' : lace) :
  colIndices (el s) = expectedIndices n -> NoDup (idsOf (el s)) ->
  stateAfter (evenBottom s) = Some s' ->
  colIndices (el s') = expectedIndices n /\ NoDup (idsOf (el s')).
Proof.
  intros Hidx Hnd. unfold evenBottom.
  destruct (find _ _) as [|x l]; [intros [= <-]; now split|].
  destruct (_getColumnHeights _) as [h|]; [|intros [= <-]; now split].
  destruct (gapOf h <=? 500); [intros [= <-]; now split|].
  destruct (Nat.eqb _ 1); [intros [= <-]; now split|].
  destruct (js_ceil_half _); simpl; try (intros [= <-]; now split); try discriminate.
  now apply evenLoop_keeps.
Qed.

Lemma colIndices_newCols (n : jsnum) : colIndices (newCols n) = expectedIndices n.
Proof. destruct n; simpl; try reflexivity. apply colIndices_emptyCols. Qed.

Lemma allItems_newCols (n : jsnum) : allItems (newCols n) = [].
Proof. destruct n; simpl; try reflexivity. apply allItems_emptyCols. Qed.

Lemma createColumns_plain (s s' : lace) :
  colIndices (el s) = [] ->
  stateAfter (_createColumns s) = Some s' ->
  s' = setEl s (newCols (cols (settings s)) ++ el s)
  /\ colIndices (el s') = expectedIndices (cols (settings s))
  /\ idsOf (el s') = idsOf (el s).
Proof.
  intros Hcol H.
  assert (Hfin : cols (settings s) <> PInf).
  { intros E. unfold _createColumns in H. rewrite E in H. discriminate. }
  rewrite createColumns_newCols in H by exact Hfin. injection H as <-.
  split; [reflexivity|]. simpl. split.
  - now rewrite colIndices_app, Hcol, app_nil_r, colIndices_newCols.
  - unfold idsOf. now rewrite allItems_app, allItems_newCols.
Qed.

Lemma colIndices_placeFrom (n : jsnum) (k : Z) (items : list item)
  (last : option jsnum) (i : nat) (C : dom) :
  colIndices (placeFrom n k last i items C) = colIndices C.
Proof.
  revert k last i C. induction items as [|x rest IH]; intros k last i C; [reflexivity|].
  cbn [placeFrom]. now rewrite IH, colIndices_appendTo.
Qed.

Lemma NoDup_notCol (d : dom) : NoDup (idsOf d) -> NoDup (idsOf (filter notCol d)).
Proof.
  unfold idsOf, allItems.
  induction d as [|[i its|x|] d IH]; simpl; intros H; [constructor| | |].
  - rewrite map_app in H. apply NoDup_app_inv in H. now apply IH.
  - apply NoDup_cons_iff in H. destruct H as [Hx H].
    constructor; [|now apply IH].
    intros Hin. apply Hx. rewrite in_map_iff in *.
    destruct Hin as (y & E & Hy). exists y. split; [exact E|].
    now apply allItems_notCol_incl.
  - now apply IH.
Qed.

(** After a relayout the columns are those of the column count and no
    element is in two places, whatever the grid was like before. *)
Lemma reLayout_keeps (m : metrics) (s s' : lace) :
  NoDup (idsOf (el s)) ->
  stateAfter (_reLayout m s) = Some s' ->
  settings s' = settings s
  /\ cache_cols (cache s') = cache_cols (cache s)
  /\ colIndices (el s') = expectedIndices (cols (settings s))
  /\ NoDup (idsOf (el s'))
  /\ lastOk (lastColAppended (cache s')).
Proof.
  intros Hnd H.
  pose proof (reLayout_lastOk m s s' H) as Hok.
  assert (Hfin : cols (settings s) <> PInf).
  { intros E. rewrite (reLayout_hangs m s E) in H. discriminate. }
  destruct (selector (settings s)) as [sel|] eqn:Esel.
  - assert (Hsel : selector (settings s) <> None) by congruence.
    destruct (reLayout_renumbered m s Hsel Hfin Hnd) as (s0 & Hret & _ & Hnd' & _).
    rewrite Hret in H. injection H as <-.
    assert (Hloose : newCols (cols (settings s)) = [] ->
              settings s0 = settings s
              /\ cache_cols (cache s0) = cache_cols (cache s)
              /\ colIndices (el s0) = expectedIndices (cols (settings s))).
    { intros Hnew.
      destruct (reLayout_loose m s Hsel Hfin Hnew) as (s1 & Hr & Hst & Hca & Hel & _).
      rewrite Hret in Hr. injection Hr as <-.
      split; [exact Hst|]. split; [now rewrite Hca, cacheFrom_cache_cols|].
      rewrite Hel, colIndices_app, colIndices_clearers, colIndices_Loose.
      now rewrite <- colIndices_newCols, Hnew. }
    destruct (cols (settings s)) as [c| | |] eqn:Ecols; try congruence;
      try (destruct Hloose as (H1 & H2 & H3); [reflexivity|]; repeat split; assumption).
    destruct (Z.le_gt_cases 1 c) as [Hc|Hc].
    + destruct (reLayout_closed m s c Hsel Ecols Hc Hnd) as (s1 & Hr & Hst & Hca & Hel & _).
      rewrite Hret in Hr. injection Hr as <-.
      split; [now rewrite Hst|]. split; [now rewrite Hca, cacheFrom_cache_cols|].
      split; [|split; assumption].
      rewrite Hel, colIndices_app, colIndices_placeFrom, colIndices_emptyCols,
        colIndices_clearers, app_nil_r. reflexivity.
    + destruct Hloose as (H1 & H2 & H3).
      * simpl. replace (Z.to_nat c) with 0%nat by lia. reflexivity.
      * repeat split; assumption.
  - destruct (reLayout_no_selector m s Esel Hfin) as (s0 & Hret & Hst & Hca & Hel & _).
    rewrite Hret in H. injection H as <-.
    split; [exact Hst|]. split; [now rewrite Hca|].
    split; [|split; [|exact Hok]].
    + now rewrite Hel, colIndices_app, colIndices_notCol, app_nil_r, colIndices_newCols.
    + rewrite Hel. unfold idsOf. rewrite allItems_app, allItems_newCols. simpl.
      now apply NoDup_notCol.
Qed.

Lemma filter_twice {A : Type} (f g : A -> bool) (l : list A) :
  filter f (filter g l) = filter (fun x => g x && f x) l.
Proof.
  induction l as [|x l IH]; simpl; [reflexivity|].
  destruct (g x); simpl; [destruct (f x)|]; now rewrite IH.
Qed.

Lemma allItems_detachAll (items : list item) (d : dom) :
  allItems (detachAll items d)
  = filter (fun x => negb (holds (ident x) items)) (allItems d).
Proof.
  revert d. induction items as [|y items IH]; intros d.
  - simpl. symmetry. apply filter_true.
  - cbn [detachAll fold_left]. unfold detachAll in IH.
    rewrite IH, allItems_detach, filter_twice.
    apply filter_ext. intros x. unfold isNot, holds. simpl.
    rewrite (Nat.eqb_sym (ident x) (ident y)).
    now destruct (Nat.eqb (ident y) (ident x)), (existsb _ items).
Qed.

Lemma NoDup_detachAll (items : list item) (d : dom) :
  NoDup (idsOf d) -> NoDup (idsOf (detachAll items d)).
Proof.
  intros H. unfold idsOf. rewrite allItems_detachAll. now apply NoDup_ident_filter.
Qed.

Lemma colIndices_detachAll (items : list item) (d : dom) :
  colIndices (detachAll items d) = colIndices d.
Proof.
  revert d. induction items as [|y items IH]; intros d; [reflexivity|].
  cbn [detachAll fold_left]. unfold detachAll in IH.
  now rewrite IH, colIndices_detach.
Qed.

Lemma append_keeps (items : list item) (s s' : lace) :
  tidy s -> stateAfter (append items s) = Some s' -> tidy s'.
Proof.
  intros (Hcc & Hidx & Hnd & Hok) H.
  assert (Hlast : lastOk (lastColAppended (cache s')))
    by (eapply append_lastOk; eassumption).
  unfold append in H. destruct items as [|x l]; [injection H as <-; repeat split; auto|].
  destruct (evenBottom s) as [s1|s1|] eqn:E; simpl in H; try discriminate.
  - destruct (evenBottom_frame s s1) as (Hst & Hca & _); [now rewrite E|].
    destruct (evenBottom_keeps (cols (settings s)) s s1 Hidx Hnd) as [H1 H2];
      [now rewrite E|].
    injection H as <-.
    destruct (eachFrom_keeps (cols (settings s)) (x :: l) 0 s1 H1 H2) as [H3 H4].
    unfold _moveItemsIntoCols.
    repeat split; try assumption.
    + rewrite eachFrom_cache, cacheFrom_cache_cols, eachFrom_settings. congruence.
    + now rewrite eachFrom_settings, Hst.
  - destruct (evenBottom_frame s s1) as (Hst & Hca & _); [now rewrite E|].
    destruct (evenBottom_keeps (cols (settings s)) s s1 Hidx Hnd) as [H1 H2];
      [now rewrite E|].
    injection H as <-. repeat split; try assumption; congruence.
Qed.

Lemma reLayout_tidy (m : metrics) (s s' : lace) :
  cache_cols (cache s) = cols (settings s) -> NoDup (idsOf (el s)) ->
  stateAfter (_reLayout m s) = Some s' -> tidy s'.
Proof.
  intros Hcc Hnd H.
  destruct (reLayout_keeps m s s' Hnd H) as (Hst & Hca & Hidx & Hnd' & Hok).
  repeat split; try assumption; congruence.
Qed.

Lemma step_keeps (s s' : lace) : tidy s -> step s s' -> tidy s'.
Proof.
  intros Ht Hstep. pose proof Ht as (Hcc & Hidx & Hnd & Hok).
  destruct Hstep as [items s s' H|m items s s' H|s s' H|m s s' H|s s' H].
  - eapply append_keeps; eassumption.
  - unfold remove in H. destruct items as [|x l]; [now injection H as <-|].
    apply (reLayout_tidy m _ _) in H; [exact H|exact Hcc|].
    now apply NoDup_detachAll.
  - unfold removeAll in H.
    apply createColumns_plain in H; [|apply colIndices_clearers].
    destruct H as (-> & H1 & H2). simpl in *.
    repeat split; simpl; try assumption.
    rewrite H2. unfold idsOf. rewrite allItems_clearers. constructor.
  - unfold _resize in H. destruct (js_eq _ _); [now injection H as <-|].
    apply (reLayout_tidy m _ _) in H; [exact H|reflexivity|exact Hnd].
  - destruct (evenBottom_frame s s' H) as (Hst & Hca & _).
    destruct (evenBottom_keeps _ s s' Hidx Hnd H) as [H1 H2].
    repeat split; try assumption; congruence.
Qed.

Lemma findChildren_plain (sel : option string) (d : dom) :
  colIndices d = [] -> findChildren sel d = find sel d.
Proof.
  destruct sel; [|reflexivity]. unfold colIndices, find, findChildren, allItems.
  induction d as [|[i its|x|] d IH]; simpl; intros H.
  - reflexivity.
  - discriminate.
  - f_equal. now apply IH.
  - now apply IH.
Qed.

Lemma init_keeps (m : metrics) (s s' : lace) :
  cache_cols (cache s) = cols (settings s) -> plain (el s) ->
  lastOk (lastColAppended (cache s)) ->
  stateAfter (_init m s) = Some s' -> tidy s'.
Proof.
  intros Hcc [Hcol Hnd] Hok H.
  pose proof (init_lastOk m s s' Hok H) as Hok'.
  unfold _init in H.
  destruct (createColumns_cases s) as [[d0 Hd]|Hd]; rewrite Hd in H;
    [|discriminate].
  destruct (createColumns_plain s (setEl s d0) Hcol) as (E & Hidx & Hids);
    [now rewrite Hd|].
  rewrite E in *. clear E Hd d0.
  set (s1 := setEl s (newCols (cols (settings s)) ++ el s)) in *.
  assert (Hnd1 : NoDup (idsOf (el s1))) by now rewrite Hids.
  cbn [bind] in H.
  assert (Hs2 : forall o s2,
            o = (if bootstrapped (settings s1)
                 then evenBottom (_moveItemsIntoCols
                        (findChildren (selector (settings s1)) (el s1)) s1)
                 else Ret s1) ->
            stateAfter o = Some s2 ->
            settings s2 = settings s
            /\ cache_cols (cache s2) = cols (settings s)
            /\ colIndices (el s2) = expectedIndices (cols (settings s))
            /\ NoDup (idsOf (el s2))).
  { intros o s2 -> H2. destruct (bootstrapped (settings s1)).
    - unfold _moveItemsIntoCols in H2.
      destruct (eachFrom_keeps (cols (settings s))
                  (findChildren (selector (settings s1)) (el s1)) 0 s1 Hidx Hnd1)
        as [H3 H4].
      destruct (evenBottom_frame _ s2 H2) as (Hst & Hca & _).
      destruct (evenBottom_keeps _ _ s2 H3 H4 H2) as [H5 H6].
      rewrite Hst, Hca, eachFrom_settings, eachFrom_cache, cacheFrom_cache_cols.
      repeat split; assumption.
    - injection H2 as <-. repeat split; assumption. }
  destruct (if bootstrapped (settings s1) then _ else _) as [s2|s2|] eqn:E2;
    simpl in H; try discriminate.
  - destruct (Hs2 _ s2 eq_refl eq_refl) as (Hst & Hca & Hidx2 & Hnd2).
    assert (Hs' : settings s' = settings s2 /\ cache s' = cache s2
                  /\ (el s' = el s2 \/ el s' = el s2 ++ [Clearer])).
    { injection H as <-.
      destruct (centered (settings s2)); simpl;
        destruct (existsb isClearer (el s2)); simpl; auto. }
    destruct Hs' as (Hst' & Hca' & Hel').
    split; [congruence|]. split; [|split; [|exact Hok']].
    + rewrite Hst', Hst. destruct Hel' as [-> | ->]; [exact Hidx2|].
      now rewrite colIndices_app, Hidx2, app_nil_r.
    + destruct Hel' as [-> | ->]; [exact Hnd2|].
      unfold idsOf. rewrite allItems_app. simpl. now rewrite app_nil_r.
  - destruct (Hs2 _ s2 eq_refl eq_refl) as (Hst & Hca & Hidx2 & Hnd2).
    injection H as <-. repeat split; try assumption; congruence.
Qed.

(** X4. From a container not touched before, the constructor returns a tidy
    instance, and every call on a tidy instance leaves a tidy instance:
    the columns are always those of the column count, numbered from 1
    without gaps, and no element is ever in two places. *)
Theorem tidy_invariant :
  (forall o m d s, plain d -> snd (Lace o m d) = Ret s -> tidy s)
  /\ (forall s s', tidy s -> step s s' -> tidy s').
Proof.
  split.
  - intros o m d s Hd H. unfold Lace in H. simpl in H.
    eapply init_keeps; [| | |rewrite H; reflexivity]; simpl; auto.
  - apply step_keeps.
Qed.

Lemma tidy_invariant_witness :
  plain (freshItems 4)
  /\ exists s s',
       snd (Lace usualOptions wide700 (freshItems 4)) = Ret s
       /\ remove wide700 [freshItem 1] s = Ret s'
       /\ tidy s /\ tidy s'.
Proof.
  assert (Hp : plain (freshItems 4)) by (split; [reflexivity|distinct]).
  split; [exact Hp|].
  destruct tidy_invariant as [Hnew Hstep].
  destruct (snd (Lace usualOptions wide700 (freshItems 4))) as [s| |] eqn:E;
    try (vm_compute in E; discriminate).
  pose proof (Hnew _ _ _ s Hp E) as Hs.
  destruct (remove wide700 [freshItem 1] s) as [s'| |] eqn:E';
    try (vm_compute in E; injection E as <-; vm_compute in E'; discriminate).
  exists s, s'. split; [reflexivity|]. split; [exact E'|]. split; [exact Hs|].
  apply (Hstep s s' Hs). apply (step_remove wide700 [freshItem 1]). now rewrite E'.
Defined.

(** ** The balancer loses nothing *)

Lemma filter_out_perm (it : item) (l : list item) :
  NoDup (map ident l) -> In it l ->
  Permutation (filter (isNot (ident it)) l ++ [it]) l.
Proof.
  induction l as [|x l IH]; simpl; [tauto|].
  intros Hnd. apply NoDup_cons_iff in Hnd. destruct Hnd as [Hx Hnd].
  intros [->|Hin].
  - unfold isNot at 1. rewrite Nat.eqb_refl. simpl.
    rewrite filter_isNot_absent by exact Hx.
    symmetry. apply Permutation_cons_append.
  - unfold isNot at 1. destruct (Nat.eqb_spec (ident x) (ident it)) as [E|_]; simpl.
    + exfalso. apply Hx. rewrite E. now apply in_map.
    + constructor. now apply IH.
Qed.

Lemma moveTo_perm (num : jsnum) (it : item) (d : dom) :
  NoDup (idsOf d) -> NoDup (colIndices d) -> In it (allItems d) ->
  Permutation (allItems (moveTo num it d)) (allItems d).
Proof.
  intros Hnd Hidx Hin. unfold moveTo.
  destruct (hasCol num d) eqn:E; [|reflexivity].
  destruct (hasCol_Num num d E) as (t & -> & Ht).
  rewrite allItems_appendTo, allItems_detach by now rewrite colIndices_detach.
  now apply filter_out_perm.
Qed.

Lemma colItems_incl (c : option Z) (d : dom) (it : item) :
  In it (colItems c d) -> In it (flat_map snd (columns d)).
Proof.
  induction d as [|[i its|x|] d IH]; simpl; auto.
  rewrite !in_app_iff. destruct (selectsOpt c i); simpl; tauto.
Qed.

Lemma columns_items_incl (d : dom) (it : item) :
  In it (flat_map snd (columns d)) -> In it (allItems d).
Proof.
  unfold allItems. induction d as [|[i its|x|] d IH]; simpl; auto.
  rewrite !in_app_iff. tauto.
Qed.

(** The items outside the columns stay where they are when an item of a
    column moves. *)
Lemma allItems_split (d : dom) :
  Permutation (allItems d) (flat_map snd (columns d) ++ allItems (filter notCol d)).
Proof.
  unfold allItems. induction d as [|[i its|x|] d IH]; simpl; [reflexivity| | |].
  - rewrite <- app_assoc. now apply Permutation_app_head.
  - rewrite IH. apply Permutation_middle.
  - exact IH.
Qed.

Lemma notCol_moveTo (num : jsnum) (it : item) (d : dom) :
  NoDup (idsOf d) -> In it (flat_map snd (columns d)) ->
  filter notCol (moveTo num it d) = filter notCol d.
Proof.
  intros Hnd Hin. unfold moveTo. destruct (hasCol num d); [|reflexivity].
  assert (Happ : forall e, filter notCol (appendTo num it e) = filter notCol e).
  { induction e as [|[i its|x|] e IHe]; simpl; try congruence.
    destruct (selects num i); simpl; exact IHe. }
  rewrite Happ, notCol_detach. apply detach_absent.
  unfold idsOf in Hnd. rewrite (Permutation_map ident (allItems_split d)) in Hnd.
  rewrite map_app in Hnd. apply NoDup_app_inv in Hnd.
  destruct Hnd as (_ & _ & Hdisj). apply Hdisj. now apply in_map.
Qed.

Lemma evenStep_conserves (n : jsnum) (sel : option string) (d d' : dom) :
  colIndices d = expectedIndices n -> NoDup (idsOf d) ->
  evenStep sel d = Some d' ->
  Permutation (allItems d') (allItems d) /\ filter notCol d' = filter notCol d.
Proof.
  intros Hidx Hnd. unfold evenStep.
  destruct (_getColumnHeights d) as [h|]; [|discriminate].
  destruct sel; [|intros [= <-]; now split].
  destruct (rev (colItems (highestCol h) d)) as [|it r] eqn:Erev;
    intros [= <-]; [now split|].
  assert (Hin : In it (flat_map snd (columns d))).
  { apply (colItems_incl (highestCol h)). apply in_rev. rewrite Erev. now left. }
  split.
  - apply moveTo_perm; [exact Hnd| |now apply columns_items_incl].
    rewrite Hidx. apply NoDup_expectedIndices.
  - now apply notCol_moveTo.
Qed.

Lemma evenLoop_conserves (n : jsnum) (k : nat) (s s' : lace) :
  colIndices (el s) = expectedIndices n -> NoDup (idsOf (el s)) ->
  stateAfter (evenLoop k s) = Some s' ->
  Permutation (allItems (el s')) (allItems (el s))
  /\ filter notCol (el s') = filter notCol (el s).
Proof.
  revert s. induction k as [|k IH]; intros s Hidx Hnd; simpl.
  - intros [= <-]. now split.
  - destruct (evenStep _ _) as [d|] eqn:E; simpl.
    + destruct (evenStep_keeps n _ _ _ Hidx Hnd E) as [H1 H2].
      destruct (evenStep_conserves n _ _ _ Hidx Hnd E) as [H3 H4].
      intros H. destruct (IH (setEl s d) H1 H2 H) as [H5 H6]. simpl in *.
      split; [now rewrite H5|congruence].
    + intros [= <-]. now split.
Qed.

Lemma evenBottom_perm (n : jsnum) (s s' : lace) :
  colIndices (el s) = expectedIndices n -> NoDup (idsOf (el s)) ->
  stateAfter (evenBottom s) = Some s' ->
  Permutation (allItems (el s')) (allItems (el s))
  /\ filter notCol (el s') = filter notCol (el s).
Proof.
  intros Hidx Hnd. unfold evenBottom.
  destruct (find _ _) as [|x l]; [intros [= <-]; now split|].
  destruct (_getColumnHeights _) as [h|]; [|intros [= <-]; now split].
  destruct (gapOf h <=? 500); [intros [= <-]; now split|].
  destruct (Nat.eqb _ 1); [intros [= <-]; now split|].
  destruct (js_ceil_half _); simpl; try (intros [= <-]; now split); try discriminate.
  now apply (evenLoop_conserves n).
Qed.

(** X8. On a tidy instance [evenBottom] only moves items from column to
    column: the elements of the grid, with their sort indices and
    heights, are the same after the call, so are the items in the
    columns taken together (hence their total height), the items
    outside the columns and the clearers, the settings and the cache. *)
Theorem evenBottom_conserves (s s' : lace) :
  tidy s -> stateAfter (evenBottom s) = Some s' ->
  Permutation (allItems (el s')) (allItems (el s))
  /\ Permutation (flat_map snd (columns (el s'))) (flat_map snd (columns (el s)))
  /\ colHeight (flat_map snd (columns (el s')))
     = colHeight (flat_map snd (columns (el s)))
  /\ filter notCol (el s') = filter notCol (el s)
  /\ colIndices (el s') = colIndices (el s)
  /\ settings s' = settings s /\ cache s' = cache s.
Proof.
  intros (Hcc & Hidx & Hnd & Hok) H.
  destruct (evenBottom_perm _ s s' Hidx Hnd H) as [Hp Hloose].
  destruct (evenBottom_keeps _ s s' Hidx Hnd H) as [Hidx' _].
  destruct (evenBottom_frame s s' H) as (Hst & Hca & _).
  assert (Hcols : Permutation (flat_map snd (columns (el s')))
                    (flat_map snd (columns (el s)))).
  { apply (Permutation_app_inv_r (allItems (filter notCol (el s)))).
    rewrite <- (allItems_split (el s)). rewrite <- Hloose at 1.
    now rewrite <- (allItems_split (el s')). }
  repeat split; try assumption; try congruence.
  clear - Hcols. induction Hcols; simpl; lia.
Qed.

Lemma evenBottom_conserves_witness :
  tidy tallFirst
  /\ exists s',
       evenBottom tallFirst = Ret s'
       /\ Permutation (allItems (el s')) (allItems (el tallFirst))
       /\ colHeight (flat_map snd (columns (el s'))) = 600.
Proof.
  assert (Ht : tidy tallFirst).
  { split; [reflexivity|]. split; [reflexivity|]. split; [distinct|simpl; lia]. }
  split; [exact Ht|].
  destruct (evenBottom tallFirst) as [s'| |] eqn:E;
    try (vm_compute in E; discriminate).
  exists s'. split; [reflexivity|].
  destruct (evenBottom_conserves tallFirst s' Ht) as (Hp & _ & Hh & _);
    [now rewrite E|].
  split; [exact Hp|]. rewrite Hh. reflexivity.
Defined.

(** ** Where a relayout puts the items *)

Lemma rotation_nth (c l : Z) (n k : nat) :
  1 <= c -> (k < n)%nat ->
  nth_error (rotation c l n) k = Some ((l + Z.of_nat k) mod c + 1).
Proof.
  intros Hc. revert l k. induction n as [|n IH]; intros l k Hk; [lia|].
  destruct k as [|k]; simpl nth_error.
  - simpl. now rewrite Z.add_0_r.
  - cbn [rotation]. rewrite IH by lia. do 2 f_equal.
    replace (l mod c + 1 + Z.of_nat k) with (l mod c + (1 + Z.of_nat k)) by lia.
    rewrite Zplus_mod_idemp_l. f_equal. lia.
Qed.

Lemma columnOf_appendTo_other (id : nat) (num : jsnum) (it : item) (d : dom) :
  ident it <> id -> columnOf id (appendTo num it d) = columnOf id d.
Proof.
  intros Hne. induction d as [|[i its|x|] d IH]; simpl; auto.
  destruct (selects num i); simpl; [|now rewrite IH].
  rewrite holds_app. simpl.
  destruct (Nat.eqb_spec (ident it) id) as [E|_]; [contradiction|].
  rewrite !orb_false_r. now rewrite IH.
Qed.

Lemma columnOf_appendTo_fresh (t : Z) (x : item) (C : dom) :
  In t (colIndices C) -> ~ In (ident x) (idsOf C) ->
  columnOf (ident x) (appendTo (Num t) x C) = Some t.
Proof.
  intros Ht Hfresh.
  rewrite <- (detach_absent (ident x) C Hfresh) at 1.
  now apply columnOf_appendTo_detach.
Qed.

Lemma columnOf_placeFrom_other (id : nat) (n : jsnum) (k : Z) (items : list item)
  (last : option jsnum) (i : nat) (C : dom) :
  ~ In id (map ident items) ->
  columnOf id (placeFrom n k last i items C) = columnOf id C.
Proof.
  revert k last i C. induction items as [|x rest IH]; intros k last i C H; [reflexivity|].
  cbn [placeFrom]. simpl in H. rewrite IH by tauto.
  apply columnOf_appendTo_other. simpl. tauto.
Qed.

Lemma columnOf_placeFrom (c : Z) (items : list item) (k0 : Z) (last : option jsnum)
  (i : nat) (C : dom) (l : Z) (k : nat) (x : item) :
  1 <= c -> colIndices C = countUp (Z.to_nat c) ->
  NoDup (map ident items) ->
  (forall y, In y items -> ~ In (ident y) (idsOf C)) ->
  (last = Some (Num l) /\ 1 <= l) \/ (last = None /\ i = 0%nat /\ l = 0) ->
  nth_error items k = Some x ->
  columnOf (ident x) (placeFrom (Num c) k0 last i items C)
  = Some ((l + Z.of_nat k) mod c + 1).
Proof.
  intros Hc. revert k0 last i C l k.
  induction items as [|y rest IH]; intros k0 last i C l k HC Hnd Hfresh Hlast Hk;
    [destruct k; discriminate|].
  simpl in Hnd. apply NoDup_cons_iff in Hnd. destruct Hnd as [Hy Hnd].
  assert (Et : targetCol last (Num c) i = Num (l mod c + 1)).
  { destruct Hlast as [[-> H]|[-> [-> ->]]].
    - now apply targetCol_next.
    - now rewrite targetCol_fresh. }
  assert (Hr : 1 <= l mod c + 1 <= c) by (pose proof (Z.mod_pos_bound l c); lia).
  cbn [placeFrom]. rewrite Et.
  destruct k as [|k]; simpl in Hk.
  - injection Hk as <-.
    rewrite columnOf_placeFrom_other by exact Hy.
    rewrite Z.add_0_r.
    apply (columnOf_appendTo_fresh _ (withIndex k0 y)).
    + rewrite HC. apply In_countUp. lia.
    + apply (Hfresh y). now left.
  - rewrite (IH _ _ _ _ (l mod c + 1) k); auto.
    + do 2 f_equal.
      replace (l mod c + 1 + Z.of_nat k) with (l mod c + (1 + Z.of_nat k)) by lia.
      rewrite Zplus_mod_idemp_l. f_equal. lia.
    + now rewrite colIndices_appendTo.
    + intros z Hz Hin. apply idsOf_appendTo_incl in Hin. simpl in Hin.
      destruct Hin as [E|Hin].
      * apply Hy. rewrite <- E. now apply in_map.
      * apply (Hfresh z); [now right|exact Hin].
    + left. split; [reflexivity|lia].
Qed.



Lemma notCol_appendTo (num : jsnum) (it : item) (d : dom) :
  filter notCol (appendTo num it d) = filter notCol d.
Proof.
  induction d as [|[i its|x|] d IH]; simpl; try congruence.
  destruct (selects num i); simpl; exact IH.
Qed.

Lemma notCol_placeFrom (n : jsnum) (k : Z) (items : list item)
  (last : option jsnum) (i : nat) (C : dom) :
  filter notCol (placeFrom n k last i items C) = filter notCol C.
Proof.
  revert k last i C. induction items as [|x rest IH]; intros k last i C; [reflexivity|].
  cbn [placeFrom]. now rewrite IH, notCol_appendTo.
Qed.



(** ** What a relayout and a removal keep *)

Lemma renumber_same (k : Z) (items : list item) :
  map (fun x => (ident x, height x)) (renumber k items)
  = map (fun x => (ident x, height x)) items.
Proof.
  revert k. induction items as [|x rest IH]; intros k; simpl; [reflexivity|].
  now rewrite IH.
Qed.

Lemma renumber_indices (k : Z) (items : list item) (y : item) :
  In y (renumber k items) ->
  exists j, sortIndex y = Some j /\ k <= j < k + Z.of_nat (List.length items).
Proof.
  revert k. induction items as [|x rest IH]; intros k; simpl; [tauto|].
  intros [<-|H].
  - exists k. simpl. split; [reflexivity|lia].
  - destruct (IH _ H) as (j & Hj & Hle). exists j. split; [exact Hj|lia].
Qed.

Lemma renumber_distinct (k : Z) (items : list item) :
  NoDup (map sortIndex (renumber k items)).
Proof.
  revert k. induction items as [|x rest IH]; intros k; simpl; constructor.
  - intros Hin. apply in_map_iff in Hin. destruct Hin as (y & Hy & Hin).
    apply renumber_keys in Hin. destruct Hin as (j & Hj & Hle).
    rewrite Hj in Hy. injection Hy as Hy. lia.
  - apply IH.
Qed.

(** X11. With a selector, a relayout loses no item and adds none: the
    elements after it, with their heights, are those before it, each
    with a sort index below the number of items, no two the same. *)
Theorem reLayout_conserves (m : metrics) (s : lace) :
  selector (settings s) <> None -> cols (settings s) <> PInf ->
  NoDup (idsOf (el s)) ->
  exists s',
    _reLayout m s = Ret s'
    /\ Permutation (map (fun x => (ident x, height x)) (allItems (el s')))
                   (map (fun x => (ident x, height x)) (allItems (el s)))
    /\ NoDup (map sortIndex (allItems (el s')))
    /\ (forall y, In y (allItems (el s')) ->
          exists j, sortIndex y = Some j /\ 0 <= j < itemIndex (cache s'))
    /\ itemIndex (cache s') = Z.of_nat (List.length (allItems (el s))).
Proof.
  intros Hsel Hfin Hnd.
  destruct (reLayout_renumbered m s Hsel Hfin Hnd) as (s' & Hret & Hp & _ & Hidx).
  exists s'. split; [exact Hret|]. split; [|split; [|split; [|exact Hidx]]].
  - rewrite (Permutation_map _ Hp), renumber_same.
    apply Permutation_map, sort_perm.
  - eapply Permutation_NoDup; [symmetry; apply Permutation_map; exact Hp|].
    apply renumber_distinct.
  - intros y Hy. apply (Permutation_in _ Hp) in Hy.
    destruct (renumber_indices _ _ _ Hy) as (j & Hj & Hr).
    exists j. split; [exact Hj|]. rewrite Hidx, sort_length in *. lia.
Qed.

Lemma reLayout_conserves_witness :
  NoDup (idsOf (el afterRemoval))
  /\ exists s',
       _reLayout wide700 afterRemoval = Ret s'
       /\ Permutation (map (fun x => (ident x, height x)) (allItems (el s')))
                      [(1%nat, 100); (2%nat, 100)]
       /\ itemIndex (cache s') = 2.
Proof.
  assert (Hnd : NoDup (idsOf (el afterRemoval))) by distinct.
  split; [exact Hnd|].
  assert (Hsel : selector (settings afterRemoval) <> None) by discriminate.
  assert (Hfin : cols (settings afterRemoval) <> PInf) by discriminate.
  destruct (reLayout_conserves wide700 afterRemoval Hsel Hfin Hnd)
    as (s' & Hret & Hp & _ & _ & Hidx).
  exists s'. split; [exact Hret|]. split; [exact Hp|exact Hidx].
Defined.

Lemma holds_In (x : item) (items : list item) :
  In x items -> holds (ident x) items = true.
Proof.
  intros H. unfold holds. apply existsb_exists. exists x.
  split; [exact H|apply Nat.eqb_refl].
Qed.

(** X13. [remove] takes the elements it is given out of the grid, wherever
    they are, and keeps every other element with its height; the
    elements left are numbered again from 0. *)
Theorem remove_removes (m : metrics) (items : list item) (s : lace) :
  items <> [] ->
  selector (settings s) <> None -> cols (settings s) <> PInf ->
  NoDup (idsOf (el s)) ->
  exists s',
    remove m items s = Ret s'
    /\ Permutation
         (map (fun x => (ident x, height x)) (allItems (el s')))
         (map (fun x => (ident x, height x))
              (filter (fun x => negb (holds (ident x) items)) (allItems (el s))))
    /\ (forall x, In x items -> ~ In (ident x) (idsOf (el s')))
    /\ NoDup (idsOf (el s'))
    /\ itemIndex (cache s') = Z.of_nat (List.length (allItems (el s')))
    /\ settings s' = settings s.
Proof.
  intros Hne Hsel Hfin Hnd.
  destruct items as [|x0 rest]; [contradiction|]. clear Hne.
  set (items := x0 :: rest).
  set (s0 := setEl s (detachAll items (el s))).
  assert (Hnd0 : NoDup (idsOf (el s0))) by (apply NoDup_detachAll; exact Hnd).
  destruct (reLayout_renumbered m s0 Hsel Hfin Hnd0) as (s' & Hret & Hp & Hnd' & Hidx).
  assert (Hst : settings s' = settings s).
  { destruct (reLayout_keeps m s0 s' Hnd0) as (Hst & _); [now rewrite Hret|exact Hst]. }
  assert (Hitems : Permutation
            (map (fun x => (ident x, height x)) (allItems (el s')))
            (map (fun x => (ident x, height x))
               (filter (fun x => negb (holds (ident x) items)) (allItems (el s))))).
  { rewrite (Permutation_map _ Hp), renumber_same.
    rewrite <- (allItems_detachAll items (el s)).
    apply Permutation_map, sort_perm. }
  exists s'. split; [exact Hret|]. split; [exact Hitems|].
  split; [|split; [exact Hnd'|split; [|exact Hst]]].
  - intros x Hx Hin. unfold idsOf in Hin.
    assert (Hin' : In (ident x)
              (map fst (map (fun x => (ident x, height x)) (allItems (el s'))))).
    { rewrite map_map. exact Hin. }
    rewrite (Permutation_map fst Hitems), map_map in Hin'. simpl in Hin'.
    apply in_map_iff in Hin'. destruct Hin' as (y & Hy & Hiny).
    apply filter_In in Hiny. destruct Hiny as [_ Hk].
    pose proof (holds_In x items Hx) as Hh. cbn in Hy. unfold items in *.
    change (negb (holds (ident y) (x0 :: rest)) = true) in Hk.
    rewrite Hy, Hh in Hk. discriminate.
  - rewrite Hidx. f_equal. rewrite (Permutation_length Hp).
    now rewrite renumber_length, sort_length.
Qed.

Lemma remove_removes_witness :
  NoDup (idsOf (el tallFirst))
  /\ exists s',
       remove wide500 [freshItem 1] tallFirst = Ret s'
       /\ Permutation (map (fun x => (ident x, height x)) (allItems (el s')))
                      [(0%nat, 100); (2%nat, 300)]
       /\ ~ In 1%nat (idsOf (el s'))
       /\ itemIndex (cache s') = Z.of_nat (List.length (allItems (el s'))).
Proof.
  assert (Hnd : NoDup (idsOf (el tallFirst))) by distinct.
  split; [exact Hnd|].
  assert (Hne : [freshItem 1] <> []) by discriminate.
  assert (Hsel : selector (settings tallFirst) <> None) by discriminate.
  assert (Hfin : cols (settings tallFirst) <> PInf) by discriminate.
  destruct (remove_removes wide500 [freshItem 1] tallFirst Hne Hsel Hfin Hnd)
    as (s' & Hret & Hp & Hout & _ & Hidx & _).
  exists s'. split; [exact Hret|]. split; [exact Hp|]. split; [|exact Hidx].
  apply (Hout (freshItem 1)). now left.
Defined.

(** ** A batch appended *)

Lemma detachAll_nil (items : list item) : detachAll items [] = [].
Proof. unfold detachAll. induction items as [|x rest IH]; simpl; auto. Qed.

Lemma append_closed (c : Z) (items : list item) (s : lace) :
  laid c s -> 1 <= c -> NoDup (idsOf (el s)) ->
  lastOk (lastColAppended (cache s)) ->
  items <> [] -> NoDup (map ident items) ->
  (forall x, In x items -> ~ In (ident x) (idsOf (el s))) ->
  exists s1,
    evenBottom s = Ret s1
    /\ laid c s1 /\ settings s1 = settings s /\ cache s1 = cache s
    /\ Permutation (allItems (el s1)) (allItems (el s))
    /\ filter notCol (el s1) = filter notCol (el s)
    /\ append items s = Ret (eachFrom 0 items s1)
    /\ el (eachFrom 0 items s1)
       = placeFrom (Num c) (itemIndex (cache s)) (lastColAppended (cache s)) 0
           items (el s1).
Proof.
  intros Hlaid Hc Hnd Hok Hne Hni Hfresh.
  destruct (evenBottom_laid c s Hlaid Hc) as (s1 & He & Hlaid1 & Hst & Hca & _).
  assert (Hidx : colIndices (el s) = expectedIndices (Num c)) by apply Hlaid.
  destruct (evenBottom_perm (Num c) s s1 Hidx Hnd) as [Hp Hrest];
    [now rewrite He|].
  exists s1. split; [exact He|]. split; [exact Hlaid1|].
  split; [exact Hst|]. split; [exact Hca|]. split; [exact Hp|].
  split; [exact Hrest|]. split.
  - unfold append. destruct items as [|x rest]; [contradiction|].
    now rewrite He.
  - destruct Hlaid1 as (Hcols1 & _ & Hidx1).
    rewrite (eachFrom_el c items 0 s1 (el s1) []); try assumption.
    + now rewrite detachAll_nil, app_nil_r, Hca.
    + now rewrite app_nil_r.
    + reflexivity.
    + now rewrite Hca.
    + intros x Hx Hin. apply (Hfresh x Hx). unfold idsOf in *.
      now rewrite <- (Permutation_map ident Hp).
Qed.

(** X9. A batch of new elements appended to a grid of [c] columns: every
    element that was there stays, the new ones are numbered from the
    item counter on, in the order of the batch, and go to the columns
    that follow the last one used, in rotation. *)
Theorem append_batch (c l : Z) (items : list item) (s : lace) :
  laid c s -> 1 <= c -> NoDup (idsOf (el s)) ->
  (lastColAppended (cache s) = Some (Num l) /\ 1 <= l)
  \/ (lastColAppended (cache s) = None /\ l = 0) ->
  items <> [] -> NoDup (map ident items) ->
  (forall x, In x items -> ~ In (ident x) (idsOf (el s))) ->
  exists s',
    append items s = Ret s'
    /\ Permutation (allItems (el s'))
                   (allItems (el s) ++ renumber (itemIndex (cache s)) items)
    /\ (forall k x, nth_error items k = Some x ->
          columnOf (ident x) (el s') = Some ((l + Z.of_nat k) mod c + 1)
          /\ sortIndexOf (ident x) (el s')
             = Some (itemIndex (cache s) + Z.of_nat k))
    /\ itemIndex (cache s') = itemIndex (cache s) + Z.of_nat (List.length items)
    /\ filter notCol (el s') = filter notCol (el s)
    /\ laid c s'.
Proof.
  intros Hlaid Hc Hnd Hlast Hne Hni Hfresh.
  assert (Hok : lastOk (lastColAppended (cache s))).
  { destruct Hlast as [[-> Hl]|[-> _]]; simpl; lia. }
  destruct (append_closed c items s Hlaid Hc Hnd Hok Hne Hni Hfresh)
    as (s1 & He & Hlaid1 & Hst & Hca & Hp & Hrest & Hret & Hel).
  pose proof Hlaid1 as (Hcols1 & Hcc1 & Hidx1).
  assert (Hnd1 : NoDup (idsOf (el s1))).
  { unfold idsOf. apply (Permutation_NoDup (Permutation_map ident (Permutation_sym Hp))).
    exact Hnd. }
  assert (Hfresh1 : forall x, In x items -> ~ In (ident x) (idsOf (el s1))).
  { intros x Hx Hin. apply (Hfresh x Hx). unfold idsOf in *.
    now rewrite <- (Permutation_map ident Hp). }
  assert (Hall : Permutation (allItems (el (eachFrom 0 items s1)))
                   (allItems (el s) ++ renumber (itemIndex (cache s)) items)).
  { rewrite Hel, placeFrom_perm by assumption. now apply Permutation_app_tail. }
  destruct (eachFrom_keeps (Num c) items 0 s1 Hidx1 Hnd1) as [Hidx' Hnd'].
  exists (eachFrom 0 items s1). split; [exact Hret|]. split; [exact Hall|].
  split; [|split; [|split]].
  - intros k x Hk. split.
    + rewrite Hel.
      apply (columnOf_placeFrom c items _ _ 0 (el s1) l k x); try assumption.
      destruct Hlast as [H|[H1 H2]]; [left; exact H|right; auto].
    + assert (Hin : In (withIndex (itemIndex (cache s) + Z.of_nat k) x)
                       (allItems (el (eachFrom 0 items s1)))).
      { apply (Permutation_in _ (Permutation_sym Hall)), in_or_app. right.
        eapply nth_error_In, renumber_nth_item. exact Hk. }
      unfold sortIndexOf.
      change (ident x) with (ident (withIndex (itemIndex (cache s) + Z.of_nat k) x)).
      now rewrite (itemOf_unique _ _ Hnd' Hin).
  - now rewrite eachFrom_cache, cacheFrom_itemIndex, Hca.
  - now rewrite Hel, notCol_placeFrom.
  - split; [|split].
    + now rewrite eachFrom_settings.
    + now rewrite eachFrom_cache, cacheFrom_cache_cols.
    + exact Hidx'.
Qed.

Lemma append_batch_witness :
  laid 2 tallFirst
  /\ exists s',
       append [freshItem 7; freshItem 8; freshItem 9] tallFirst = Ret s'
       /\ columnOf 7 (el s') = Some 2
       /\ columnOf 8 (el s') = Some 1
       /\ columnOf 9 (el s') = Some 2
       /\ sortIndexOf 9 (el s') = Some 5
       /\ itemIndex (cache s') = 6.
Proof.
  assert (Hlaid : laid 2 tallFirst) by (repeat split).
  split; [exact Hlaid|].
  assert (Hc : 1 <= 2) by lia.
  assert (Hnd : NoDup (idsOf (el tallFirst))) by distinct.
  assert (Hlast : (lastColAppended (cache tallFirst) = Some (Num 1) /\ 1 <= 1)
                  \/ (lastColAppended (cache tallFirst) = None /\ 1 = 0))
    by (left; split; [reflexivity|lia]).
  assert (Hne : [freshItem 7; freshItem 8; freshItem 9] <> []) by discriminate.
  assert (Hni : NoDup (map ident [freshItem 7; freshItem 8; freshItem 9]))
    by distinct.
  assert (Hfresh : forall x, In x [freshItem 7; freshItem 8; freshItem 9] ->
                     ~ In (ident x) (idsOf (el tallFirst))).
  { intros x [<-|[<-|[<-|[]]]]; simpl; intuition discriminate. }
  destruct (append_batch 2 1 _ tallFirst Hlaid Hc Hnd Hlast Hne Hni Hfresh)
    as (s' & Hret & _ & Hwhere & Hidx & _).
  exists s'. split; [exact Hret|].
  split; [exact (proj1 (Hwhere 0%nat (freshItem 7) eq_refl))|].
  split; [exact (proj1 (Hwhere 1%nat (freshItem 8) eq_refl))|].
  split; [exact (proj1 (Hwhere 2%nat (freshItem 9) eq_refl))|].
  split; [exact (proj2 (Hwhere 2%nat (freshItem 9) eq_refl))|exact Hidx].
Defined.

(** ** What the constructor builds *)

Lemma getColumnCount_setCols (st : Settings) (n : jsnum) (m : metrics) :
  _getColumnCount (setCols st n) m = _getColumnCount st m.
Proof. reflexivity. Qed.

Lemma getContainerWidth_Num (st : Settings) (m : metrics) (c : Z) :
  _getColumnCount st m = Num c ->
  _getContainerWidth st m
  = Num (c * (toNumber (colWidth st) + toNumber (colPadding st))
         - toNumber (colPadding st)).
Proof. intros H. unfold _getContainerWidth. now rewrite H. Qed.

Lemma findChildren_emptyCols (sel : option string) (n : nat) (d : dom) :
  findChildren sel (emptyCols n ++ d) = findChildren sel d.
Proof.
  destruct sel; [|reflexivity]. unfold findChildren, emptyCols.
  rewrite flat_map_app. induction (countUp n); simpl; auto.
Qed.

Lemma existsb_clearers (d : dom) :
  existsb isClearer d = match filter isClearer d with [] => false | _ :: _ => true end.
Proof. induction d as [|[i its|x|] d IH]; simpl; auto. Qed.

Lemma notCol_clearers (d : dom) : filter notCol (filter isClearer d) = filter isClearer d.
Proof. induction d as [|[i its|x|] d IH]; simpl; congruence. Qed.

Lemma columnOf_found (x : item) (d : dom) :
  In x (flat_map snd (columns d)) ->
  exists t, columnOf (ident x) d = Some t /\ In t (colIndices d).
Proof.
  unfold colIndices. induction d as [|[i its|y|] d IH]; simpl; intros H.
  - contradiction.
  - destruct (holds (ident x) its) eqn:Eh.
    + exists i. split; [reflexivity|now left].
    + apply in_app_or in H. destruct H as [H|H].
      * rewrite (holds_In x its H) in Eh. discriminate.
      * destruct (IH H) as (t & Ht & Hin). exists t. split; [exact Ht|now right].
  - exact (IH H).
  - exact (IH H).
Qed.

(** The constructor, on a container the plugin has not touched, with a
    selector, [bootstrapped] set and a column count [c] of at least 1. *)
Lemma Lace_closed (o : options) (m : metrics) (d : dom) (c : Z) :
  plain d ->
  selector (merge o) <> None -> bootstrapped (merge o) = true ->
  _getColumnCount (merge o) m = Num c -> 1 <= c ->
  exists s2 s3,
    el s2 = placeFrom (Num c) 0 None 0 (allItems d) (emptyCols (Z.to_nat c))
            ++ filter isClearer d
    /\ laid c s2
    /\ cache s2 = cacheFrom (Num c) 0 (List.length (allItems d))
                    {| cache_cols := Num c; lastColAppended := None; itemIndex := 0 |}
    /\ evenBottom s2 = Ret s3
    /\ settings s3 = setCols (merge o) (Num c)
    /\ cache s3 = cache s2
    /\ cssWidth s3 = None
    /\ snd (Lace o m d)
       = Ret (let s4 := if centered (merge o) then _setContainerWidth m s3 else s3 in
              if existsb isClearer (el s3) then s4 else setEl s4 (el s3 ++ [Clearer])).
Proof.
  intros [Hcol Hnd] Hsel Hboot Hcount Hc.
  destruct (selector (merge o)) as [sel|] eqn:Esel; [clear Hsel|contradiction].
  set (st := setCols (merge o) (Num c)).
  set (s0 := {| settings := st;
                cache := {| cache_cols := Num c; lastColAppended := None;
                            itemIndex := 0 |};
                el := d; cssWidth := None |}).
  set (s1 := setEl s0 (emptyCols (Z.to_nat c) ++ d)).
  set (s2 := eachFrom 0 (allItems d) s1).
  assert (Hel2 : el s2 = placeFrom (Num c) 0 None 0 (allItems d) (emptyCols (Z.to_nat c))
                         ++ filter isClearer d).
  { unfold s2.
    rewrite (eachFrom_el c (allItems d) 0 s1 (emptyCols (Z.to_nat c)) d);
      try reflexivity; try assumption.
    - f_equal. apply detachAll_clearers; [exact Hcol|].
      intros it Hit. now apply in_map.
    - apply colIndices_emptyCols.
    - intros x _. unfold idsOf. now rewrite allItems_emptyCols. }
  assert (Hlaid2 : laid c s2).
  { split; [|split].
    - unfold s2. now rewrite eachFrom_settings.
    - unfold s2. now rewrite eachFrom_cache, cacheFrom_cache_cols.
    - rewrite Hel2, colIndices_app, colIndices_placeFrom, colIndices_emptyCols,
        colIndices_clearers. apply app_nil_r. }
  destruct (evenBottom_laid c s2 Hlaid2 Hc) as (s3 & He & _ & Hst3 & Hca3 & Hcss3).
  exists s2, s3. split; [exact Hel2|]. split; [exact Hlaid2|].
  split; [unfold s2; now rewrite eachFrom_cache|].
  split; [exact He|]. split; [|split; [exact Hca3|split]].
  - rewrite Hst3. unfold s2. now rewrite eachFrom_settings.
  - rewrite Hcss3. unfold s2. now rewrite eachFrom_cssWidth.
  - unfold Lace. cbn [snd]. rewrite getColumnCount_setCols, Hcount.
    fold st. fold s0. unfold _init.
    assert (Hcr : _createColumns s0 = Ret s1).
    { unfold _createColumns. change (cols (settings s0)) with (Num c). cbv iota.
      now rewrite prependCols_emptyCols. }
    rewrite Hcr. cbn [bind].
    assert (Hb : bootstrapped (settings s1) = true) by exact Hboot.
    rewrite Hb.
    assert (Hf : findChildren (selector (settings s1)) (el s1) = allItems d).
    { change (selector (settings s1)) with (selector (merge o)). rewrite Esel.
      change (el s1) with (emptyCols (Z.to_nat c) ++ d).
      rewrite findChildren_emptyCols. now rewrite (findChildren_plain _ d Hcol). }
    rewrite Hf. unfold _moveItemsIntoCols. fold s2. rewrite He. cbn [bind].
    assert (Hcen : centered (settings s3) = centered (merge o)) 
      by (rewrite Hst3; unfold s2; now rewrite eachFrom_settings).
    rewrite Hcen. destruct (centered (merge o)); reflexivity.
Qed.

(** X5. On a container that the plugin has not touched, with a column
    count of at least 1, the constructor puts every child element in a
    column and numbers the elements in document order; nothing is left
    beside the columns but the clearer, which is added when the page
    has none. *)
Theorem Lace_bootstraps (o : options) (m : metrics) (d : dom) (c : Z) :
  plain d ->
  selector (merge o) <> None -> bootstrapped (merge o) = true ->
  _getColumnCount (merge o) m = Num c -> 1 <= c ->
  exists s,
    snd (Lace o m d) = Ret s
    /\ Permutation (allItems (el s)) (renumber 0 (allItems d))
    /\ (forall k x, nth_error (allItems d) k = Some x ->
          sortIndexOf (ident x) (el s) = Some (Z.of_nat k)
          /\ exists t, columnOf (ident x) (el s) = Some t /\ 1 <= t <= c)
    /\ filter notCol (el s)
       = match filter isClearer d with [] => [Clearer] | cl => cl end
    /\ colIndices (el s) = countUp (Z.to_nat c)
    /\ itemIndex (cache s) = Z.of_nat (List.length (allItems d))
    /\ cssWidth s
       = if centered (merge o)
         then Some (Z.max 0 (c * (toNumber (colWidth (merge o))
                                  + toNumber (colPadding (merge o)))
                             - toNumber (colPadding (merge o))))
         else None.
Proof.
  intros Hplain Hsel Hboot Hcount Hc.
  destruct (Lace_closed o m d c Hplain Hsel Hboot Hcount Hc)
    as (s2 & s3 & Hel2 & Hlaid2 & Hca2 & He & Hst3 & Hca3 & Hcss3 & Hret).
  destruct Hplain as [Hcol Hnd].
  assert (Hp2 : Permutation (allItems (el s2)) (renumber 0 (allItems d))).
  { rewrite Hel2, allItems_app, allItems_clearers, app_nil_r.
    rewrite placeFrom_perm;
      [now rewrite allItems_emptyCols|exact Hc|apply colIndices_emptyCols|exact I]. }
  assert (Hnd2 : NoDup (idsOf (el s2))).
  { unfold idsOf.
    apply (Permutation_NoDup (Permutation_map ident (Permutation_sym Hp2))).
    now rewrite renumber_ident. }
  assert (Hidx2 : colIndices (el s2) = expectedIndices (Num c)) by apply Hlaid2.
  destruct (evenBottom_perm (Num c) s2 s3 Hidx2 Hnd2) as [Hp3 Hrest3];
    [now rewrite He|].
  destruct (evenBottom_keeps (Num c) s2 s3 Hidx2 Hnd2) as [Hidx3 Hnd3];
    [now rewrite He|].
  assert (Hrest : filter notCol (el s3) = filter isClearer d).
  { rewrite Hrest3, Hel2, filter_app, notCol_placeFrom, notCol_clearers.
    rewrite <- (app_nil_r (emptyCols (Z.to_nat c))), notCol_emptyCols.
    reflexivity. }
  assert (Hcl : existsb isClearer (el s3) = existsb isClearer d).
  { rewrite !existsb_clearers, <- (clearers_notCol (el s3)), Hrest.
    now rewrite clearers_idem. }
  set (s4 := if centered (merge o) then _setContainerWidth m s3 else s3) in Hret.
  assert (H4 : settings s4 = settings s3 /\ cache s4 = cache s3 /\ el s4 = el s3
               /\ cssWidth s4
                  = if centered (merge o)
                    then Some (Z.max 0 (c * (toNumber (colWidth (merge o))
                                             + toNumber (colPadding (merge o)))
                                        - toNumber (colPadding (merge o))))
                    else None).
  { unfold s4. destruct (centered (merge o)); [|auto].
    cbn [_setContainerWidth settings cache el cssWidth].
    rewrite Hst3, Hcss3.
    rewrite (getContainerWidth_Num _ m c) by (now rewrite getColumnCount_setCols).
    auto. }
  destruct H4 as (Hst4 & Hca4 & Hel4 & Hcss4).
  set (s := if existsb isClearer (el s3) then s4 else setEl s4 (el s3 ++ [Clearer]))
    in Hret.
  assert (Hs : settings s = settings s3 /\ cache s = cache s3
               /\ cssWidth s = cssWidth s4
               /\ allItems (el s) = allItems (el s3)
               /\ colIndices (el s) = colIndices (el s3)
               /\ filter notCol (el s)
                  = match filter isClearer d with [] => [Clearer] | cl => cl end).
  { unfold s. rewrite Hcl, existsb_clearers.
    destruct (filter isClearer d) as [|n cl] eqn:Ecl; simpl.
    - rewrite allItems_app, colIndices_app, filter_app, Hrest. simpl.
      rewrite !app_nil_r. repeat split; auto.
    - rewrite Hel4, Hrest. repeat split; auto. }
  destruct Hs as (Hst & Hca & Hcss & Hall & Hidx & Hnc).
  assert (Hp : Permutation (allItems (el s)) (renumber 0 (allItems d))).
  { rewrite Hall. now rewrite Hp3. }
  assert (Hnds : NoDup (idsOf (el s))) by (unfold idsOf; now rewrite Hall).
  exists s. split; [exact Hret|]. split; [exact Hp|].
  split; [|split; [exact Hnc|split; [|split]]].
  - intros k x Hk.
    assert (Hin : In (withIndex (Z.of_nat k) x) (allItems (el s))).
    { apply (Permutation_in _ (Permutation_sym Hp)).
      eapply nth_error_In. apply (renumber_nth_item 0 _ k x Hk). }
    split.
    + unfold sortIndexOf.
      change (ident x) with (ident (withIndex (Z.of_nat k) x)).
      now rewrite (itemOf_unique _ _ Hnds Hin).
    + assert (Hincol : In (withIndex (Z.of_nat k) x) (flat_map snd (columns (el s)))).
      { apply (Permutation_in _ (allItems_split (el s))) in Hin.
        apply in_app_or in Hin. destruct Hin as [Hin|Hin]; [exact Hin|].
        rewrite Hnc in Hin. exfalso.
        destruct (filter isClearer d) as [|n cl] eqn:Ecl; [contradiction|].
        rewrite <- Ecl, allItems_clearers in Hin. contradiction. }
      destruct (columnOf_found _ _ Hincol) as (t & Ht & Hint).
      exists t. split; [exact Ht|].
      rewrite Hidx, Hidx3 in Hint. apply In_countUp in Hint. lia.
  - now rewrite Hidx, Hidx3.
  - rewrite Hca, Hca3, Hca2, cacheFrom_itemIndex. reflexivity.
  - now rewrite Hcss.
Qed.

Lemma Lace_bootstraps_witness :
  plain (freshItems 4)
  /\ exists s,
       snd (Lace usualOptions wide700 (freshItems 4)) = Ret s
       /\ sortIndexOf 3 (el s) = Some 3
       /\ filter notCol (el s) = [Clearer]
       /\ colIndices (el s) = [1; 2; 3]
       /\ itemIndex (cache s) = 4.
Proof.
  assert (Hp : plain (freshItems 4)) by (split; [reflexivity|distinct]).
  split; [exact Hp|].
  assert (Hsel : selector (merge usualOptions) <> None) by discriminate.
  assert (Hc : 1 <= 3) by lia.
  destruct (Lace_bootstraps usualOptions wide700 (freshItems 4) 3
              Hp Hsel eq_refl eq_refl Hc)
    as (s & Hret & _ & Hwhere & Hrest & Hidx & Hcount & _).
  exists s. split; [exact Hret|].
  split; [exact (proj1 (Hwhere 3%nat (freshItem 3) eq_refl))|].
  split; [exact Hrest|]. split; [exact Hidx|exact Hcount].
Defined.

(** ** Grids without columns *)

Lemma columns_colIndices (d : dom) : columns d = [] <-> colIndices d = [].
Proof.
  unfold colIndices. split; intros H; [now rewrite H|].
  now apply map_eq_nil in H.
Qed.

Lemma evenLoop_no_throw (n : nat) (s s' : lace) :
  columns (el s) <> [] -> evenLoop n s <> Throw s'.
Proof.
  intros Hc. assert (Hi : colIndices (el s) <> []).
  { intros E. apply Hc. now apply columns_colIndices. }
  destruct (evenLoop_ret n s Hi) as (s1 & -> & _). discriminate.
Qed.

Lemma evenBottom_throw_inv (s s' : lace) :
  evenBottom s = Throw s' ->
  s' = s /\ find (selector (settings s)) (el s) <> [] /\ columns (el s) = [].
Proof.
  intros H. unfold evenBottom in H.
  destruct (find (selector (settings s)) (el s)) as [|x l] eqn:Ef;
    [discriminate|].
  destruct (_getColumnHeights (el s)) as [h|] eqn:Eh.
  - exfalso.
    assert (Hc : columns (el s) <> []).
    { intros E. apply getColumnHeights_none in E. congruence. }
    destruct (gapOf h <=? 500); [discriminate|].
    destruct (Nat.eqb (List.length (x :: l)) 1); [discriminate|].
    destruct (js_ceil_half (cache_cols (cache s))); try discriminate.
    exact (evenLoop_no_throw _ _ _ Hc H).
  - injection H as <-. split; [reflexivity|]. split; [discriminate|].
    now apply getColumnHeights_none.
Qed.

Lemma evenBottom_no_columns (s : lace) :
  find (selector (settings s)) (el s) <> [] -> columns (el s) = [] ->
  evenBottom s = Throw s.
Proof.
  intros Hf Hc. unfold evenBottom.
  destruct (find (selector (settings s)) (el s)) as [|x l]; [contradiction|].
  apply getColumnHeights_none in Hc. now rewrite Hc.
Qed.

(** X7. [evenBottom] throws exactly when the selector finds elements and
    the container has no column, and it throws before it has changed
    anything; [append] then throws too, before it has added anything. *)
Theorem evenBottom_throws (s : lace) :
  (forall s', evenBottom s = Throw s' -> s' = s)
  /\ (evenBottom s = Throw s
      <-> find (selector (settings s)) (el s) <> [] /\ columns (el s) = [])
  /\ (forall items,
        items <> [] ->
        find (selector (settings s)) (el s) <> [] -> columns (el s) = [] ->
        append items s = Throw s).
Proof.
  split; [intros s' H; apply (evenBottom_throw_inv s s' H)|]. split.
  - split; [intros H; apply (evenBottom_throw_inv s s H)|].
    intros [Hf Hc]. now apply evenBottom_no_columns.
  - intros items Hne Hf Hc. unfold append.
    destruct items as [|x l]; [contradiction|].
    now rewrite (evenBottom_no_columns s Hf Hc).
Qed.

Lemma eachFrom_colIndices (items : list item) (i : nat) (s : lace) :
  colIndices (el (eachFrom i items s)) = colIndices (el s).
Proof.
  revert i s. induction items as [|x rest IH]; intros i s; [reflexivity|].
  cbn [eachFrom]. rewrite IH. cbn [moveItem el].
  now rewrite colIndices_moveTo, colIndices_setSortIndex.
Qed.

Lemma eachFrom_no_columns (items : list item) (i : nat) (s : lace) :
  colIndices (el s) = [] -> idsOf (el (eachFrom i items s)) = idsOf (el s).
Proof.
  revert i s. induction items as [|x rest IH]; intros i s Hc; [reflexivity|].
  cbn [eachFrom]. rewrite IH.
  - cbn [moveItem el]. unfold moveTo.
    rewrite hasCol_no_columns by (now rewrite colIndices_setSortIndex).
    apply idsOf_setSortIndex.
  - cbn [moveItem el]. now rewrite colIndices_moveTo, colIndices_setSortIndex.
Qed.

Lemma clearers_setSortIndex (id : nat) (v : Z) (d : dom) :
  filter isClearer (setSortIndex id v d) = filter isClearer d.
Proof. induction d as [|[i its|x|] d IH]; simpl; congruence. Qed.

Lemma eachFrom_no_columns_clearers (items : list item) (i : nat) (s : lace) :
  colIndices (el s) = [] ->
  filter isClearer (el (eachFrom i items s)) = filter isClearer (el s).
Proof.
  revert i s. induction items as [|x rest IH]; intros i s Hc; [reflexivity|].
  cbn [eachFrom]. rewrite IH.
  - cbn [moveItem el]. unfold moveTo.
    rewrite hasCol_no_columns by (now rewrite colIndices_setSortIndex).
    apply clearers_setSortIndex.
  - cbn [moveItem el]. now rewrite colIndices_moveTo, colIndices_setSortIndex.
Qed.

(** X6. When the column count is not a number above 0 ([minCols] is 0 or
    less in a narrow container, or the count is [NaN]), no column is
    created, and the constructor throws as soon as the container has a
    child to bootstrap: the elements stay where they were. *)
Theorem Lace_throws_without_columns (o : options) (m : metrics) (d : dom) :
  colIndices d = [] -> findChildren (selector (merge o)) d <> [] ->
  bootstrapped (merge o) = true ->
  newCols (_getColumnCount (merge o) m) = [] ->
  _getColumnCount (merge o) m <> PInf ->
  exists s,
    snd (Lace o m d) = Throw s
    /\ colIndices (el s) = []
    /\ idsOf (el s) = idsOf d
    /\ filter isClearer (el s) = filter isClearer d.
Proof.
  intros Hcol Hch Hboot Hnew Hfin.
  set (n := _getColumnCount (merge o) m) in *.
  set (st := setCols (merge o) n).
  set (s0 := {| settings := st;
                cache := {| cache_cols := n; lastColAppended := None; itemIndex := 0 |};
                el := d; cssWidth := None |}).
  set (s2 := eachFrom 0 (findChildren (selector (merge o)) d) s0).
  assert (Hcol2 : colIndices (el s2) = []).
  { unfold s2. now rewrite eachFrom_colIndices. }
  assert (Hids2 : idsOf (el s2) = idsOf d).
  { unfold s2. now rewrite eachFrom_no_columns. }
  assert (Hsel2 : selector (settings s2) = selector (merge o)).
  { unfold s2. now rewrite eachFrom_settings. }
  assert (Hf : find (selector (settings s2)) (el s2) <> []).
  { rewrite Hsel2. destruct (selector (merge o)) as [sel|]; [|now apply Hch].
    rewrite (findChildren_plain _ d Hcol) in Hch. simpl in *.
    intros E. apply Hch. fold (idsOf d) in Hids2.
    unfold idsOf in Hids2. rewrite E in Hids2. simpl in Hids2.
    symmetry in Hids2. now apply map_eq_nil in Hids2. }
  assert (Hthrow : evenBottom s2 = Throw s2).
  { apply evenBottom_no_columns; [exact Hf|now apply columns_colIndices]. }
  exists s2. split; [|split; [exact Hcol2|split; [exact Hids2|]]].
  - change (snd (Lace o m d)) with (_init m s0). unfold _init.
    rewrite createColumns_newCols by exact Hfin.
    change (cols (settings s0)) with n. rewrite Hnew. cbn [app bind].
    assert (E : setEl s0 (el s0) = s0) by reflexivity. rewrite E.
    change (bootstrapped (settings s0)) with (bootstrapped (merge o)).
    rewrite Hboot. unfold _moveItemsIntoCols.
    change (findChildren (selector (settings s0)) (el s0))
      with (findChildren (selector (merge o)) d).
    fold s2. now rewrite Hthrow.
  - unfold s2. now rewrite eachFrom_no_columns_clearers.
Qed.

Lemma Lace_throws_without_columns_witness :
  let o := {| o_colWidth := Val 200; o_colPadding := Val 10;
              o_minCols := Some 0; o_windowPadding := None;
              o_selector := Val ".grid-item"%string;
              o_bootstrapped := None; o_centered := None |} in
  let m := {| elWidth := 100; refWidth := 1000 |} in
  _getColumnCount (merge o) m = Num 0
  /\ exists s,
       snd (Lace o m (freshItems 2)) = Throw s
       /\ colIndices (el s) = []
       /\ idsOf (el s) = [0%nat; 1%nat].
Proof.
  intros o m. split; [reflexivity|].
  assert (Hcol : colIndices (freshItems 2) = []) by reflexivity.
  assert (Hch : findChildren (selector (merge o)) (freshItems 2) <> [])
    by discriminate.
  assert (Hnew : newCols (_getColumnCount (merge o) m) = []) by reflexivity.
  assert (Hfin : _getColumnCount (merge o) m <> PInf) by discriminate.
  destruct (Lace_throws_without_columns o m (freshItems 2) Hcol Hch eq_refl Hnew Hfin)
    as (s & Hret & Hc & Hids & _).
  exists s. split; [exact Hret|]. split; [exact Hc|exact Hids].
Defined.

(** ** Resizing, and the grid without a column width *)

Lemma getColumnCount_cols (st st' : Settings) (n : jsnum) (m : metrics) :
  st' = setCols st n -> _getColumnCount st' m = _getColumnCount st m.
Proof. now intros ->. Qed.

Lemma js_eq_Num (x : jsnum) (c : Z) : js_eq x (Num c) = true <-> x = Num c.
Proof.
  destruct x as [a| | |]; simpl; split; intros H; try discriminate.
  - apply Z.eqb_eq in H. now subst.
  - injection H as ->. apply Z.eqb_refl.
Qed.

Lemma reLayout_returns (m : metrics) (s : lace) :
  cols (settings s) <> PInf -> NoDup (idsOf (el s)) ->
  exists s', _reLayout m s = Ret s'.
Proof.
  intros Hfin Hnd. destruct (selector (settings s)) as [sel|] eqn:Esel.
  - assert (Hsel : selector (settings s) <> None) by (rewrite Esel; discriminate).
    destruct (reLayout_renumbered m s Hsel Hfin Hnd) as (s' & H & _).
    now exists s'.
  - destruct (reLayout_no_selector m s Esel Hfin) as (s' & H & _). now exists s'.
Qed.

Lemma reLayout_cssWidth (m : metrics) (s s' : lace) :
  stateAfter (_reLayout m s) = Some s' ->
  cssWidth s'
  = if centered (settings s)
    then css_width (_getContainerWidth (settings s) m) (cssWidth s)
         else cssWidth s.
Proof.
  unfold _reLayout.
  set (d2 := filter notCol _).
  set (s3 := if centered (settings s) then _ else _).
  assert (H3 : cssWidth s3
               = if centered (settings s)
                 then css_width (_getContainerWidth (settings s) m) (cssWidth s)
         else cssWidth s).
  { unfold s3. destruct (centered (settings s)); reflexivity. }
  destruct (createColumns_cases s3) as [[d ->]| ->]; [|discriminate].
  cbn [bind stateAfter]. intros H. injection H as <-.
  unfold _moveItemsIntoCols. now rewrite eachFrom_cssWidth.
Qed.

(** X15. A resize brings the settings and the cache to the column count of
    the new width, and a second resize at the same width changes
    nothing; when the count has changed, a centered container is given
    the width of the new columns, or [0px] when that width is negative;
    with a selector, no element is lost. *)
Theorem resize_settles (m : metrics) (s : lace) (c : Z) :
  tidy s -> _getColumnCount (settings s) m = Num c ->
  exists s',
    _resize m s = Ret s'
    /\ cols (settings s') = Num c /\ cache_cols (cache s') = Num c
    /\ colIndices (el s') = countUp (Z.to_nat c)
    /\ _resize m s' = Ret s'
    /\ (cache_cols (cache s) = Num c -> s' = s)
    /\ (cache_cols (cache s) <> Num c -> centered (settings s) = true ->
        cssWidth s'
        = Some (Z.max 0 (c * (toNumber (colWidth (settings s))
                              + toNumber (colPadding (settings s)))
                         - toNumber (colPadding (settings s)))))
    /\ (selector (settings s) <> None ->
        Permutation (map (fun x => (ident x, height x)) (allItems (el s')))
                    (map (fun x => (ident x, height x)) (allItems (el s)))).
Proof.
  intros (Hcc & Hidx & Hnd & Hok) Hn.
  destruct (js_eq (cache_cols (cache s)) (Num c)) eqn:E.
  - apply js_eq_Num in E.
    assert (Hr : _resize m s = Ret s).
    { unfold _resize. rewrite Hn, E. simpl. now rewrite Z.eqb_refl. }
    exists s. split; [exact Hr|]. split; [congruence|]. split; [exact E|].
    split; [|split; [exact Hr|split; [reflexivity|split; [|reflexivity]]]].
    + rewrite Hidx, <- Hcc, E. reflexivity.
    + intros Hne. contradiction.
  - set (s1 := {| settings := setCols (settings s) (Num c);
                  cache := {| cache_cols := Num c;
                              lastColAppended := lastColAppended (cache s);
                              itemIndex := itemIndex (cache s) |};
                  el := el s; cssWidth := cssWidth s |}).
    assert (Hr : _resize m s = _reLayout m s1).
    { unfold _resize. rewrite Hn, E. reflexivity. }
    assert (Hfin : cols (settings s1) <> PInf) by discriminate.
    destruct (reLayout_returns m s1 Hfin Hnd) as (s' & Hret).
    destruct (reLayout_keeps m s1 s' Hnd) as (Hst & Hca & Hidx' & _);
      [now rewrite Hret|].
    exists s'. split; [now rewrite Hr|].
    split; [now rewrite Hst|]. split; [now rewrite Hca|].
    split; [exact Hidx'|]. split; [|split; [|split]].
    + unfold _resize.
      rewrite (getColumnCount_cols (settings s) (settings s') (Num c) m Hst), Hn, Hca.
      simpl. now rewrite Z.eqb_refl.
    + intros E'. rewrite E' in E. simpl in E. rewrite Z.eqb_refl in E. discriminate.
    + intros _ Hcen.
      rewrite (reLayout_cssWidth m s1 s') by (now rewrite Hret).
      change (centered (settings s1)) with (centered (settings s)). rewrite Hcen.
      change (settings s1) with (setCols (settings s) (Num c)).
      rewrite (getContainerWidth_Num _ m c) by (now rewrite getColumnCount_setCols).
      reflexivity.
    + intros Hsel.
      destruct (reLayout_renumbered m s1 Hsel Hfin Hnd) as (s2 & Hret2 & Hp & _).
      rewrite Hret in Hret2. injection Hret2 as <-.
      rewrite (Permutation_map _ Hp), renumber_same.
      apply Permutation_map, sort_perm.
Qed.

Lemma resize_settles_witness :
  tidy tallFirst
  /\ exists s',
       _resize wide700 tallFirst = Ret s'
       /\ cols (settings s') = Num 3
       /\ colIndices (el s') = [1; 2; 3]
       /\ _resize wide700 s' = Ret s'.
Proof.
  assert (Ht : tidy tallFirst).
  { split; [reflexivity|]. split; [reflexivity|]. split; [distinct|simpl; lia]. }
  split; [exact Ht|].
  destruct (resize_settles wide700 tallFirst 3 Ht eq_refl)
    as (s' & Hret & Hcols & _ & Hidx & Hagain & _).
  exists s'. split; [exact Hret|]. split; [exact Hcols|].
  split; [exact Hidx|exact Hagain].
Defined.

(** X3. Without a column width (the sum of [colWidth] and [colPadding] is
    0), in a container wider than the window padding, the column count
    is [Infinity]: the constructor never returns, and neither does a
    resize of an instance built in a narrower container. *)
Theorem zero_width_never_returns (o : options) (m : metrics) (d : dom) (s : lace) :
  toNumber (colWidth (merge o)) + toNumber (colPadding (merge o)) = 0 ->
  windowPadding (merge o) < measuredWidth (merge o) m ->
  _getColumnCount (merge o) m = PInf
  /\ snd (Lace o m d) = Hang
  /\ (settings s = setCols (merge o) (cols (settings s)) ->
      cache_cols (cache s) <> PInf -> _resize m s = Hang).
Proof.
  intros Hz Hw.
  assert (Hn : _getColumnCount (merge o) m = PInf).
  { unfold _getColumnCount, js_floor_div. rewrite Hz. simpl (0 =? 0).
    cbv iota.
    assert (E : (0 <? measuredWidth (merge o) m - windowPadding (merge o)) = true)
      by (apply Z.ltb_lt; lia).
    rewrite E. reflexivity. }
  split; [exact Hn|]. split.
  - unfold Lace. cbn [snd]. rewrite getColumnCount_setCols, Hn. reflexivity.
  - intros Hst Hcc. unfold _resize.
    rewrite (getColumnCount_cols (merge o) (settings s) _ m Hst), Hn.
    assert (E : js_eq (cache_cols (cache s)) PInf = false).
    { destruct (cache_cols (cache s)); try reflexivity. contradiction. }
    rewrite E. apply reLayout_hangs. reflexivity.
Qed.

Lemma zero_width_never_returns_witness :
  _getColumnCount (merge noOptions) wide700 = PInf
  /\ snd (Lace noOptions wide700 (freshItems 2)) = Hang
  /\ exists s,
       snd (Lace noOptions {| elWidth := 40; refWidth := 0 |} (freshItems 2)) = Ret s
       /\ _resize wide700 s = Hang.
Proof.
  assert (Hz : toNumber (colWidth (merge noOptions))
               + toNumber (colPadding (merge noOptions)) = 0) by reflexivity.
  assert (Hw : windowPadding (merge noOptions) < measuredWidth (merge noOptions) wide700)
    by (vm_compute; reflexivity).
  destruct (snd (Lace noOptions {| elWidth := 40; refWidth := 0 |} (freshItems 2)))
    as [s| |] eqn:E; try (vm_compute in E; discriminate).
  destruct (zero_width_never_returns noOptions wide700 (freshItems 2) s Hz Hw)
    as (Hn & Hl & Hr).
  split; [exact Hn|]. split; [exact Hl|].
  exists s. split; [reflexivity|].
  apply Hr; vm_compute in E; injection E as <-; [reflexivity|discriminate].
Defined.

(** ** The order of the sort *)

(** X16. When every element has a sort index, [_sortItemsByIndex] returns
    the same elements in the order of their indices, and elements with
    the same index keep the order they came in. *)
Theorem sortItemsByIndex_orders {A : Type} (key : A -> option Z) (l : list A) :
  (forall x, In x l -> key x <> None) ->
  Permutation (_sortItemsByIndex key l) l
  /\ StronglySorted (keyLe key) (_sortItemsByIndex key l)
  /\ (forall v, filter (hasKey key v) (_sortItemsByIndex key l)
                = filter (hasKey key v) l).
Proof.
  intros H. split; [apply sort_perm|]. split.
  - apply sort_keyLe. now apply Forall_forall.
  - intros v. apply sort_hasKey.
Qed.

Lemma sortItemsByIndex_orders_witness :
  let l := [mkItem 0 (Some 2) 10; mkItem 1 (Some 1) 20; mkItem 2 (Some 2) 30;
            mkItem 3 (Some 0) 40] in
  StronglySorted (keyLe sortIndex) (_sortItemsByIndex sortIndex l)
  /\ filter (hasKey sortIndex 2) (_sortItemsByIndex sortIndex l)
     = [mkItem 0 (Some 2) 10; mkItem 2 (Some 2) 30].
Proof.
  intros l.
  assert (H : forall x, In x l -> sortIndex x <> None).
  { intros x [<-|[<-|[<-|[<-|[]]]]]; discriminate. }
  destruct (sortItemsByIndex_orders sortIndex l H) as (_ & Hs & Hk).
  split; [exact Hs|exact (Hk 2)].
Defined.

(** ** Emptying the grid, then appending *)

(** X14. [removeAll] on a grid of [c] columns leaves [c] empty columns and
    the clearer, but it does not touch the cache: the next element
    appended is numbered from the old item counter and goes to the
    column after the last one used before. *)
Theorem removeAll_then_append (c : Z) (x : item) (s : lace) :
  cols (settings s) = Num c -> cache_cols (cache s) = Num c -> 1 <= c ->
  lastOk (lastColAppended (cache s)) ->
  exists s1 s2 t,
    removeAll s = Ret s1
    /\ el s1 = emptyCols (Z.to_nat c) ++ filter isClearer (el s)
    /\ allItems (el s1) = []
    /\ cache s1 = cache s
    /\ append [x] s1 = Ret s2
    /\ allItems (el s2) = [withIndex (itemIndex (cache s)) x]
    /\ targetCol (lastColAppended (cache s)) (Num c) 0 = Num t
    /\ columnOf (ident x) (el s2) = Some t
    /\ itemIndex (cache s2) = itemIndex (cache s) + 1.
Proof.
  intros Hcols Hcc Hc Hok.
  set (s1 := setEl s (emptyCols (Z.to_nat c) ++ filter isClearer (el s))).
  assert (Hr : removeAll s = Ret s1).
  { unfold removeAll, _createColumns. simpl. rewrite Hcols.
    now rewrite prependCols_emptyCols. }
  assert (Hall : allItems (el s1) = []).
  { simpl. now rewrite allItems_app, allItems_emptyCols, allItems_clearers. }
  assert (Hlaid : laid c s1).
  { split; [exact Hcols|]. split; [exact Hcc|]. simpl.
    rewrite colIndices_app, colIndices_emptyCols, colIndices_clearers.
    apply app_nil_r. }
  assert (He : evenBottom s1 = Ret s1).
  { unfold evenBottom, find. destruct (selector (settings s1)); [|reflexivity].
    now rewrite Hall. }
  assert (Ha : append [x] s1 = Ret (moveItem 0 x s1)).
  { unfold append. now rewrite He. }
  destruct (targetCol_range (lastColAppended (cache s)) c 0 Hok Hc) as (t & Ht & Hrange).
  destruct (moveItem_lands c t 0 x s1 Hlaid Hc Ht Hrange) as [_ Hcolumn].
  exists s1, (moveItem 0 x s1), t.
  split; [exact Hr|]. split; [reflexivity|]. split; [exact Hall|].
  split; [reflexivity|]. split; [exact Ha|].
  split; [|split; [exact Ht|split; [exact Hcolumn|reflexivity]]].
  assert (Hfresh : ~ In (ident x) (idsOf (el s1))) by (unfold idsOf; now rewrite Hall).
  assert (Hp : Permutation (allItems (el (moveItem 0 x s1)))
                 (allItems (el s1) ++ [withIndex (itemIndex (cache s1)) x])).
  { cbn [moveItem el]. rewrite setSortIndex_absent by exact Hfresh.
    unfold moveTo.
    change (cols (settings s1)) with (cols (settings s)). rewrite Hcols.
    change (lastColAppended (cache s1)) with (lastColAppended (cache s)). rewrite Ht.
    assert (Hin : In t (colIndices (el s1))).
    { destruct Hlaid as (_ & _ & ->). apply In_countUp. lia. }
    rewrite (proj2 (hasCol_In t (el s1)) Hin).
    rewrite detach_absent by exact Hfresh.
    apply allItems_appendTo; [|exact Hin].
    destruct Hlaid as (_ & _ & ->). apply NoDup_countUp. }
  rewrite Hall in Hp. simpl in Hp.
  apply Permutation_sym, Permutation_length_1_inv in Hp. exact Hp.
Qed.

Lemma removeAll_then_append_witness :
  exists s1 s2,
    removeAll tallFirst = Ret s1
    /\ allItems (el s1) = []
    /\ append [freshItem 9] s1 = Ret s2
    /\ allItems (el s2) = [mkItem 9 (Some 3) 100]
    /\ columnOf 9 (el s2) = Some 2.
Proof.
  assert (Hc : 1 <= 2) by lia.
  assert (Hok : lastOk (lastColAppended (cache tallFirst))) by (simpl; lia).
  destruct (removeAll_then_append 2 (freshItem 9) tallFirst eq_refl eq_refl Hc Hok)
    as (s1 & s2 & t & Hr & _ & Hall & _ & Ha & Hall2 & Ht & Hcol & _).
  exists s1, s2. split; [exact Hr|]. split; [exact Hall|]. split; [exact Ha|].
  split; [exact Hall2|].
  injection Ht as <-. exact Hcol.
Defined.

(** ** Relayout without a selector *)

Lemma columns_notCol (d : dom) : columns (filter notCol d) = [].
Proof. induction d as [|[i its|y|] d IH]; simpl; auto. Qed.

Lemma columns_newCols_items (n : jsnum) : flat_map snd (columns (newCols n)) = [].
Proof.
  destruct n as [c| | |]; try reflexivity.
  simpl. rewrite columns_emptyCols. induction (countUp (Z.to_nat c)); simpl; auto.
Qed.

(** X12. Without a selector a relayout finds no element to move out of the
    columns, and removes the columns with what they hold: only the
    elements outside the columns are left, and the new columns are
    empty.  So does [remove], whatever it is asked to remove. *)
Theorem relayout_without_selector (m : metrics) (s : lace) :
  selector (settings s) = None -> cols (settings s) <> PInf ->
  (exists s',
     _reLayout m s = Ret s'
     /\ allItems (el s') = allItems (filter notCol (el s))
     /\ flat_map snd (columns (el s')) = []
     /\ colIndices (el s') = expectedIndices (cols (settings s))
     /\ itemIndex (cache s') = 0)
  /\ (forall x rest,
        exists s',
          remove m (x :: rest) s = Ret s'
          /\ allItems (el s')
             = filter (fun y => negb (holds (ident y) (x :: rest)))
                 (allItems (filter notCol (el s)))
          /\ flat_map snd (columns (el s')) = []).
Proof.
  intros Hsel Hfin.
  assert (Hgen : forall s0,
            selector (settings s0) = None -> cols (settings s0) <> PInf ->
            exists s',
              _reLayout m s0 = Ret s'
              /\ allItems (el s') = allItems (filter notCol (el s0))
              /\ flat_map snd (columns (el s')) = []
              /\ colIndices (el s') = expectedIndices (cols (settings s0))
              /\ itemIndex (cache s') = 0).
  { intros s0 Hsel0 Hfin0.
    destruct (reLayout_no_selector m s0 Hsel0 Hfin0) as (s' & Hret & _ & Hca & Hel & _).
    exists s'. split; [exact Hret|]. rewrite Hel, Hca.
    rewrite allItems_app, allItems_newCols, columns_app, flat_map_app,
      columns_newCols_items, columns_notCol, colIndices_app, colIndices_newCols,
      colIndices_notCol.
    rewrite !app_nil_r. repeat split. }
  split; [exact (Hgen s Hsel Hfin)|].
  intros x rest.
  destruct (Hgen (setEl s (detachAll (x :: rest) (el s))) Hsel Hfin)
    as (s' & Hret & Hall & Hcols & _).
  exists s'. split; [exact Hret|]. split; [|exact Hcols].
  rewrite Hall. cbn [el setEl]. now rewrite notCol_detachAll, allItems_detachAll.
Qed.

Lemma relayout_without_selector_witness :
  let s := {| settings := setCols (merge noOptions) (Num 2);
              cache := {| cache_cols := Num 2; lastColAppended := Some (Num 2);
                          itemIndex := 2 |};
              el := [Col 1 [mkItem 0 (Some 0) 100]; Col 2 [mkItem 1 (Some 1) 100];
                     Clearer];
              cssWidth := None |} in
  exists s',
    _reLayout wide500 s = Ret s'
    /\ allItems (el s') = []
    /\ colIndices (el s') = [1; 2].
Proof.
  intros s.
  assert (Hsel : selector (settings s) = None) by reflexivity.
  assert (Hfin : cols (settings s) <> PInf) by discriminate.
  destruct (relayout_without_selector wide500 s Hsel Hfin)
    as [(s' & Hret & Hall & _ & Hidx & _) _].
  exists s'. split; [exact Hret|]. split; [exact Hall|exact Hidx].
Defined.

(** ** Appending, then removing *)

Lemma filter_perm {A : Type} (p : A -> bool) (l l' : list A) :
  Permutation l l' -> Permutation (filter p l) (filter p l').
Proof.
  induction 1 as [|x l l' H IH|x y l|l l' l'' H1 IH1 H2 IH2]; simpl.
  - constructor.
  - destruct (p x); [now constructor|exact IH].
  - destruct (p x), (p y); try reflexivity. apply perm_swap.
  - now transitivity (filter p l').
Qed.

Lemma holds_ident (id : nat) (items : list item) :
  holds id items = true <-> In id (map ident items).
Proof.
  unfold holds. rewrite existsb_exists, in_map_iff. split.
  - intros (x & Hx & E). apply Nat.eqb_eq in E. now exists x.
  - intros (x & E & Hx). exists x. split; [exact Hx|now apply Nat.eqb_eq].
Qed.

Lemma filter_none {A : Type} (p : A -> bool) (l : list A) :
  (forall x, In x l -> p x = false) -> filter p l = [].
Proof.
  induction l as [|x l IH]; intros H; [reflexivity|]. simpl.
  rewrite (H x) by now left. apply IH. intros y Hy. apply H. now right.
Qed.

Lemma filter_all {A : Type} (p : A -> bool) (l : list A) :
  (forall x, In x l -> p x = true) -> filter p l = l.
Proof.
  induction l as [|x l IH]; intros H; [reflexivity|]. simpl.
  rewrite (H x) by now left. f_equal. apply IH. intros y Hy. apply H. now right.
Qed.

Lemma clearers_detachAll (items : list item) (d : dom) :
  filter isClearer (detachAll items d) = filter isClearer d.
Proof.
  unfold detachAll. revert d. induction items as [|x rest IH]; intros d; simpl.
  - reflexivity.
  - rewrite IH. apply clearers_detach.
Qed.

Lemma distinct_indices_comparable (l : list item) :
  NoDup (map sortIndex l) -> (forall x, In x l -> sortIndex x <> None) ->
  NoDup l
  /\ forall x y, In x l -> In y l ->
       x = y \/ keyLt sortIndex x y \/ keyLt sortIndex y x.
Proof.
  intros Hnd Hsome. split; [exact (NoDup_map_inv _ _ Hnd)|].
  intros x y Hx Hy.
  destruct (sortIndex x) as [a|] eqn:Ea; [|exfalso; now apply (Hsome x Hx)].
  destruct (sortIndex y) as [b|] eqn:Eb; [|exfalso; now apply (Hsome y Hy)].
  destruct (Z.lt_total a b) as [H|[H|H]].
  - right. left. exists a, b. auto.
  - left. apply (NoDup_map_inj sortIndex l x y Hnd Hx Hy). congruence.
  - right. right. exists b, a. auto.
Qed.

(** X17. Appending new elements and then removing them gives back the
    elements that were there, with their heights, in a grid with the
    same column indices.  The elements need not be in the columns
    they were in: when their sort indices are distinct numbers, the
    instance is the one that a relayout of the first grid returns, so
    the grid is the same again exactly when a relayout leaves it as it
    is. *)
Theorem append_remove_round_trip (m : metrics) (c : Z) (items : list item) (s : lace) :
  laid c s -> 1 <= c -> selector (settings s) <> None ->
  NoDup (idsOf (el s)) -> lastOk (lastColAppended (cache s)) ->
  items <> [] -> NoDup (map ident items) ->
  (forall x, In x items -> ~ In (ident x) (idsOf (el s))) ->
  exists s1 s2,
    append items s = Ret s1
    /\ remove m items s1 = Ret s2
    /\ Permutation (map (fun x => (ident x, height x)) (allItems (el s2)))
                   (map (fun x => (ident x, height x)) (allItems (el s)))
    /\ colIndices (el s2) = colIndices (el s)
    /\ itemIndex (cache s2) = Z.of_nat (List.length (allItems (el s)))
    /\ (NoDup (map sortIndex (allItems (el s))) ->
        (forall x, In x (allItems (el s)) -> sortIndex x <> None) ->
        _reLayout m s = Ret s2 /\ (s2 = s <-> _reLayout m s = Ret s)).
Proof.
  intros Hlaid Hc Hsel Hnd Hok Hne Hni Hfresh.
  destruct (append_closed c items s Hlaid Hc Hnd Hok Hne Hni Hfresh)
    as (s0 & He & Hlaid0 & Hst0 & Hca0 & Hp0 & Hrest0 & Hret & Hel).
  set (s1 := eachFrom 0 items s0) in *.
  pose proof Hlaid0 as (Hcols0 & Hcc0 & Hidx0).
  assert (Hnd0 : NoDup (idsOf (el s0))).
  { unfold idsOf.
    apply (Permutation_NoDup (Permutation_map ident (Permutation_sym Hp0))).
    exact Hnd. }
  assert (Hall : Permutation (allItems (el s1))
                   (allItems (el s) ++ renumber (itemIndex (cache s)) items)).
  { rewrite Hel, placeFrom_perm by assumption. now apply Permutation_app_tail. }
  destruct (eachFrom_keeps (Num c) items 0 s0 Hidx0 Hnd0) as [Hidx1 Hnd1].
  fold s1 in Hidx1, Hnd1.
  assert (Hst1 : settings s1 = settings s).
  { unfold s1. now rewrite eachFrom_settings. }
  set (s1' := setEl s1 (detachAll items (el s1))).
  assert (Hnd1' : NoDup (idsOf (el s1'))) by (apply NoDup_detachAll; exact Hnd1).
  assert (Hsel1 : selector (settings s1') <> None).
  { change (settings s1') with (settings s1). now rewrite Hst1. }
  assert (Hcols1 : cols (settings s1') = Num c).
  { change (settings s1') with (settings s1). rewrite Hst1. apply Hlaid. }
  assert (Hfin1 : cols (settings s1') <> PInf) by (rewrite Hcols1; discriminate).
  destruct (reLayout_renumbered m s1' Hsel1 Hfin1 Hnd1')
    as (s2 & Hret2 & Hp2 & _ & Hcount).
  assert (Hkept : Permutation (allItems (el s1')) (allItems (el s))).
  { cbn [s1' el setEl]. rewrite allItems_detachAll.
    rewrite (filter_perm _ _ _ Hall), filter_app.
    rewrite (filter_all _ (allItems (el s))), (filter_none _ (renumber _ items)).
    - now rewrite app_nil_r.
    - intros y Hy. apply negb_false_iff, holds_ident.
      rewrite <- (renumber_ident (itemIndex (cache s)) items). now apply in_map.
    - intros y Hy. apply negb_true_iff.
      destruct (holds (ident y) items) eqn:Eh; [|reflexivity].
      apply holds_ident, in_map_iff in Eh. destruct Eh as (x & E & Hx).
      exfalso. apply (Hfresh x Hx). rewrite E. unfold idsOf. now apply in_map. }
  exists s1, s2. split; [exact Hret|]. split; [|split; [|split; [|split]]].
  - unfold remove. destruct items as [|x rest]; [contradiction|]. exact Hret2.
  - rewrite (Permutation_map _ Hp2), renumber_same.
    rewrite (Permutation_map _ (sort_perm sortIndex _)).
    now apply Permutation_map.
  - destruct (reLayout_keeps m s1' s2 Hnd1') as (_ & _ & Hidx2 & _);
      [now rewrite Hret2|].
    rewrite Hidx2. change (settings s1') with (settings s1). rewrite Hst1.
    destruct Hlaid as (-> & _ & ->). reflexivity.
  - rewrite Hcount. f_equal. now apply Permutation_length.
  - intros Hdist Hsome.
    assert (Hsame : _reLayout m s = Ret s2).
    { destruct (distinct_indices_comparable _ Hdist Hsome) as [HndI Hcmp].
      pose proof (sort_sorted sortIndex _ HndI Hcmp) as Hsorted.
      assert (Hsort : _sortItemsByIndex sortIndex (allItems (el s1'))
                      = _sortItemsByIndex sortIndex (allItems (el s))).
      { apply sort_unique; [exact Hsorted|].
        rewrite Hkept. symmetry. apply sort_perm. }
      assert (Hcols : cols (settings s) = Num c) by apply Hlaid.
      destruct (reLayout_closed m s c Hsel Hcols Hc Hnd)
        as (s' & Hr & Hst & Hca & Hel' & Hcss).
      destruct (reLayout_closed m s1' c Hsel1 Hcols1 Hc Hnd1')
        as (s2' & Hr2 & Hst2 & Hca2 & Hel2 & Hcss2).
      rewrite Hret2 in Hr2. injection Hr2 as <-.
      rewrite Hr. f_equal. apply lace_ext.
      - rewrite Hst, Hst2. symmetry. exact Hst1.
      - rewrite Hca, Hca2. rewrite (Permutation_length Hkept). f_equal.
        cbn [s1' cache setEl]. unfold s1.
        rewrite eachFrom_cache, resetCache_cacheFrom. now rewrite Hca0.
      - rewrite Hel', Hel2, Hsort. f_equal.
        cbn [s1' el setEl]. rewrite clearers_detachAll, Hel, clearers_placeFrom.
        rewrite <- (clearers_notCol (el s0)), Hrest0. symmetry. apply clearers_notCol.
      - rewrite Hcss, Hcss2.
        change (settings s1') with (settings s1). rewrite Hst1.
        assert (Hw : cssWidth s1' = cssWidth s).
        { cbn [s1' cssWidth setEl]. unfold s1. rewrite eachFrom_cssWidth.
          destruct (evenBottom_frame s s0) as (_ & _ & Hw); [now rewrite He|exact Hw]. }
        now rewrite Hw. }
    split; [exact Hsame|]. split.
    + intros <-. exact Hsame.
    + intros H. rewrite H in Hsame. now injection Hsame.
Qed.

Lemma append_remove_round_trip_witness :
  laid 2 tallFirst
  /\ exists s1 s2,
       append [freshItem 7; freshItem 8] tallFirst = Ret s1
       /\ remove wide500 [freshItem 7; freshItem 8] s1 = Ret s2
       /\ Permutation (map (fun x => (ident x, height x)) (allItems (el s2)))
                      [(0%nat, 100); (1%nat, 200); (2%nat, 300)]
       /\ _reLayout wide500 tallFirst = Ret s2
       /\ columns (el tallFirst)
          = [(1, [mkItem 0 (Some 0) 100; mkItem 1 (Some 1) 200; mkItem 2 (Some 2) 300]);
             (2, [])]
       /\ columns (el s2)
          = [(1, [mkItem 0 (Some 0) 100; mkItem 2 (Some 2) 300]);
             (2, [mkItem 1 (Some 1) 200])].
Proof.
  assert (Hlaid : laid 2 tallFirst) by (repeat split).
  split; [exact Hlaid|].
  assert (Hc : 1 <= 2) by lia.
  assert (Hsel : selector (settings tallFirst) <> None) by discriminate.
  assert (Hnd : NoDup (idsOf (el tallFirst))) by distinct.
  assert (Hok : lastOk (lastColAppended (cache tallFirst))) by (simpl; lia).
  assert (Hne : [freshItem 7; freshItem 8] <> []) by discriminate.
  assert (Hni : NoDup (map ident [freshItem 7; freshItem 8])) by distinct.
  assert (Hfresh : forall x, In x [freshItem 7; freshItem 8] ->
                     ~ In (ident x) (idsOf (el tallFirst))).
  { intros x [<-|[<-|[]]]; simpl; intuition discriminate. }
  assert (Hdist : NoDup (map sortIndex (allItems (el tallFirst)))) by distinct.
  assert (Hsome : forall x, In x (allItems (el tallFirst)) -> sortIndex x <> None).
  { intros x [<-|[<-|[<-|[]]]]; discriminate. }
  destruct (append_remove_round_trip wide500 2 _ tallFirst
              Hlaid Hc Hsel Hnd Hok Hne Hni Hfresh)
    as (s1 & s2 & Ha & Hr & Hp & _ & _ & Hre).
  destruct (Hre Hdist Hsome) as [Hsame _].
  exists s1, s2. split; [exact Ha|]. split; [exact Hr|]. split; [exact Hp|].
  split; [exact Hsame|]. split; [reflexivity|].
  vm_compute in Hsame. injection Hsame as <-. reflexivity.
Defined.

(** ** How much the balancer moves *)

Lemma holds_filter_other (id id' : nat) (its : list item) :
  id <> id' -> holds id (filter (isNot id') its) = holds id its.
Proof.
  intros Hne. unfold holds, isNot. induction its as [|y its IH]; [reflexivity|].
  simpl. destruct (Nat.eqb (ident y) id') eqn:E; simpl; rewrite IH; [|reflexivity].
  apply Nat.eqb_eq in E.
  assert (E' : Nat.eqb (ident y) id = false) by (apply Nat.eqb_neq; congruence).
  now rewrite E'.
Qed.

Lemma columnOf_detach_other (id id' : nat) (d : dom) :
  id <> id' -> columnOf id (detach id' d) = columnOf id d.
Proof.
  intros Hne. induction d as [|[i its|y|] d IH]; simpl; auto.
  - rewrite holds_filter_other by exact Hne. now rewrite IH.
  - destruct (isNot id' y); simpl; auto.
Qed.

Lemma columnOf_moveTo_other (id : nat) (num : jsnum) (it : item) (d : dom) :
  ident it <> id -> columnOf id (moveTo num it d) = columnOf id d.
Proof.
  intros Hne. unfold moveTo. destruct (hasCol num d); [|reflexivity].
  rewrite columnOf_appendTo_other by exact Hne.
  apply columnOf_detach_other. congruence.
Qed.

Lemma evenStep_moves_one (sel : option string) (d d' : dom) :
  evenStep sel d = Some d' ->
  exists moved : list nat,
    (List.length moved <= 1)%nat
    /\ forall id, ~ In id moved -> columnOf id d' = columnOf id d.
Proof.
  unfold evenStep. destruct (_getColumnHeights d) as [h|]; [|discriminate].
  destruct sel as [sel|].
  - destruct (rev (colItems (highestCol h) d)) as [|it l].
    + intros H. injection H as <-. exists []. split; [simpl; lia|reflexivity].
    + intros H. injection H as <-. exists [ident it]. split; [simpl; lia|].
      intros id Hid. apply columnOf_moveTo_other. intros E. apply Hid. now left.
  - intros H. injection H as <-. exists []. split; [simpl; lia|reflexivity].
Qed.

Lemma evenLoop_moves_few (k : nat) (s s' : lace) :
  stateAfter (evenLoop k s) = Some s' ->
  exists moved : list nat,
    (List.length moved <= k)%nat
    /\ forall id, ~ In id moved -> columnOf id (el s') = columnOf id (el s).
Proof.
  revert s. induction k as [|k IH]; intros s H.
  - injection H as <-. exists []. split; [simpl; lia|reflexivity].
  - cbn [evenLoop] in H.
    destruct (evenStep (selector (settings s)) (el s)) as [d|] eqn:E.
    + destruct (evenStep_moves_one _ _ _ E) as (m1 & Hl1 & H1).
      destruct (IH _ H) as (m2 & Hl2 & H2).
      exists (m1 ++ m2). split; [rewrite length_app; lia|].
      intros id Hid. rewrite H2; [apply H1|]; intros Hin; apply Hid, in_or_app; auto.
    + injection H as <-. exists []. split; [simpl; lia|reflexivity].
Qed.

(** X18. [evenBottom] takes at most half of the column count of elements
    (rounded up) from one column to another; every other element stays
    in its column. *)
Theorem evenBottom_moves_few (s s' : lace) (c : Z) :
  cache_cols (cache s) = Num c -> stateAfter (evenBottom s) = Some s' ->
  exists moved : list nat,
    (List.length moved <= Z.to_nat ((c + 1) / 2))%nat
    /\ forall id, ~ In id moved -> columnOf id (el s') = columnOf id (el s).
Proof.
  intros Hc H.
  assert (Hnone : s' = s -> exists moved : list nat,
            (List.length moved <= Z.to_nat ((c + 1) / 2))%nat
            /\ forall id, ~ In id moved -> columnOf id (el s') = columnOf id (el s)).
  { intros ->. exists []. split; [simpl; lia|reflexivity]. }
  unfold evenBottom in H.
  destruct (find (selector (settings s)) (el s)) as [|x l];
    [apply Hnone; now injection H|].
  destruct (_getColumnHeights (el s)) as [h|]; [|apply Hnone; now injection H].
  destruct (gapOf h <=? 500); [apply Hnone; now injection H|].
  destruct (Nat.eqb (List.length (x :: l)) 1); [apply Hnone; now injection H|].
  rewrite Hc in H. cbn [js_ceil_half] in H.
  exact (evenLoop_moves_few _ _ _ H).
Qed.

Lemma evenBottom_moves_few_witness :
  exists s' moved,
    evenBottom tallFirst = Ret s'
    /\ (List.length moved <= 1)%nat
    /\ forall id, ~ In id moved -> columnOf id (el s') = columnOf id (el tallFirst).
Proof.
  destruct (evenBottom tallFirst) as [s'| |] eqn:E; try (vm_compute in E; discriminate).
  assert (H : stateAfter (evenBottom tallFirst) = Some s') by (now rewrite E).
  destruct (evenBottom_moves_few tallFirst s' 2 eq_refl H) as (moved & Hl & Hm).
  exists s', moved. split; [reflexivity|]. split; [exact Hl|exact Hm].
Defined.

(** ** Settings with which no call fails *)

Lemma init_settings (m : metrics) (s s' : lace) :
  stateAfter (_init m s) = Some s' -> settings s' = settings s.
Proof.
  unfold _init.
  destruct (createColumns_cases s) as [[d ->]| ->]; [|discriminate].
  cbn [bind]. set (s1 := setEl s d).
  assert (H2 : forall s2,
            stateAfter (if bootstrapped (settings s1)
                        then evenBottom (_moveItemsIntoCols
                               (findChildren (selector (settings s1)) (el s1)) s1)
                        else Ret s1) = Some s2 ->
            settings s2 = settings s).
  { intros s2 H. destruct (bootstrapped (settings s1)).
    - destruct (evenBottom_frame _ s2 H) as (-> & _).
      unfold _moveItemsIntoCols. now rewrite eachFrom_settings.
    - now injection H as <-. }
  destruct (if bootstrapped (settings s1) then _ else _) as [s2|s2|];
    cbn [bind stateAfter]; intros H; try discriminate.
  - injection H as <-. rewrite <- (H2 s2 eq_refl).
    destruct (centered (settings s2)), (existsb isClearer _); reflexivity.
  - injection H as <-. now apply H2.
Qed.

Lemma getColumnCount_positive (st : Settings) (m : metrics) :
  0 < toNumber (colWidth st) + toNumber (colPadding st) -> 1 <= minCols st ->
  exists c, _getColumnCount st m = Num c /\ 1 <= c.
Proof.
  intros Hw Hmin. rewrite getColumnCount_finite by lia.
  eexists. split; [reflexivity|]. lia.
Qed.

Lemma init_returns (m : metrics) (s : lace) (c : Z) :
  cols (settings s) = Num c -> 1 <= c -> cache_cols (cache s) = Num c ->
  exists s', _init m s = Ret s'.
Proof.
  intros Hcols Hc Hcc. unfold _init.
  rewrite createColumns_newCols by (rewrite Hcols; discriminate).
  cbn [bind]. rewrite Hcols. cbn [newCols].
  set (s1 := setEl s (emptyCols (Z.to_nat c) ++ el s)).
  assert (H2 : exists s2,
            (if bootstrapped (settings s1)
             then evenBottom (_moveItemsIntoCols
                    (findChildren (selector (settings s1)) (el s1)) s1)
             else Ret s1) = Ret s2).
  { destruct (bootstrapped (settings s1)); [|now exists s1].
    unfold _moveItemsIntoCols.
    set (s2 := eachFrom 0 _ s1).
    assert (Hi : colIndices (el s2) <> []).
    { unfold s2. rewrite eachFrom_colIndices. cbn [s1 el setEl].
      rewrite colIndices_app, colIndices_emptyCols. intros E.
      apply app_eq_nil in E. destruct E as [E _].
      exact (countUp_not_nil c Hc E). }
    assert (Hf : cache_cols (cache s2) <> PInf).
    { unfold s2. rewrite eachFrom_cache, cacheFrom_cache_cols.
      cbn [s1 cache setEl]. rewrite Hcc. discriminate. }
    destruct (evenBottom_ret s2 Hi Hf) as (s3 & -> & _). now exists s3. }
  destruct H2 as (s2 & ->). cbn [bind]. eexists. reflexivity.
Qed.

Lemma healthy_settings (s s' : lace) :
  healthy s -> tidy s' -> settings s' = settings s -> healthy s'.
Proof.
  intros (_ & Hc & Hw & Hmin) Ht E. split; [exact Ht|]. now rewrite E.
Qed.

(** X19. With a column width above 0 and [minCols] at least 1 the plugin
    neither throws nor hangs: on a container it has not touched the
    constructor returns an instance with at least one column, and on
    such an instance every call returns such an instance again. *)
Theorem healthy_calls_return :
  (forall o m d,
     plain d ->
     0 < toNumber (colWidth (merge o)) + toNumber (colPadding (merge o)) ->
     1 <= minCols (merge o) ->
     exists s, snd (Lace o m d) = Ret s /\ healthy s)
  /\ (forall s,
        healthy s ->
        (forall items, exists s', append items s = Ret s' /\ healthy s')
        /\ (forall m items, exists s', remove m items s = Ret s' /\ healthy s')
        /\ (exists s', removeAll s = Ret s' /\ healthy s')
        /\ (exists s', evenBottom s = Ret s' /\ healthy s')
        /\ (forall m, exists s', _resize m s = Ret s' /\ healthy s')).
Proof.
  split.
  - intros o m d Hd Hw Hmin.
    destruct (getColumnCount_positive (merge o) m Hw Hmin) as (c & Hn & Hc).
    set (s0 := {| settings := setCols (merge o) (Num c);
                  cache := {| cache_cols := Num c; lastColAppended := None;
                              itemIndex := 0 |};
                  el := d; cssWidth := None |}).
    assert (E : snd (Lace o m d) = _init m s0).
    { unfold Lace. cbn [snd]. rewrite getColumnCount_setCols, Hn. reflexivity. }
    destruct (init_returns m s0 c eq_refl Hc eq_refl) as (s & Hs).
    exists s. split; [now rewrite E|].
    assert (Hst : settings s = settings s0) by (apply (init_settings m); now rewrite Hs).
    split; [|rewrite Hst; split; [exists c; split; [reflexivity|exact Hc]|split; assumption]].
    apply (init_keeps m s0 s); [reflexivity|exact Hd|exact I|now rewrite Hs].
  - intros s Hs. pose proof Hs as (Ht & (c & Hcols & Hc) & Hw & Hmin).
    pose proof Ht as (Hcc & Hidx & Hnd & Hok).
    assert (He : exists s', evenBottom s = Ret s' /\ settings s' = settings s).
    { assert (Hi : colIndices (el s) <> []).
      { rewrite Hidx, Hcols. exact (countUp_not_nil c Hc). }
      assert (Hf : cache_cols (cache s) <> PInf) by (rewrite Hcc, Hcols; discriminate).
      destruct (evenBottom_ret s Hi Hf) as (s' & H & _ & Hst & _). now exists s'. }
    split; [|split; [|split; [|split]]].
    + intros items. destruct items as [|x l].
      * exists s. split; [reflexivity|exact Hs].
      * destruct He as (s1 & He & Hst1).
        exists (_moveItemsIntoCols (x :: l) s1).
        assert (Ha : append (x :: l) s = Ret (_moveItemsIntoCols (x :: l) s1)).
        { unfold append. now rewrite He. }
        split; [exact Ha|]. apply (healthy_settings s); [exact Hs| |].
        -- apply (step_keeps s); [exact Ht|].
           apply (step_append (x :: l)). now rewrite Ha.
        -- unfold _moveItemsIntoCols. now rewrite eachFrom_settings.
    + intros m items. destruct items as [|x l].
      * exists s. split; [reflexivity|exact Hs].
      * set (s0 := setEl s (detachAll (x :: l) (el s))).
        assert (Hnd0 : NoDup (idsOf (el s0))) by (apply NoDup_detachAll; exact Hnd).
        assert (Hfin : cols (settings s0) <> PInf).
        { change (settings s0) with (settings s). rewrite Hcols. discriminate. }
        destruct (reLayout_returns m s0 Hfin Hnd0) as (s' & Hret).
        exists s'. split; [exact Hret|].
        apply (healthy_settings s); [exact Hs| |].
        -- apply (step_keeps s); [exact Ht|].
           apply (step_remove m (x :: l)). unfold remove. fold s0. now rewrite Hret.
        -- destruct (reLayout_keeps m s0 s' Hnd0) as (Hst & _);
             [now rewrite Hret|exact Hst].
    + assert (Hr : exists s', removeAll s = Ret s' /\ settings s' = settings s).
      { unfold removeAll, _createColumns. cbn [setEl settings]. rewrite Hcols.
        eexists. split; reflexivity. }
      destruct Hr as (s' & Hr & Hst). exists s'. split; [exact Hr|].
      apply (healthy_settings s); [exact Hs| |exact Hst].
      apply (step_keeps s); [exact Ht|]. apply step_removeAll. now rewrite Hr.
    + destruct He as (s' & He & Hst). exists s'. split; [exact He|].
      apply (healthy_settings s); [exact Hs| |exact Hst].
      apply (step_keeps s); [exact Ht|]. apply step_evenBottom. now rewrite He.
    + intros m.
      destruct (getColumnCount_positive (settings s) m Hw Hmin) as (n & Hn & Hn1).
      destruct (js_eq (cache_cols (cache s)) (Num n)) eqn:E.
      * exists s. split; [|exact Hs]. unfold _resize. now rewrite Hn, E.
      * set (s1 := {| settings := setCols (settings s) (Num n);
                      cache := {| cache_cols := Num n;
                                  lastColAppended := lastColAppended (cache s);
                                  itemIndex := itemIndex (cache s) |};
                      el := el s; cssWidth := cssWidth s |}).
        assert (Hr : _resize m s = _reLayout m s1).
        { unfold _resize. rewrite Hn, E. reflexivity. }
        assert (Hfin : cols (settings s1) <> PInf) by discriminate.
        destruct (reLayout_returns m s1 Hfin Hnd) as (s' & Hret).
        exists s'. split; [now rewrite Hr|].
        destruct (reLayout_keeps m s1 s' Hnd) as (Hst & _); [now rewrite Hret|].
        split; [|rewrite Hst; split; [exists n; split; [reflexivity|exact Hn1]|split; assumption]].
        apply (step_keeps s); [exact Ht|]. apply (step_resize m). now rewrite Hr, Hret.
Qed.

Lemma healthy_calls_return_witness :
  plain (freshItems 4)
  /\ exists s s1 s2 s3,
       snd (Lace usualOptions wide700 (freshItems 4)) = Ret s
       /\ append [freshItem 4] s = Ret s1
       /\ _resize wide500 s1 = Ret s2
       /\ remove wide500 [freshItem 0] s2 = Ret s3
       /\ healthy s3.
Proof.
  assert (Hp : plain (freshItems 4)) by (split; [reflexivity|distinct]).
  split; [exact Hp|].
  destruct healthy_calls_return as [Hnew Hcall].
  assert (Hw : 0 < toNumber (colWidth (merge usualOptions))
                   + toNumber (colPadding (merge usualOptions)))
    by (vm_compute; reflexivity).
  assert (Hmin : 1 <= minCols (merge usualOptions)) by (vm_compute; discriminate).
  destruct (Hnew usualOptions wide700 (freshItems 4) Hp Hw Hmin) as (s & Hs & Hh).
  destruct (Hcall s Hh) as (Ha & _).
  destruct (Ha [freshItem 4]) as (s1 & Hs1 & Hh1).
  destruct (Hcall s1 Hh1) as (_ & _ & _ & _ & Hr).
  destruct (Hr wide500) as (s2 & Hs2 & Hh2).
  destruct (Hcall s2 Hh2) as (_ & Hrm & _).
  destruct (Hrm wide500 [freshItem 0]) as (s3 & Hs3 & Hh3).
  exists s, s1, s2, s3.
  split; [exact Hs|]. split; [exact Hs1|]. split; [exact Hs2|].
  split; [exact Hs3|exact Hh3].
Defined.
